(** * Collocation engine of CHL_PFT_Data_Processing.py

    A shallow embedding of the collocation core of
    [src/CHL_PFT_Data_Processing.py]: the file resolver
    ([file_candidates_for_date] and the open loop of [main]), the grid
    locator ([adapt_query_lon], [nearest_index] and the tolerance gate of
    [process_one_day]), the time selector ([compute_time_index]), the
    per-day extraction ([process_one_day]) and the day loop of [main].

    Conventions of the embedding.
    - Degrees (Python floats in the source) are exact rationals [Q] in the
      definitions outside the module [F64].  The module [F64] has the
      locator and the tolerance gate on IEEE 754 doubles, with NaN, the
      infinities and the rounding of every operation; the statements on
      the boundary of the gate and on blank coordinates are made on it.
      The float "no data" marker [np.nan] of an output cell is the
      constructor [NaN] of [cell].
    - The position cells of the input table are numbers, the [lat] and
      [lon] variables of a dataset are one-dimensional numeric arrays and
      its time axis holds datetimes.  What the script does on other inputs
      ([float] raising on a cell of text, the subtraction of the day from a
      time axis that holds no datetimes raising) is outside the embedding.
    - Exceptions are explicit: a computation that can raise returns a
      [result]; [main] threads a state holding the data frame and the trace
      of observable events (prints, opens, closes).
    - The xarray/numpy/pandas/glob primitives the script calls are modelled
      by their documented behaviour on the data the script gives them. *)

From Stdlib Require Import QArith Qround Qabs Lqa Lia ZArith Ascii String DecimalString.
From Stdlib Require SpecFloat.
From stdpp Require Import gmap strings list fin_maps sorting.

Local Open Scope Q_scope.

(** ** Exceptions *)

Inductive exn : Type := KeyError | IndexError | ValueError.

Inductive result (A : Type) : Type :=
| Ok (a : A)
| Raise (e : exn).
Arguments Ok {A} a.
Arguments Raise {A} e.

Definition rbind {A B : Type} (r : result A) (k : A → result B) : result B :=
  match r with
  | Ok a => k a
  | Raise e => Raise e
  end.

Notation "x ←r e ; k" := (rbind e (fun x => k))
  (at level 100, e at next level, k at level 200, right associativity).

Fixpoint rmapM {A B : Type} (f : A → result B) (l : list A) : result (list B) :=
  match l with
  | [] => Ok []
  | a :: l' => b ←r f a; bs ←r rmapM f l'; Ok (b :: bs)
  end.

(** ** Numbers *)

(** [x < y] on floats. *)
Definition Qltb (x y : Q) : bool := negb (Qle_bool y x).

(** Python's [x % m] for a positive modulus: the result has the sign of [m]. *)
Definition pymod (x m : Q) : Q := x - m * inject_Z (Qfloor (x / m)).

(** [arr[i]] for [i >= 0]: IndexError out of range. *)
Definition index {A : Type} (arr : list A) (i : nat) : result A :=
  match arr !! i with
  | Some x => Ok x
  | None => Raise IndexError
  end.

(** ** GridLocator: longitude domain

    In exact arithmetic; [F64.lon_to_180] and its companions further down
    are the same lines on doubles, where [lon + 180.0] rounds. *)

Definition lon_to_180 (lon : Q) : Q := pymod (lon + 180) 360 - 180.

Definition lon_to_360 (lon : Q) : Q := pymod lon 360.

(** [np.nanmin] / [np.nanmax]: ValueError on a zero-size array. *)
Definition nanmin (vals : list Q) : result Q :=
  match vals with
  | [] => Raise ValueError
  | x :: r => Ok (foldl (fun m y => if Qltb y m then y else m) x r)
  end.

Definition nanmax (vals : list Q) : result Q :=
  match vals with
  | [] => Raise ValueError
  | x :: r => Ok (foldl (fun m y => if Qltb m y then y else m) x r)
  end.

(** [if np.nanmin(lon_vals) >= 0 and np.nanmax(lon_vals) > 180]; [and]
    evaluates [nanmax] only when the first test holds. *)
Definition adapt_query_lon (lon_vals : list Q) (qlon : Q) : result Q :=
  lo ←r nanmin lon_vals;
  if Qle_bool 0 lo then
    hi ←r nanmax lon_vals;
    if Qltb 180 hi then Ok (lon_to_360 qlon) else Ok (lon_to_180 qlon)
  else Ok (lon_to_180 qlon).

(** ** GridLocator: nearest index *)

(** [np.all(np.diff(arr) >= 0)]. *)
Fixpoint nondecreasing (arr : list Q) : bool :=
  match arr with
  | x :: r =>
      match r with
      | y :: _ => Qle_bool 0 (y - x) && nondecreasing r
      | [] => true
      end
  | [] => true
  end.

(** [np.searchsorted(arr, value)] (side left) on a sorted array: the first
    index whose element is not below [value]. *)
Fixpoint searchsorted (arr : list Q) (value : Q) : nat :=
  match arr with
  | x :: r => if Qltb x value then S (searchsorted r value) else O
  | [] => O
  end.

(** [np.argmin]: the first index of the minimum; ValueError when empty. *)
Fixpoint argmin_from (best : nat) (bv : Q) (i : nat) (l : list Q) : nat :=
  match l with
  | x :: r =>
      if Qltb x bv then argmin_from i x (S i) r
      else argmin_from best bv (S i) r
  | [] => best
  end.

Definition argmin (l : list Q) : result nat :=
  match l with
  | x :: r => Ok (argmin_from 0 x 1 r)
  | [] => Raise ValueError
  end.

(** Lines 96-101: the binary-search branch. *)
Definition nearest_fast (arr : list Q) (value : Q) : result nat :=
  let i := searchsorted arr value in
  if (i =? 0)%nat then Ok O
  else if (length arr <=? i)%nat then Ok (length arr - 1)%nat
  else
    a_i ←r index arr i;
    a_p ←r index arr (i - 1);
    Ok (if Qltb (Qabs (a_i - value)) (Qabs (a_p - value)) then i else (i - 1)%nat).

(** Line 102 (and 104): the brute-force scan. *)
Definition nearest_linear (arr : list Q) (value : Q) : result nat :=
  argmin (map (fun x => Qabs (x - value)) arr).

(** The axes of the model are one-dimensional, so [arr.ndim == 1] holds. *)
Definition nearest_index (arr : list Q) (value : Q) : result nat :=
  match (if nondecreasing arr then nearest_fast arr value
         else nearest_linear arr value) with
  | Ok i => Ok i
  | Raise _ => nearest_linear arr value
  end.

(** ** Output cells and grid datasets *)

(** A float cell of the data frame or of a result: a finite number or the
    "no data" marker [np.nan]. *)
Inductive cell : Type :=
| Num (q : Q)
| NaN.

(** What [da.isel(...).item()] followed by [np.isfinite] can do: raise
    (wrong dimensions, non-scalar selection, non-numeric item), give a
    masked or non-finite item, or give a finite number. *)
Inductive reading : Type :=
| ReadFails
| ReadNonFinite
| ReadFinite (q : Q).

(** A data variable: whether [TIME_NAME] is among its dimensions, and its
    item at a lat index, a lon index and an optional time index. *)
Record DataArray : Type := {
  da_has_time : bool;
  da_item : nat → nat → option nat → reading
}.

(** An opened dataset.  [ds_lat] and [ds_lon] are [ds["lat"].values] and
    [ds["lon"].values], one-dimensional arrays of numbers, absent when the
    dataset has no such name; [ds_time] is the time coordinate, decoded to
    datetimes, in nanoseconds since the epoch, empty when there is no time
    dimension. *)
Record Dataset : Type := {
  ds_lat : option (list Q);
  ds_lon : option (list Q);
  ds_time : list Z;
  data_vars : gmap string DataArray
}.

(** [ds[name].values] for a coordinate: KeyError when absent. *)
Definition coord_values (axis : option (list Q)) : result (list Q) :=
  match axis with
  | Some vals => Ok vals
  | None => Raise KeyError
  end.

(** ** Samples and dates *)

(** A midnight timestamp, as [pd.to_datetime] builds it from the Year,
    Month and Day columns. *)
Record Timestamp : Type := {
  ts_year : Z;
  ts_month : Z;
  ts_day : Z
}.

Global Instance Timestamp_eq_dec : EqDecision Timestamp.
Proof. solve_decision. Defined.

(** One row of the input table: its date and position.  The LATITUDE and
    LONGITUDE cells are numbers: a blank cell, which [float] turns into
    NaN, is a coordinate of the module [F64] only, and a cell [float]
    rejects (text such as "41,05", on which line 143 or 144 raises
    ValueError) is outside the embedding. *)
Record Sample : Type := {
  s_date : Timestamp;
  s_lat : Q;
  s_lon : Q
}.

(** Days since 1970-01-01 of a proleptic Gregorian date. *)
Definition days_from_civil (y m d : Z) : Z :=
  (let y' := if m <=? 2 then y - 1 else y in
   let era := y' / 400 in
   let yoe := y' - era * 400 in
   let mp := if 2 <? m then m - 3 else m + 9 in
   let doy := (153 * mp + 2) / 5 + d - 1 in
   let doe := yoe * 365 + yoe / 4 - yoe / 100 + doy in
   era * 146097 + doe - 719468)%Z.

(** The value of the [_np_datetime] column as a [datetime64]: nanoseconds
    since the epoch at midnight of the day. *)
Definition np_datetime (t : Timestamp) : Z :=
  (days_from_civil (ts_year t) (ts_month t) (ts_day t) * 86400000000000)%Z.

(** Chronological order of timestamps. *)
Definition ts_compare (a b : Timestamp) : comparison :=
  match (ts_year a ?= ts_year b)%Z with
  | Eq =>
      match (ts_month a ?= ts_month b)%Z with
      | Eq => (ts_day a ?= ts_day b)%Z
      | c => c
      end
  | c => c
  end.

(** ** TimeSelector *)

(** [np.argmin] on a [timedelta64] array. *)
Fixpoint argminZ_from (best : nat) (bv : Z) (i : nat) (l : list Z) : nat :=
  match l with
  | x :: r =>
      if (x <? bv)%Z then argminZ_from i x (S i) r
      else argminZ_from best bv (S i) r
  | [] => best
  end.

Definition argminZ (l : list Z) : nat :=
  match l with
  | x :: r => argminZ_from 0 x 1 r
  | [] => O
  end.

(** [sizes.get(TIME_NAME, 0)] is the length of the time coordinate.  The
    [argmin] is reached with at least two values only.  The time values
    are datetimes, as [decode_times=True] gives them for a standard
    calendar; on a time axis of another type [tvals - when_np_day] raises
    TypeError, which is outside the embedding. *)
Definition compute_time_index (ds : Dataset) (when_np_day : Z) : option nat :=
  let time_len := length (ds_time ds) in
  if (time_len <=? 0)%nat then None
  else if (time_len =? 1)%nat then Some O
  else
    let tvals := ds_time ds in
    Some (argminZ (map (fun t => Z.abs (t - when_np_day)) tvals)).

(** ** process_one_day *)

(** Lines 153-154, in exact arithmetic; [F64.lat_difference] and
    [F64.lon_difference] are the differences as computed on doubles. *)
Definition lat_difference (nearest_lat qlat : Q) : Q := Qabs (nearest_lat - qlat).

Definition lon_difference (nearest_lon qlon : Q) : Q :=
  Qabs (pymod ((nearest_lon - qlon) + 180) 360 - 180).

(** Line 157: [dlat > tol_deg or dlon > tol_deg], on numbers.  With a NaN
    difference both comparisons are false: [F64.out_of_tolerance]. *)
Definition out_of_tolerance (dlat dlon tol_deg : Q) : bool :=
  Qltb tol_deg dlat || Qltb tol_deg dlon.

(** Lines 158-159: every requested variable gets [np.nan]. *)
Definition fill_nan (var_names : list string) : gmap string cell :=
  foldl (fun res v => <[v := NaN]> res) ∅ var_names.

(** Lines 164-175: one variable at the resolved cell. *)
Definition extract_var (ds : Dataset) (ilat ilon : nat)
    (time_index : option nat) (v : string) : cell :=
  match data_vars ds !! v with
  | None => NaN
  | Some da =>
      let it := if da_has_time da then time_index else None in
      match da_item da ilat ilon it with
      | ReadFinite val => Num val
      | ReadNonFinite => NaN
      | ReadFails => NaN
      end
  end.

Definition extract_vars (ds : Dataset) (ilat ilon : nat)
    (time_index : option nat) (var_names : list string) : gmap string cell :=
  foldl (fun res v => <[v := extract_var ds ilat ilon time_index v]> res)
        ∅ var_names.

(** Lines 142-177: the body of the loop over the rows, for a row whose
    position cells are numbers ([float(r[COL_LAT])] and [float(r[COL_LON])]
    return) and for one-dimensional axes ([float(lat_vals[ilat])]
    returns). *)
Definition process_row (ds : Dataset) (lat_vals lon_vals : list Q)
    (time_index : option nat) (var_names : list string) (tol_deg : Q)
    (row : nat * Sample) : result (nat * gmap string cell) :=
  let ridx := row.1 in
  let lat := s_lat row.2 in
  let lon := s_lon row.2 in
  qlon ←r adapt_query_lon lon_vals lon;
  let qlat := lat in
  ilat ←r nearest_index lat_vals qlat;
  ilon ←r nearest_index lon_vals qlon;
  nearest_lat ←r index lat_vals ilat;
  nearest_lon ←r index lon_vals ilon;
  let dlat := lat_difference nearest_lat qlat in
  let dlon := lon_difference nearest_lon qlon in
  if out_of_tolerance dlat dlon tol_deg then Ok (ridx, fill_nan var_names)
  else Ok (ridx, extract_vars ds ilat ilon time_index var_names).

(** The result dictionary [{row_idx: {var: val}}] is kept as the list of
    its items in insertion order; the row labels of one table are distinct. *)
Definition process_one_day (ds : Dataset) (rows : list (nat * Sample))
    (var_names : list string) (tol_deg : Q)
    : result (list (nat * gmap string cell)) :=
  lat_vals ←r coord_values (ds_lat ds);
  lon_vals ←r coord_values (ds_lon ds);
  first_row ←r index rows 0;
  let time_index := compute_time_index ds (np_datetime (s_date first_row.2)) in
  rmapM (process_row ds lat_vals lon_vals time_index var_names tol_deg) rows.

(** ** FileResolver *)

(** The part of the file system the script looks at: the names listed in a
    directory (none when the directory does not exist) and what
    [xr.open_dataset] does on a path ([None]: it raises). *)
Record FileSystem : Type := {
  listdir : string → list string;
  open_dataset : string → option Dataset
}.

Fixpoint zeros (n : nat) : string :=
  match n with
  | O => EmptyString
  | S k => String "0"%char (zeros k)
  end.

(** The format specification [0Wd] of an f-string: sign first, then zeros up
    to the width, then the decimal digits. *)
Definition format_d (width : nat) (n : Z) : string :=
  let digits := NilZero.string_of_uint (N.to_uint (Z.abs_N n)) in
  if (n <? 0)%Z then
    String "-"%char (zeros (width - 1 - String.length digits) +:+ digits)
  else zeros (width - String.length digits) +:+ digits.

Fixpoint ends_with_slash (s : string) : bool :=
  match s with
  | EmptyString => false
  | String c EmptyString => Ascii.eqb c "/"%char
  | String _ r => ends_with_slash r
  end.

(** [os.path.join(a, b)] (POSIX) for a relative [b]. *)
Definition path_join (a b : string) : string :=
  match a with
  | EmptyString => b
  | _ => if ends_with_slash a then a +:+ b else a +:+ "/" +:+ b
  end.

(** [fnmatch] for the patterns of this script, whose only wildcard is [*]. *)
Fixpoint fnmatch (pat : string) : string → bool :=
  match pat with
  | EmptyString =>
      fun name => match name with EmptyString => true | String _ _ => false end
  | String c pat' =>
      if Ascii.eqb c "*"%char then
        fix star (name : string) : bool :=
          fnmatch pat' name
          || match name with
             | EmptyString => false
             | String _ name' => star name'
             end
      else
        fun name =>
          match name with
          | String c' name' => Ascii.eqb c c' && fnmatch pat' name'
          | EmptyString => false
          end
  end.

Definition starts_with_dot (s : string) : bool :=
  match s with
  | String c _ => Ascii.eqb c "."%char
  | EmptyString => false
  end.

(** [glob.has_magic]: the path holds one of the wildcard characters of
    [glob], which are [*], [?] and the opening square bracket. *)
Fixpoint has_magic (s : string) : bool :=
  match s with
  | EmptyString => false
  | String c r =>
      Ascii.eqb c "*"%char || Ascii.eqb c "?"%char || Ascii.eqb c "["%char
      || has_magic r
  end.

(** [glob.glob(os.path.join(dir, pat))] for a directory path without
    wildcards ([has_magic dir = false]): the listed names that match,
    hidden names only for a pattern that starts with a dot, each joined to
    the directory.  With a wildcard in the directory path [glob.glob]
    expands the directory part as well and lists every directory it
    matches; that case is not described here. *)
Definition glob (fs : FileSystem) (dir pat : string) : list string :=
  map (path_join dir)
      (filter (fun name =>
                 fnmatch pat name = true
                 ∧ (starts_with_dot name = true → starts_with_dot pat = true))
              (listdir fs dir)).

(** [sorted(set(xs))]: insertion into a sorted list without repetition. *)
Fixpoint insert_uniq {A : Type} (cmp : A → A → comparison) (x : A)
    (l : list A) : list A :=
  match l with
  | [] => [x]
  | y :: r =>
      match cmp x y with
      | Lt => x :: l
      | Eq => l
      | Gt => y :: insert_uniq cmp x r
      end
  end.

Definition sorted_set {A : Type} (cmp : A → A → comparison) (l : list A)
    : list A :=
  foldr (insert_uniq cmp) [] l.

Definition file_candidates_for_date (fs : FileSystem) (base_dir : string)
    (y m d : Z) : list string :=
  let ymd := format_d 4 y +:+ format_d 2 m +:+ format_d 2 d in
  let year_dir := path_join base_dir (format_d 4 y) in
  let patterns := [ymd +:+ "_*.nc"; "*" +:+ ymd +:+ "*.nc"; ymd +:+ ".nc"] in
  let files := concat (map (glob fs year_dir) patterns) in
  sorted_set String.compare files.

(** Lines 333-339: the first candidate that opens. *)
Fixpoint open_first (fs : FileSystem) (candidates : list string)
    : option (string * Dataset) :=
  match candidates with
  | [] => None
  | path :: rest =>
      match open_dataset fs path with
      | Some ds => Some (path, ds)
      | None => open_first fs rest
      end
  end.

(** ** The data frame *)

(** The table read from the input: its rows (row label = position, as
    [read_csv] and [read_excel] build it), the names of its columns other
    than the date and position columns, and the cell of each such column at
    each row. *)
Record DataFrame : Type := {
  df_rows : list Sample;
  columns : list string;
  cells : gmap (string * nat) cell
}.

(** [df[v] = np.nan]. *)
Definition set_column_nan (v : string) (df : DataFrame) : DataFrame :=
  {| df_rows := df_rows df;
     columns := if decide (v ∈ columns df) then columns df else columns df ++ [v];
     cells := foldr (fun i m => <[(v, i) := NaN]> m) (cells df)
                    (seq 0 (length (df_rows df))) |}.

(** [df.at[ridx, col] = x]; a missing column is created first. *)
Definition at_set (ridx : nat) (col : string) (x : cell) (df : DataFrame)
    : DataFrame :=
  let df' := if decide (col ∈ columns df) then df else set_column_nan col df in
  {| df_rows := df_rows df';
     columns := columns df';
     cells := <[(col, ridx) := x]> (cells df') |}.

(** [df.groupby("_date", sort=True)]: the distinct dates in ascending order,
    each with its rows in table order. *)
Definition groupby_date (rows : list (nat * Sample))
    : list (Timestamp * list (nat * Sample)) :=
  map (fun day => (day, filter (fun r => s_date r.2 = day) rows))
      (sorted_set ts_compare (map (fun r => s_date r.2) rows)).

(** [df.iterrows()]: the rows with their labels. *)
Definition iterrows (df : DataFrame) : list (nat * Sample) :=
  imap (fun i s => (i, s)) (df_rows df).

(** ** Configuration *)

Inductive product : Type := Plankton | Optics.

Definition product_name (p : product) : string :=
  match p with
  | Plankton => "plankton"
  | Optics => "optics"
  end.

Definition DEFAULT_PLANKTON_VARS : list string :=
  ["CHL"; "CHL_uncertainty"; "flags";
   "DIATO"; "DINO"; "HAPTO"; "GREEN"; "PROKAR"; "PROCHLO"; "MICRO"; "NANO"; "PICO";
   "DIATO_uncertainty"; "DINO_uncertainty"; "HAPTO_uncertainty"; "GREEN_uncertainty";
   "PROKAR_uncertainty"; "PROCHLO_uncertainty"; "MICRO_uncertainty";
   "NANO_uncertainty"; "PICO_uncertainty"]%string.

Definition DEFAULT_OPTICS_VARS : list string :=
  ["BBP"; "BBP_uncertainty"; "flags"; "CDM"; "CDM_uncertainty"]%string.

Definition RENAME_OUT : gmap (string * string) string :=
  {[ ("optics", "flags")%string := "flags_optics"%string ]}.

Definition DEFAULT_TOL_DEG : Q := 5 # 100.

(** The output column of a variable: the plankton block of [main] uses the
    raw name, the optics block [RENAME_OUT.get(("optics", v), v)]. *)
Definition out_name (p : product) (v : string) : string :=
  match p with
  | Plankton => v
  | Optics => default v (RENAME_OUT !! ("optics"%string, v))
  end.

Record Args : Type := {
  plankton_base_dir : string;
  optics_base_dir : option string;
  tol_deg : Q;
  plankton_vars : list string;
  optics_vars : list string
}.

(** Truth value of [args.optics_base_dir]. *)
Definition optics_configured (a : Args) : option string :=
  match optics_base_dir a with
  | Some EmptyString => None
  | o => o
  end.

(** ** The day loop of main *)

(** What a run prints. *)
Inductive message : Type :=
| MsgProcessing (total_groups : nat)
| MsgMissing (gi total_groups : nat) (day : Timestamp) (p : product)
    (missing : list string)
| MsgCouldNotOpen (gi total_groups : nat) (day : Timestamp) (p : product)
| MsgNoFile (gi total_groups : nat) (day : Timestamp) (p : product)
| MsgDone (gi total_groups : nat) (day : Timestamp) (nrows : nat).

(** The observable events of a run.  [EvGroup gi] marks the head of the
    loop body for the [gi]-th day-group; it prints nothing. *)
Inductive event : Type :=
| EvGroup (gi : nat)
| EvPrint (msg : message)
| EvOpen (path : string)
| EvClose (path : string).

Record State : Type := {
  df : DataFrame;
  trace : list event
}.

Definition emit (e : event) (st : State) : State :=
  {| df := df st; trace := trace st ++ [e] |}.

Definition set_df (d : DataFrame) (st : State) : State :=
  {| df := d; trace := trace st |}.

(** How a piece of [main] ends: it falls through with a state, or an
    exception leaves it with the state reached so far. *)
Inductive run : Type :=
| Done (st : State)
| Aborted (e : exn) (st : State).

Definition run_bind (r : run) (k : State → run) : run :=
  match r with
  | Done st => k st
  | Aborted e st => Aborted e st
  end.

(** Lines 346-348 and 375-378: the writes of one product's day results. *)
Definition merge_values (p : product) (vars : list string) (ridx : nat)
    (values : gmap string cell) (d : DataFrame) : DataFrame :=
  foldl (fun d v => at_set ridx (out_name p v) (default NaN (values !! v)) d)
        d vars.

Definition merge_results (p : product) (vars : list string)
    (day_results : list (nat * gmap string cell)) (d : DataFrame) : DataFrame :=
  foldl (fun d item => merge_values p vars item.1 item.2 d) d day_results.

(** Lines 331-356 for the plankton product and 360-386 for the optics
    product: the two blocks differ in the base directory, the variable list,
    the product named in the messages and the output column names only.
    [ds.close()] releases the handle; what it may raise is discarded. *)
Definition process_product (fs : FileSystem) (a : Args) (p : product)
    (base_dir : string) (vars : list string) (gi total_groups : nat)
    (day : Timestamp) (rows : list (nat * Sample)) (st : State) : run :=
  let candidates :=
    file_candidates_for_date fs base_dir (ts_year day) (ts_month day) (ts_day day) in
  match candidates with
  | _ :: _ =>
      match open_first fs candidates with
      | Some (path, ds) =>
          let st := emit (EvOpen path) st in
          let present_vars := filter (fun v => is_Some (data_vars ds !! v)) vars in
          let missing := filter (fun v => ¬ is_Some (data_vars ds !! v)) vars in
          let st :=
            match missing with
            | _ :: _ => emit (EvPrint (MsgMissing gi total_groups day p missing)) st
            | [] => st
            end in
          match process_one_day ds rows present_vars (tol_deg a) with
          | Ok day_results =>
              let st := set_df (merge_results p vars day_results (df st)) st in
              Done (emit (EvClose path) st)
          | Raise e => Aborted e st
          end
      | None => Done (emit (EvPrint (MsgCouldNotOpen gi total_groups day p)) st)
      end
  | [] => Done (emit (EvPrint (MsgNoFile gi total_groups day p)) st)
  end.

(** Lines 327-388: the body of the loop over the day-groups. *)
Definition process_group (fs : FileSystem) (a : Args) (total_groups : nat)
    (gi : nat) (group : Timestamp * list (nat * Sample)) (st : State) : run :=
  let day := group.1 in
  let rows := group.2 in
  let st := emit (EvGroup gi) st in
  run_bind (process_product fs a Plankton (plankton_base_dir a)
              (plankton_vars a) gi total_groups day rows st) (fun st =>
  run_bind (match optics_configured a with
            | Some optics_dir =>
                process_product fs a Optics optics_dir (optics_vars a)
                  gi total_groups day rows st
            | None => Done st
            end) (fun st =>
  Done (emit (EvPrint (MsgDone gi total_groups day (length rows))) st))).

(** The loop [for gi, (day, rows) in enumerate(grouped, start=1)], from the
    group numbered [gi] on; an exception ends it. *)
Fixpoint process_groups (fs : FileSystem) (a : Args) (total_groups : nat)
    (gi : nat) (groups : list (Timestamp * list (nat * Sample))) (st : State)
    : run :=
  match groups with
  | [] => Done st
  | group :: rest =>
      run_bind (process_group fs a total_groups gi group st)
               (process_groups fs a total_groups (S gi) rest)
  end.

(** Lines 313-314 and 319-320: [if v not in df.columns: df[v] = np.nan]. *)
Definition ensure_column (v : string) (d : DataFrame) : DataFrame :=
  if decide (v ∈ columns d) then d else set_column_nan v d.

(** Lines 312-320: the output columns of both products. *)
Definition prepare_columns (a : Args) (d : DataFrame) : DataFrame :=
  let d := foldl (fun d v => ensure_column v d) d (plankton_vars a) in
  foldl (fun d v => ensure_column (out_name Optics v) d) d (optics_vars a).

(** Lines 310-388 of [main], from the table as read to the end of the day
    loop. *)
Definition main (fs : FileSystem) (a : Args) (table : DataFrame) : run :=
  let d := prepare_columns a table in
  let grouped := groupby_date (iterrows d) in
  let total_groups := length grouped in
  let st := {| df := d; trace := [EvPrint (MsgProcessing total_groups)] |} in
  process_groups fs a total_groups 1 grouped st.

(** The handles open after a trace. *)
Fixpoint open_handles_from (open : list string) (tr : list event) : list string :=
  match tr with
  | [] => open
  | EvOpen path :: tr' => open_handles_from (open ++ [path]) tr'
  | EvClose path :: tr' =>
      open_handles_from (filter (fun h => h ≠ path) open) tr'
  | _ :: tr' => open_handles_from open tr'
  end.

Definition open_handles (tr : list event) : list string :=
  open_handles_from [] tr.

Definition final_state (r : run) : State :=
  match r with
  | Done st => st
  | Aborted _ st => st
  end.

(** ** Specification predicates for the grid locator *)

(** [first_min l k]: [k] is the first index of a minimum of [l]. *)
Definition first_min (l : list Q) (k : nat) : Prop :=
  ∃ xk, l !! k = Some xk
        ∧ (∀ j x, l !! j = Some x → xk <= x)
        ∧ (∀ j x, (j < k)%nat → l !! j = Some x → xk < x).


(** [x] is a value of [arr] nearest to [v]. *)
Definition nearest_value (arr : list Q) (v x : Q) : Prop :=
  ∀ j y, arr !! j = Some y → Qabs (x - v) <= Qabs (y - v).

(** ** Data of the worked scenarios

    One sample dated 2020-03-15 at (41.05 N, -8.70 E) and a dataset of that
    day with three latitudes and three longitudes, holding CHL = 0.42 at the
    middle cell. *)

Definition chl_042 : DataArray :=
  {| da_has_time := true;
     da_item := fun ilat ilon it =>
       match ilat, ilon, it with
       | 1%nat, 1%nat, Some O => ReadFinite (42 # 100)
       | _, _, _ => ReadNonFinite
       end |}.

Definition ds_20200315 : Dataset :=
  {| ds_lat := Some [409 # 10; 410 # 10; 411 # 10];
     ds_lon := Some [-88 # 10; -87 # 10; -86 # 10];
     ds_time := [1584230400000000000%Z];
     data_vars := {[ "CHL"%string := chl_042 ]} |}.

Definition sample_20200315 : Sample :=
  {| s_date := {| ts_year := 2020; ts_month := 3; ts_day := 15 |};
     s_lat := 4105 # 100;
     s_lon := -870 # 100 |}.

Definition fs_one_file : FileSystem :=
  {| listdir := fun dir =>
       if String.eqb dir "data/2020" then ["20200315_cmems.nc"%string] else [];
     open_dataset := fun path =>
       if String.eqb path "data/2020/20200315_cmems.nc" then Some ds_20200315
       else None |}.

Definition args_chl : Args :=
  {| plankton_base_dir := "data";
     optics_base_dir := None;
     tol_deg := DEFAULT_TOL_DEG;
     plankton_vars := ["CHL"%string];
     optics_vars := [] |}.

Definition table_one : DataFrame :=
  {| df_rows := [sample_20200315]; columns := []; cells := ∅ |}.

(** An optics dataset of the same day on the same grid, holding
    BBP = 0.01 and flags = 1 at the middle cell, and a file system where
    only the optics product has a file for the day. *)
Definition middle_cell (val : Q) : DataArray :=
  {| da_has_time := true;
     da_item := fun ilat ilon it =>
       match ilat, ilon, it with
       | 1%nat, 1%nat, Some O => ReadFinite val
       | _, _, _ => ReadNonFinite
       end |}.

Definition ds_optics_20200315 : Dataset :=
  {| ds_lat := Some [409 # 10; 410 # 10; 411 # 10];
     ds_lon := Some [-88 # 10; -87 # 10; -86 # 10];
     ds_time := [1584230400000000000%Z];
     data_vars := {[ "BBP"%string := middle_cell (1 # 100);
                     "flags"%string := middle_cell 1 ]} |}.

Definition fs_optics_only : FileSystem :=
  {| listdir := fun dir =>
       if String.eqb dir "optics/2020" then ["20200315_optics.nc"%string] else [];
     open_dataset := fun path =>
       if String.eqb path "optics/2020/20200315_optics.nc"
       then Some ds_optics_20200315 else None |}.

Definition args_default : Args :=
  {| plankton_base_dir := "plankton";
     optics_base_dir := Some "optics"%string;
     tol_deg := DEFAULT_TOL_DEG;
     plankton_vars := DEFAULT_PLANKTON_VARS;
     optics_vars := DEFAULT_OPTICS_VARS |}.

(** Both products asked for the same raw name CHL; only the optics base
    directory has a file for the day. *)
Definition args_both_chl : Args :=
  {| plankton_base_dir := "nodata";
     optics_base_dir := Some "data"%string;
     tol_deg := DEFAULT_TOL_DEG;
     plankton_vars := ["CHL"%string];
     optics_vars := ["CHL"%string] |}.

(** A dataset that opens but has no latitude axis, for the first of two
    days; the second day has the regular dataset. *)
Definition ds_no_lat : Dataset :=
  {| ds_lat := None;
     ds_lon := Some [-88 # 10; -87 # 10; -86 # 10];
     ds_time := [1584144000000000000%Z];
     data_vars := {[ "CHL"%string := chl_042 ]} |}.

Definition fs_no_lat : FileSystem :=
  {| listdir := fun dir =>
       if String.eqb dir "data/2020"
       then ["20200314_cmems.nc"; "20200315_cmems.nc"]%string else [];
     open_dataset := fun path =>
       if String.eqb path "data/2020/20200314_cmems.nc" then Some ds_no_lat
       else if String.eqb path "data/2020/20200315_cmems.nc" then Some ds_20200315
       else None |}.

Definition sample_20200314 : Sample :=
  {| s_date := {| ts_year := 2020; ts_month := 3; ts_day := 14 |};
     s_lat := 4105 # 100;
     s_lon := -870 # 100 |}.

Definition table_two_days : DataFrame :=
  {| df_rows := [sample_20200315; sample_20200314]; columns := []; cells := ∅ |}.

(** ** Specification predicates for the time selector and the orders *)

(** [k] is the first index of a minimum of the integer list [l]. *)
Definition first_minZ (l : list Z) (k : nat) : Prop :=
  ∃ xk, l !! k = Some xk
        ∧ (∀ j x, l !! j = Some x → (xk <= x)%Z)
        ∧ (∀ j x, (j < k)%nat → l !! j = Some x → (xk < x)%Z).

(** A three-way comparison that is a strict total order. *)
Class CmpOrder {A : Type} (cmp : A → A → comparison) : Prop := {
  cmp_eq : ∀ x y, cmp x y = Eq → x = y;
  cmp_refl : ∀ x, cmp x x = Eq;
  cmp_antisym : ∀ x y, cmp x y = CompOpp (cmp y x);
  cmp_trans : ∀ x y z, cmp x y = Lt → cmp y z = Lt → cmp x z = Lt
}.

(** The strict order of a comparison. *)
Definition cmp_lt {A : Type} (cmp : A → A → comparison) (x y : A) : Prop :=
  cmp x y = Lt.

(** No character of the string is the wildcard. *)
Fixpoint no_star (s : string) : bool :=
  match s with
  | EmptyString => true
  | String c r => negb (Ascii.eqb c "*"%char) && no_star r
  end.

(** The characters a formatted integer is made of. *)
Definition date_char (c : ascii) : bool :=
  Ascii.eqb c "-"%char || (48 <=? nat_of_ascii c)%nat && (nat_of_ascii c <=? 57)%nat.

Fixpoint date_chars (s : string) : bool :=
  match s with
  | EmptyString => true
  | String c r => date_char c && date_chars r
  end.

(** ** The file resolver as the specification words it

    The candidate order of the specification: the matches of the
    exact-prefix pattern first, then those of the substring pattern, then
    the exact full name, each path once at its first place. *)
Definition keep_first (l : list string) : list string :=
  foldl (fun acc p => if decide (p ∈ acc) then acc else acc ++ [p]) [] l.

Definition candidates_by_priority (fs : FileSystem) (base_dir : string)
    (y m d : Z) : list string :=
  let ymd := format_d 4 y +:+ format_d 2 m +:+ format_d 2 d in
  let year_dir := path_join base_dir (format_d 4 y) in
  keep_first (glob fs year_dir (ymd +:+ "_*.nc")
              ++ glob fs year_dir ("*" +:+ ymd +:+ "*.nc")
              ++ glob fs year_dir (ymd +:+ ".nc")).

(** "Its name contains the 8-digit concatenation". *)
Fixpoint name_contains (sub name : string) : bool :=
  String.prefix sub name
  || match name with
     | EmptyString => false
     | String _ name' => name_contains sub name'
     end.

(** A year directory with a substring-only match, a prefix match and a file
    of another kind that carries the date. *)
Definition fs_three_names : FileSystem :=
  {| listdir := fun dir =>
       if String.eqb dir "data/2020"
       then ["20200315_x.nc"; "07_20200315.nc"; "20200315.txt"]%string
       else [];
     open_dataset := fun path =>
       if String.prefix "data/2020/" path then Some ds_20200315 else None |}.

(** ** Specification predicates for the day loop *)

(** Every column of the table has a cell at every row. *)
Definition wf_table (d : DataFrame) : Prop :=
  ∀ c i, c ∈ columns d → (i < length (df_rows d))%nat → is_Some (cells d !! (c, i)).

(** The output columns of the two products. *)
Definition out_columns (p : product) (vars : list string) : list string :=
  map (out_name p) vars.

(** What one product leaves in the column of its variable [v] for the rows
    of one day-group, between the data frame before and after: the cells
    are untouched when no candidate opens, and hold the value extracted from
    the opened dataset (or [np.nan]) otherwise. *)
Definition product_outcome (fs : FileSystem) (a : Args) (p : product)
    (base_dir : string) (vars : list string) (day : Timestamp)
    (rows : list (nat * Sample)) (before after : DataFrame) (v : string)
    : Prop :=
  let candidates :=
    file_candidates_for_date fs base_dir (ts_year day) (ts_month day) (ts_day day) in
  (open_first fs candidates = None →
     ∀ row, row ∈ rows →
       cells after !! (out_name p v, row.1) = cells before !! (out_name p v, row.1))
  ∧ (∀ path ds, open_first fs candidates = Some (path, ds) →
       ∃ lat_vals lon_vals,
         ds_lat ds = Some lat_vals ∧ ds_lon ds = Some lon_vals
         ∧ ∀ row, row ∈ rows →
             ∃ res,
               process_row ds lat_vals lon_vals
                 (compute_time_index ds (np_datetime day))
                 (filter (fun v => is_Some (data_vars ds !! v)) vars)
                 (tol_deg a) row = Ok (row.1, res)
               ∧ cells after !! (out_name p v, row.1)
                 = Some (default NaN (res !! v))).

(** The row labels of distinct groups are distinct. *)
Fixpoint disjoint_groups (groups : list (Timestamp * list (nat * Sample)))
    : Prop :=
  match groups with
  | [] => True
  | g :: rest =>
      (∀ g' i, g' ∈ rest → i ∈ map fst g.2 → i ∉ map fst g'.2)
      ∧ disjoint_groups rest
  end.

(** Every group has distinct row labels and rows of the group's date. *)
Definition groups_ok (groups : list (Timestamp * list (nat * Sample))) : Prop :=
  ∀ g, g ∈ groups →
    NoDup (map fst g.2) ∧ g.2 ≠ [] ∧ ∀ row, row ∈ g.2 → s_date row.2 = g.1.

(** No dataset handle is open whenever a day-group begins. *)
Definition closed_at_group_starts (tr : list event) : Prop :=
  ∀ pre gi post, tr = pre ++ EvGroup gi :: post → open_handles pre = [].

(** Every dataset that can be opened has both axes, with at least one value
    each. *)
Definition datasets_have_axes (fs : FileSystem) : Prop :=
  ∀ path ds, open_dataset fs path = Some ds →
    ∃ lat_vals lon_vals,
      ds_lat ds = Some lat_vals ∧ lat_vals ≠ []
      ∧ ds_lon ds = Some lon_vals ∧ lon_vals ≠ [].


(** ** Measures of a trace *)

(** The number of messages printed along a trace. *)
Fixpoint count_prints (tr : list event) : nat :=
  match tr with
  | [] => O
  | EvPrint _ :: tr' => S (count_prints tr')
  | _ :: tr' => count_prints tr'
  end.

(** The largest number of handles open at once along a trace that starts
    with the handles [open]. *)
Fixpoint peak_open (open : list string) (tr : list event) : nat :=
  match tr with
  | [] => length open
  | e :: tr' => Nat.max (length open) (peak_open (open_handles_from open [e]) tr')
  end.

(** ** The products of a run *)

(** [p] is a product the run extracts, from [base_dir] and with the
    variable list [vars]: the plankton product always, the optics product
    when its base directory is configured. *)
Definition product_of_run (a : Args) (p : product) (base_dir : string)
    (vars : list string) : Prop :=
  (p = Plankton ∧ base_dir = plankton_base_dir a ∧ vars = plankton_vars a)
  ∨ (p = Optics ∧ optics_configured a = Some base_dir ∧ vars = optics_vars a).

(** No output column is written for two variables: no plankton variable
    has the output name of an optics variable and no two optics variables
    share an output name. *)
Definition collision_free (a : Args) : Prop :=
  (∀ v w, v ∈ plankton_vars a → w ∈ optics_vars a → v ≠ out_name Optics w)
  ∧ (∀ w w', w ∈ optics_vars a → w' ∈ optics_vars a →
             out_name Optics w' = out_name Optics w → w' = w).

(** ** The locator in double precision

    The same lines of the source with Python floats and float64 arrays as
    IEEE 754 binary64 values, NaN and the infinities included, and every
    operation rounded to nearest-even as the interpreter computes it.  A
    blank cell of the LATITUDE or LONGITUDE column reaches the locator as
    NaN ([float] of NaN does not raise). *)
Module F64.

Definition float : Type := SpecFloat.spec_float.

Definition prec : Z := 53.
Definition emax : Z := 1024.

Definition nan : float := SpecFloat.S754_nan.
Definition zero : float := SpecFloat.S754_zero false.

Definition add : float → float → float := SpecFloat.SFadd prec emax.
Definition sub : float → float → float := SpecFloat.SFsub prec emax.
Definition div : float → float → float := SpecFloat.SFdiv prec emax.
Definition abs : float → float := SpecFloat.SFabs.
Definition ltb : float → float → bool := SpecFloat.SFltb.
Definition leb : float → float → bool := SpecFloat.SFleb.

Definition is_nan (x : float) : bool :=
  match x with
  | SpecFloat.S754_nan => true
  | _ => false
  end.

Definition is_zero (x : float) : bool :=
  match x with
  | SpecFloat.S754_zero _ => true
  | _ => false
  end.

(** The double of an integer literal such as [180.0] or [360.0]. *)
Definition of_Z (n : Z) : float := SpecFloat.binary_normalize prec emax n 0 false.

(** The double a decimal literal denotes: [n/d] rounded once, for an
    integer [n] and a power of ten [d] that are doubles themselves. *)
Definition dec (n : Z) (d : positive) : float := div (of_Z n) (of_Z (Zpos d)).

(** The exact value of a finite double. *)
Definition to_Q (x : float) : Q :=
  match x with
  | SpecFloat.S754_finite s m e =>
      let v := inject_Z (Zpos m) * 2 ^ e in
      if s then - v else v
  | _ => 0
  end.

(** C's [fmod]: the exact remainder of the division truncated towards
    zero, with the sign of [x]. *)
Definition fmod (x y : float) : float :=
  match x, y with
  | SpecFloat.S754_nan, _ | _, SpecFloat.S754_nan => nan
  | SpecFloat.S754_infinity _, _ => nan
  | _, SpecFloat.S754_zero _ => nan
  | _, SpecFloat.S754_infinity _ => x
  | SpecFloat.S754_zero _, _ => x
  | SpecFloat.S754_finite sx mx ex, SpecFloat.S754_finite _ my ey =>
      let e := Z.min ex ey in
      let a := (Zpos mx * 2 ^ (ex - e))%Z in
      let b := (Zpos my * 2 ^ (ey - e))%Z in
      let r := (a mod b)%Z in
      SpecFloat.binary_normalize prec emax (if sx then (- r)%Z else r) e sx
  end.

(** Python's [x % y] on floats: [fmod], then the sign of the divisor; a
    zero remainder takes the divisor's sign.  The divisor of the script is
    the constant [360.0] (Python raises ZeroDivisionError on a zero one). *)
Definition pymod (x y : float) : float :=
  let m := fmod x y in
  if is_zero m then SpecFloat.S754_zero (ltb y zero)
  else if xorb (ltb y zero) (ltb m zero) then add m y
  else m.

Definition lon_to_180 (lon : float) : float :=
  sub (pymod (add lon (of_Z 180)) (of_Z 360)) (of_Z 180).

Definition lon_to_360 (lon : float) : float := pymod lon (of_Z 360).

(** [np.nanmin] / [np.nanmax]: NaN entries are passed over, an array of
    NaN alone gives NaN; ValueError on a zero-size array. *)
Definition fmin (a b : float) : float :=
  if is_nan a then b else if is_nan b then a else if ltb b a then b else a.

Definition fmax (a b : float) : float :=
  if is_nan a then b else if is_nan b then a else if ltb a b then b else a.

Definition nanmin (vals : list float) : result float :=
  match vals with
  | [] => Raise ValueError
  | x :: r => Ok (foldl fmin x r)
  end.

Definition nanmax (vals : list float) : result float :=
  match vals with
  | [] => Raise ValueError
  | x :: r => Ok (foldl fmax x r)
  end.

Definition adapt_query_lon (lon_vals : list float) (qlon : float) : result float :=
  lo ←r nanmin lon_vals;
  if leb zero lo then
    hi ←r nanmax lon_vals;
    if ltb (of_Z 180) hi then Ok (lon_to_360 qlon) else Ok (lon_to_180 qlon)
  else Ok (lon_to_180 qlon).

(** [np.all(np.diff(arr) >= 0)]: false as soon as a difference is NaN. *)
Fixpoint nondecreasing (arr : list float) : bool :=
  match arr with
  | x :: r =>
      match r with
      | y :: _ => leb zero (sub y x) && nondecreasing r
      | [] => true
      end
  | [] => true
  end.

(** The order numpy sorts and searches with: NaN comes last. *)
Definition np_less (a b : float) : bool :=
  ltb a b || (is_nan b && negb (is_nan a)).

(** [np.searchsorted(arr, value)] (side left) on a sorted array: the first
    index whose element is not below [value]; the length for a NaN
    [value]. *)
Fixpoint searchsorted (arr : list float) (value : float) : nat :=
  match arr with
  | x :: r => if np_less x value then S (searchsorted r value) else O
  | [] => O
  end.

(** [np.argmin]: the index of the first NaN if there is one, of the first
    minimum otherwise (the loop keeps [mp] unless [not (x >= mp)]);
    ValueError when empty. *)
Fixpoint argmin_from (best : nat) (bv : float) (i : nat) (l : list float) : nat :=
  match l with
  | x :: r =>
      if leb bv x then argmin_from best bv (S i) r
      else if is_nan x then i
      else argmin_from i x (S i) r
  | [] => best
  end.

Definition argmin (l : list float) : result nat :=
  match l with
  | x :: r => Ok (if is_nan x then O else argmin_from 0 x 1 r)
  | [] => Raise ValueError
  end.

Definition nearest_fast (arr : list float) (value : float) : result nat :=
  let i := searchsorted arr value in
  if (i =? 0)%nat then Ok O
  else if (length arr <=? i)%nat then Ok (length arr - 1)%nat
  else
    a_i ←r index arr i;
    a_p ←r index arr (i - 1);
    Ok (if ltb (abs (sub a_i value)) (abs (sub a_p value)) then i else (i - 1)%nat).

Definition nearest_linear (arr : list float) (value : float) : result nat :=
  argmin (map (fun x => abs (sub x value)) arr).

Definition nearest_index (arr : list float) (value : float) : result nat :=
  match (if nondecreasing arr then nearest_fast arr value
         else nearest_linear arr value) with
  | Ok i => Ok i
  | Raise _ => nearest_linear arr value
  end.

(** Lines 153-154. *)
Definition lat_difference (nearest_lat qlat : float) : float :=
  abs (sub nearest_lat qlat).

Definition lon_difference (nearest_lon qlon : float) : float :=
  abs (sub (pymod (add (sub nearest_lon qlon) (of_Z 180)) (of_Z 360)) (of_Z 180)).

(** Line 157: [dlat > tol_deg or dlon > tol_deg]; a comparison with NaN is
    false. *)
Definition out_of_tolerance (dlat dlon tol_deg : float) : bool :=
  ltb tol_deg dlat || ltb tol_deg dlon.

(** Lines 142-177 for the row labelled [ridx] with the coordinates [lat]
    and [lon], on float64 axes. *)
Definition process_row (ds : Dataset) (lat_vals lon_vals : list float)
    (time_index : option nat) (var_names : list string) (tol_deg : float)
    (ridx : nat) (lat lon : float) : result (nat * gmap string cell) :=
  qlon ←r adapt_query_lon lon_vals lon;
  let qlat := lat in
  ilat ←r nearest_index lat_vals qlat;
  ilon ←r nearest_index lon_vals qlon;
  nearest_lat ←r index lat_vals ilat;
  nearest_lon ←r index lon_vals ilon;
  let dlat := lat_difference nearest_lat qlat in
  let dlon := lon_difference nearest_lon qlon in
  if out_of_tolerance dlat dlon tol_deg then Ok (ridx, fill_nan var_names)
  else Ok (ridx, extract_vars ds ilat ilon time_index var_names).

End F64.

(** ** Data of the scenarios in double precision *)

(** A CHL field that is finite at every cell: 0.1, 0.2 and 0.3 on the three
    latitude rows. *)
Definition chl_by_row : DataArray :=
  {| da_has_time := true;
     da_item := fun ilat _ _ => ReadFinite (inject_Z (Z.of_nat (S ilat)) / 10) |}.

Definition ds_chl_by_row : Dataset :=
  {| ds_lat := Some [409 # 10; 410 # 10; 411 # 10];
     ds_lon := Some [-88 # 10; -87 # 10; -86 # 10];
     ds_time := [1584230400000000000%Z];
     data_vars := {[ "CHL"%string := chl_by_row ]} |}.

(** The axes of the scenario as float64 arrays. *)
Definition lat_axis_f64 : list F64.float :=
  [F64.dec 409 10; F64.dec 410 10; F64.dec 411 10].

Definition lon_axis_f64 : list F64.float :=
  [F64.dec (-88) 10; F64.dec (-87) 10; F64.dec (-86) 10].

(** * Properties *)

(** ** Comparisons and absolute values *)

Lemma Qltb_lt (x y : Q) : Qltb x y = true ↔ x < y.
Proof.
  unfold Qltb. rewrite negb_true_iff.
  destruct (Qle_bool y x) eqn:E.
  - apply Qle_bool_iff in E. split; [discriminate | lra].
  - split; [intros _ | reflexivity].
    destruct (Qlt_le_dec x y) as [H|H]; [exact H |].
    apply Qle_bool_iff in H. congruence.
Qed.

Lemma Qltb_ge (x y : Q) : Qltb x y = false ↔ y <= x.
Proof.
  rewrite <- not_true_iff_false, Qltb_lt. split; lra.
Qed.

Lemma Qle_bool_gt (x y : Q) : Qle_bool x y = false ↔ y < x.
Proof.
  rewrite <- not_true_iff_false, Qle_bool_iff. split; lra.
Qed.

(** Case analysis on the sign under an absolute value, for [lra]. *)
Lemma Qabs_cases (x : Q) :
  (0 <= x ∧ Qabs x == x) ∨ (x < 0 ∧ Qabs x == - x).
Proof.
  destruct (Qlt_le_dec x 0) as [H|H].
  - right. split; [exact H |]. apply Qabs_neg. lra.
  - left. split; [exact H |]. apply Qabs_pos. exact H.
Qed.

Ltac qabs t :=
  let H := fresh "Habs" in
  destruct (Qabs_cases t) as [[? H]|[? H]].

Ltac qbool :=
  repeat match goal with
  | H : Qltb _ _ = true |- _ => apply Qltb_lt in H
  | H : Qltb _ _ = false |- _ => apply Qltb_ge in H
  | H : Qle_bool _ _ = true |- _ => apply Qle_bool_iff in H
  | H : Qle_bool _ _ = false |- _ => apply Qle_bool_gt in H
  end.

(** ** The first-minimum index *)

Lemma argmin_from_spec (l : list Q) :
  ∀ best bv i,
    (argmin_from best bv i l = best ∧ ∀ j x, l !! j = Some x → bv <= x)
    ∨ (∃ j xk, argmin_from best bv i l = (i + j)%nat
         ∧ l !! j = Some xk ∧ xk < bv
         ∧ (∀ j' x, l !! j' = Some x → xk <= x)
         ∧ (∀ j' x, (j' < j)%nat → l !! j' = Some x → xk < x)).
Proof.
  induction l as [|a l IH]; intros best bv i; simpl.
  - left. split; [reflexivity |]. intros j x H. discriminate.
  - destruct (Qltb a bv) eqn:E; qbool.
    + destruct (IH i a (S i)) as [[Hk Hmin]|(j & xk & Hk & Hj & Hlt & Hmin & Hfirst)].
      * right. exists O, a. rewrite Hk.
        split; [lia |]. split; [reflexivity |]. split; [exact E |].
        split; [| intros; lia].
        intros [|j'] x Hx; simpl in Hx; [injection Hx as <-; lra | eauto].
      * right. exists (S j), xk. rewrite Hk.
        split; [lia |]. split; [exact Hj |]. split; [lra |].
        split.
        -- intros [|j'] x Hx; simpl in Hx; [injection Hx as <-; lra | eauto].
        -- intros [|j'] x Hlt' Hx; simpl in Hx;
             [injection Hx as <-; lra | apply (Hfirst j'); [lia | exact Hx]].
    + destruct (IH best bv (S i)) as [[Hk Hmin]|(j & xk & Hk & Hj & Hlt & Hmin & Hfirst)].
      * left. split; [exact Hk |].
        intros [|j'] x Hx; simpl in Hx; [injection Hx as <-; lra | eauto].
      * right. exists (S j), xk. rewrite Hk.
        split; [lia |]. split; [exact Hj |]. split; [exact Hlt |].
        split.
        -- intros [|j'] x Hx; simpl in Hx; [injection Hx as <-; lra | eauto].
        -- intros [|j'] x Hlt' Hx; simpl in Hx;
             [injection Hx as <-; lra | apply (Hfirst j'); [lia | exact Hx]].
Qed.

Lemma argmin_first_min (l : list Q) (k : nat) :
  argmin l = Ok k → first_min l k.
Proof.
  destruct l as [|a l]; simpl; [discriminate |].
  intros [= <-].
  destruct (argmin_from_spec l 0 a 1) as [[Hk Hmin]|(j & xk & Hk & Hj & Hlt & Hmin & Hfirst)];
    rewrite Hk.
  - exists a. split; [reflexivity |]. split.
    + intros [|j] x Hx; simpl in Hx; [injection Hx as <-; lra | eauto].
    + intros; lia.
  - exists xk. split; [exact Hj |]. split.
    + intros [|j'] x Hx; simpl in Hx; [injection Hx as <-; lra | eauto].
    + intros [|j'] x Hlt' Hx; simpl in Hx;
        [injection Hx as <-; lra | apply (Hfirst j'); [lia | exact Hx]].
Qed.

Lemma argmin_total (l : list Q) : l ≠ [] → ∃ k, argmin l = Ok k.
Proof. destruct l; [congruence | intros _; eexists; reflexivity]. Qed.

Lemma first_min_unique (l : list Q) (k k' : nat) :
  first_min l k → first_min l k' → k = k'.
Proof.
  intros (x & Hx & Hmin & Hfirst) (x' & Hx' & Hmin' & Hfirst').
  destruct (lt_eq_lt_dec k k') as [[H|H]|H]; [| exact H |].
  - pose proof (Hfirst' _ _ H Hx). pose proof (Hmin _ _ Hx'). lra.
  - pose proof (Hfirst _ _ H Hx'). pose proof (Hmin' _ _ Hx). lra.
Qed.

(** ** Sorted axes and the insertion point *)

Lemma nondecreasing_cons (x : Q) (r : list Q) :
  nondecreasing (x :: r) = true →
  nondecreasing r = true ∧ ∀ j y, r !! j = Some y → x <= y.
Proof.
  revert x. induction r as [|y r IH]; intros x H.
  - split; [reflexivity |]. intros j z Hz. discriminate.
  - change (Qle_bool 0 (y - x) && nondecreasing (y :: r) = true) in H.
    apply andb_true_iff in H as [Hxy Hr]. qbool.
    split; [exact Hr |].
    destruct (IH y Hr) as [_ Hy].
    intros [|j] z Hz; simpl in Hz.
    + injection Hz as <-. lra.
    + pose proof (Hy j z Hz). lra.
Qed.

Lemma nondecreasing_le (arr : list Q) :
  nondecreasing arr = true →
  ∀ i j x y, (i <= j)%nat → arr !! i = Some x → arr !! j = Some y → x <= y.
Proof.
  induction arr as [|a arr IH]; intros Hs i j x y Hij Hi Hj; [discriminate |].
  apply nondecreasing_cons in Hs as [Hs Ha].
  destruct i as [|i], j as [|j]; simpl in Hi, Hj.
  - injection Hi as <-. injection Hj as <-. lra.
  - injection Hi as <-. eauto.
  - lia.
  - eapply (IH Hs i j); [lia | exact Hi | exact Hj].
Qed.

Lemma searchsorted_le_length (arr : list Q) (v : Q) :
  (searchsorted arr v <= length arr)%nat.
Proof.
  induction arr as [|a arr IH]; simpl; [lia |].
  destruct (Qltb a v); simpl; lia.
Qed.

Lemma searchsorted_below (arr : list Q) (v : Q) :
  ∀ j x, (j < searchsorted arr v)%nat → arr !! j = Some x → x < v.
Proof.
  induction arr as [|a arr IH]; simpl; intros j x Hj Hx; [lia |].
  destruct (Qltb a v) eqn:E; [| lia]. qbool.
  destruct j as [|j]; simpl in Hx.
  - injection Hx as <-. exact E.
  - apply (IH j); [lia | exact Hx].
Qed.

Lemma searchsorted_at (arr : list Q) (v : Q) :
  ∀ x, arr !! searchsorted arr v = Some x → v <= x.
Proof.
  induction arr as [|a arr IH]; simpl; intros x Hx; [discriminate |].
  destruct (Qltb a v) eqn:E; simpl in Hx; qbool.
  - apply IH, Hx.
  - injection Hx as <-. exact E.
Qed.

Lemma searchsorted_above (arr : list Q) (v : Q) :
  nondecreasing arr = true →
  ∀ j x, (searchsorted arr v <= j)%nat → arr !! j = Some x → v <= x.
Proof.
  intros Hs j x Hj Hx.
  destruct (arr !! searchsorted arr v) as [y|] eqn:Hy.
  - pose proof (searchsorted_at _ _ _ Hy).
    pose proof (nondecreasing_le _ Hs _ _ _ _ Hj Hy Hx). lra.
  - apply lookup_ge_None in Hy. apply lookup_lt_Some in Hx. lia.
Qed.

(** ** The two paths of [nearest_index] *)

(** The fast path returns an index of a nearest axis value; every earlier
    index is strictly farther or holds the same axis value. *)
Lemma nearest_fast_spec (arr : list Q) (v : Q) :
  nondecreasing arr = true → arr ≠ [] →
  ∃ f af, nearest_fast arr v = Ok f ∧ arr !! f = Some af
    ∧ (∀ j x, arr !! j = Some x → Qabs (af - v) <= Qabs (x - v))
    ∧ (∀ j x, (j < f)%nat → arr !! j = Some x →
         Qabs (af - v) < Qabs (x - v) ∨ x == af).
Proof.
  intros Hs Hne. unfold nearest_fast.
  pose proof (searchsorted_le_length arr v) as Hlen.
  pose proof (searchsorted_below arr v) as Hbelow.
  pose proof (searchsorted_above arr v Hs) as Habove.
  set (i := searchsorted arr v) in *.
  destruct (Nat.eqb_spec i 0) as [Hi0|Hi0].
  - destruct arr as [|a arr]; [congruence |].
    exists O, a. split; [reflexivity |]. split; [reflexivity |]. split.
    + intros j x Hx.
      assert (v <= x) by (apply (Habove j); [lia | exact Hx]).
      assert (v <= a) by (apply (Habove O); [lia | reflexivity]).
      pose proof (nondecreasing_le _ Hs O j a x ltac:(lia) eq_refl Hx).
      qabs (a - v); qabs (x - v); lra.
    + intros; lia.
  - destruct (Nat.leb_spec (length arr) i) as [Hge|Hlt].
    + assert (Hf : (length arr - 1 < length arr)%nat)
        by (destruct arr; [congruence | simpl; lia]).
      apply lookup_lt_is_Some in Hf as [af Haf].
      exists (length arr - 1)%nat, af.
      split; [reflexivity |]. split; [exact Haf |].
      assert (Hall : ∀ j x, arr !! j = Some x → x < v ∧ x <= af).
      { intros j x Hx. pose proof (lookup_lt_Some _ _ _ Hx). split.
        - apply (Hbelow j); [lia | exact Hx].
        - apply (nondecreasing_le _ Hs j (length arr - 1)%nat); [lia | exact Hx | exact Haf]. }
      pose proof (Hall _ _ Haf) as [Hafv _].
      split.
      * intros j x Hx. destruct (Hall _ _ Hx).
        qabs (af - v); qabs (x - v); lra.
      * intros j x _ Hx. destruct (Hall _ _ Hx).
        destruct (Qlt_le_dec x af); [left | right; lra].
        qabs (af - v); qabs (x - v); lra.
    + destruct (lookup_lt_is_Some_2 arr i Hlt) as [a_i Hai].
      destruct (lookup_lt_is_Some_2 arr (i - 1)%nat ltac:(lia)) as [a_p Hap].
      unfold index. rewrite Hai, Hap. cbn [rbind].
      assert (Hpv : a_p < v) by (apply (Hbelow (i - 1)%nat); [lia | exact Hap]).
      assert (Hiv : v <= a_i) by (apply (Habove i); [lia | exact Hai]).
      assert (Hlow : ∀ j x, (j < i)%nat → arr !! j = Some x → x < v ∧ x <= a_p).
      { intros j x Hj Hx. split.
        - apply (Hbelow j); [lia | exact Hx].
        - apply (nondecreasing_le _ Hs j (i - 1)%nat); [lia | exact Hx | exact Hap]. }
      assert (Hhigh : ∀ j x, (i <= j)%nat → arr !! j = Some x → a_i <= x).
      { intros j x Hj Hx.
        apply (nondecreasing_le _ Hs i j); [lia | exact Hai | exact Hx]. }
      destruct (Qltb (Qabs (a_i - v)) (Qabs (a_p - v))) eqn:E; qbool.
      * exists i, a_i. split; [reflexivity |]. split; [exact Hai |].
        split.
        -- intros j x Hx. destruct (le_lt_dec i j) as [Hj|Hj].
           ++ pose proof (Hhigh _ _ Hj Hx).
              qabs (a_i - v); qabs (x - v); lra.
           ++ destruct (Hlow _ _ Hj Hx).
              qabs (a_i - v); qabs (a_p - v); qabs (x - v); lra.
        -- intros j x Hj Hx. left. destruct (Hlow _ _ Hj Hx).
           qabs (a_i - v); qabs (a_p - v); qabs (x - v); lra.
      * exists (i - 1)%nat, a_p. split; [reflexivity |]. split; [exact Hap |].
        split.
        -- intros j x Hx. destruct (le_lt_dec i j) as [Hj|Hj].
           ++ pose proof (Hhigh _ _ Hj Hx).
              qabs (a_i - v); qabs (a_p - v); qabs (x - v); lra.
           ++ destruct (Hlow _ _ Hj Hx).
              qabs (a_p - v); qabs (x - v); lra.
        -- intros j x Hj Hx. destruct (Hlow j x ltac:(lia) Hx).
           destruct (Qlt_le_dec x a_p); [left | right; lra].
           qabs (a_p - v); qabs (x - v); lra.
Qed.

(** The linear scan returns the first index of a nearest axis value. *)
Lemma nearest_linear_spec (arr : list Q) (v : Q) (k : nat) :
  nearest_linear arr v = Ok k →
  ∃ ak, arr !! k = Some ak
    ∧ (∀ j x, arr !! j = Some x → Qabs (ak - v) <= Qabs (x - v))
    ∧ (∀ j x, (j < k)%nat → arr !! j = Some x → Qabs (ak - v) < Qabs (x - v)).
Proof.
  intros H. apply argmin_first_min in H as (d & Hd & Hmin & Hfirst).
  rewrite list_lookup_fmap in Hd.
  destruct (arr !! k) as [ak|] eqn:Hak; [| discriminate].
  injection Hd as <-. exists ak. split; [reflexivity |]. split.
  - intros j x Hx. apply (Hmin j). rewrite list_lookup_fmap, Hx. reflexivity.
  - intros j x Hj Hx. apply (Hfirst j); [exact Hj |].
    rewrite list_lookup_fmap, Hx. reflexivity.
Qed.

Lemma nearest_linear_total (arr : list Q) (v : Q) :
  arr ≠ [] → ∃ k, nearest_linear arr v = Ok k.
Proof.
  intros H. apply argmin_total. destruct arr; [congruence | discriminate].
Qed.

Lemma nearest_index_fast (arr : list Q) (v : Q) :
  nondecreasing arr = true → arr ≠ [] →
  nearest_index arr v = nearest_fast arr v.
Proof.
  intros Hs Hne. unfold nearest_index. rewrite Hs.
  destruct (nearest_fast_spec arr v Hs Hne) as (f & af & -> & _). reflexivity.
Qed.

Lemma nearest_index_linear (arr : list Q) (v : Q) :
  nondecreasing arr = false →
  nearest_index arr v = nearest_linear arr v.
Proof.
  intros Hs. unfold nearest_index. rewrite Hs.
  destruct (nearest_linear arr v); reflexivity.
Qed.

Lemma nearest_index_spec (arr : list Q) (v : Q) :
  arr ≠ [] →
  ∃ i ai, nearest_index arr v = Ok i ∧ arr !! i = Some ai
          ∧ nearest_value arr v ai.
Proof.
  intros Hne. destruct (nondecreasing arr) eqn:Hs.
  - rewrite (nearest_index_fast _ _ Hs Hne).
    destruct (nearest_fast_spec arr v Hs Hne) as (f & af & Hf & Haf & Hmin & _).
    exists f, af. auto.
  - rewrite (nearest_index_linear _ _ Hs).
    destruct (nearest_linear_total arr v Hne) as [k Hk].
    destruct (nearest_linear_spec _ _ _ Hk) as (ak & Hak & Hmin & _).
    exists k, ak. auto.
Qed.

Lemma searchsorted_all_below (arr : list Q) (v : Q) :
  (∀ j x, arr !! j = Some x → x < v) → searchsorted arr v = length arr.
Proof.
  induction arr as [|a arr IH]; intros H; simpl; [reflexivity |].
  pose proof (H O a eq_refl) as Ha. apply Qltb_lt in Ha. rewrite Ha.
  f_equal. apply IH. intros j x Hx. apply (H (S j)). exact Hx.
Qed.

(** ** C4: fast path against the linear scan *)




(** ** C10: totality and bounds of the nearest-index lookup *)

(** C10: on every non-empty axis [nearest_index] returns (it does not
    raise) an index within [0, length - 1], and the axis value there is a
    nearest one.  A query at or below every axis value therefore lands on a
    position holding the axis minimum, a query at or above every axis value
    on a position holding the maximum; on a non-decreasing axis these are
    index 0 for a query below the first value and the last index for a query
    above the last value. *)
Theorem C10_nearest_index_total_in_bounds (arr : list Q) (v : Q) :
  arr ≠ [] →
  ∃ i ai,
    nearest_index arr v = Ok i ∧ (i < length arr)%nat ∧ arr !! i = Some ai
    ∧ nearest_value arr v ai
    ∧ ((∀ j x, arr !! j = Some x → v <= x) → ∀ j x, arr !! j = Some x → ai <= x)
    ∧ ((∀ j x, arr !! j = Some x → x <= v) → ∀ j x, arr !! j = Some x → x <= ai)
    ∧ (nondecreasing arr = true →
         (∀ x, arr !! O = Some x → v < x → i = O)
         ∧ (∀ x, arr !! (length arr - 1)%nat = Some x → x < v →
              i = (length arr - 1)%nat)).
Proof.
  intros Hne.
  destruct (nearest_index_spec arr v Hne) as (i & ai & Hi & Hai & Hmin).
  exists i, ai. split; [exact Hi |].
  split; [eapply lookup_lt_Some; exact Hai |].
  split; [exact Hai |]. split; [exact Hmin |].
  split; [| split].
  - intros Hlow j x Hx. pose proof (Hmin _ _ Hx).
    pose proof (Hlow _ _ Hx). pose proof (Hlow _ _ Hai).
    qabs (ai - v); qabs (x - v); lra.
  - intros Hhigh j x Hx. pose proof (Hmin _ _ Hx).
    pose proof (Hhigh _ _ Hx). pose proof (Hhigh _ _ Hai).
    qabs (ai - v); qabs (x - v); lra.
  - intros Hs. rewrite (nearest_index_fast _ _ Hs Hne) in Hi.
    unfold nearest_fast in Hi. split.
    + intros x Hx Hv.
      assert (E : searchsorted arr v = O).
      { destruct arr as [|a arr]; [reflexivity |]. simpl in Hx. injection Hx as ->.
        simpl. destruct (Qltb x v) eqn:E; [qbool; lra | reflexivity]. }
      rewrite E in Hi. simpl in Hi. congruence.
    + intros x Hx Hv.
      assert (E : searchsorted arr v = length arr).
      { apply searchsorted_all_below. intros j y Hy.
        pose proof (lookup_lt_Some _ _ _ Hy).
        pose proof (nondecreasing_le _ Hs j (length arr - 1)%nat y x ltac:(lia) Hy Hx).
        lra. }
      rewrite E in Hi.
      destruct (Nat.eqb_spec (length arr) 0) as [H0|H0].
      * destruct arr; [congruence | discriminate].
      * rewrite Nat.leb_refl in Hi. congruence.
Qed.

Lemma C10_nearest_index_witness :
  ∃ i ai,
    nearest_index [10; 20; 30] 500 = Ok i ∧ (i < length [10; 20; 30])%nat
    ∧ [10; 20; 30] !! i = Some ai
    ∧ nearest_value [10; 20; 30] 500 ai
    ∧ ((∀ j x, [10; 20; 30] !! j = Some x → 500 <= x) →
         ∀ j x, [10; 20; 30] !! j = Some x → ai <= x)
    ∧ ((∀ j x, [10; 20; 30] !! j = Some x → x <= 500) →
         ∀ j x, [10; 20; 30] !! j = Some x → x <= ai)
    ∧ (nondecreasing [10; 20; 30] = true →
         (∀ x, [10; 20; 30] !! O = Some x → 500 < x → i = O)
         ∧ (∀ x, [10; 20; 30] !! (length [10; 20; 30] - 1)%nat = Some x → x < 500 →
              i = (length [10; 20; 30] - 1)%nat)).
Proof.
  apply (C10_nearest_index_total_in_bounds [10; 20; 30] 500). discriminate.
Defined.

(** ** Python's modulo by 360 *)

Lemma pymod_360_range (x : Q) : 0 <= pymod x 360 ∧ pymod x 360 < 360.
Proof.
  unfold pymod.
  pose proof (Qfloor_le (x / 360)) as Hlo.
  pose proof (Qlt_floor (x / 360)) as Hhi.
  rewrite inject_Z_plus in Hhi.
  change (inject_Z 1) with 1 in Hhi.
  set (f := inject_Z (Qfloor (x / 360))) in *.
  assert (E : x / 360 == x * (1 # 360)) by reflexivity.
  rewrite E in Hlo, Hhi.
  split; lra.
Qed.

Lemma pymod_360_congr (x : Q) : ∃ k : Z, pymod x 360 == x + 360 * inject_Z k.
Proof.
  exists (- Qfloor (x / 360))%Z. unfold pymod.
  rewrite inject_Z_opp. lra.
Qed.

Lemma lon_to_360_range (lon : Q) : 0 <= lon_to_360 lon ∧ lon_to_360 lon < 360.
Proof. apply pymod_360_range. Qed.

Lemma lon_to_180_range (lon : Q) : -180 <= lon_to_180 lon ∧ lon_to_180 lon < 180.
Proof.
  unfold lon_to_180. pose proof (pymod_360_range (lon + 180)). lra.
Qed.

Lemma lon_to_360_congr (lon : Q) : ∃ k : Z, lon_to_360 lon == lon + 360 * inject_Z k.
Proof. apply pymod_360_congr. Qed.

Lemma lon_to_180_congr (lon : Q) : ∃ k : Z, lon_to_180 lon == lon + 360 * inject_Z k.
Proof.
  unfold lon_to_180. destruct (pymod_360_congr (lon + 180)) as [k Hk].
  exists k. lra.
Qed.

(** ** Extent of an axis *)

Lemma foldl_min_spec (r : list Q) (x : Q) :
  let m := foldl (fun m y => if Qltb y m then y else m) x r in
  m ∈ x :: r ∧ ∀ y, y ∈ x :: r → m <= y.
Proof.
  revert x. induction r as [|a r IH]; intros x; simpl.
  - split; [left |]. intros y Hy. apply list_elem_of_singleton in Hy as ->. lra.
  - destruct (IH (if Qltb a x then a else x)) as [Hin Hle].
    split.
    + apply elem_of_cons in Hin as [Hin|Hin].
      * rewrite Hin. destruct (Qltb a x); [right; left | left].
      * right; right; exact Hin.
    + intros y Hy.
      assert (Hm : ∀ z, z ∈ (if Qltb a x then a else x) :: r →
                        foldl (fun m y => if Qltb y m then y else m)
                              (if Qltb a x then a else x) r <= z) by exact Hle.
      pose proof (Hm _ ltac:(left)) as H0.
      apply elem_of_cons in Hy as [->|Hy].
      * destruct (Qltb a x) eqn:E; qbool; lra.
      * apply elem_of_cons in Hy as [->|Hy].
        -- destruct (Qltb a x) eqn:E; qbool; lra.
        -- apply Hm. right; exact Hy.
Qed.

Lemma foldl_max_spec (r : list Q) (x : Q) :
  let m := foldl (fun m y => if Qltb m y then y else m) x r in
  m ∈ x :: r ∧ ∀ y, y ∈ x :: r → y <= m.
Proof.
  revert x. induction r as [|a r IH]; intros x; simpl.
  - split; [left |]. intros y Hy. apply list_elem_of_singleton in Hy as ->. lra.
  - destruct (IH (if Qltb x a then a else x)) as [Hin Hle].
    split.
    + apply elem_of_cons in Hin as [Hin|Hin].
      * rewrite Hin. destruct (Qltb x a); [right; left | left].
      * right; right; exact Hin.
    + intros y Hy.
      assert (Hm : ∀ z, z ∈ (if Qltb x a then a else x) :: r →
                        z <= foldl (fun m y => if Qltb m y then y else m)
                                   (if Qltb x a then a else x) r) by exact Hle.
      pose proof (Hm _ ltac:(left)) as H0.
      apply elem_of_cons in Hy as [->|Hy].
      * destruct (Qltb x a) eqn:E; qbool; lra.
      * apply elem_of_cons in Hy as [->|Hy].
        -- destruct (Qltb x a) eqn:E; qbool; lra.
        -- apply Hm. right; exact Hy.
Qed.

Lemma nanmin_spec (vals : list Q) :
  vals ≠ [] → ∃ m, nanmin vals = Ok m ∧ m ∈ vals ∧ ∀ y, y ∈ vals → m <= y.
Proof.
  destruct vals as [|x r]; [congruence | intros _].
  eexists. split; [reflexivity |]. apply foldl_min_spec.
Qed.

Lemma nanmax_spec (vals : list Q) :
  vals ≠ [] → ∃ m, nanmax vals = Ok m ∧ m ∈ vals ∧ ∀ y, y ∈ vals → y <= m.
Proof.
  destruct vals as [|x r]; [congruence | intros _].
  eexists. split; [reflexivity |]. apply foldl_max_spec.
Qed.

(** The axis is unsigned: no value below 0 and some value above 180. *)
Lemma adapt_query_lon_unsigned (lon_vals : list Q) (qlon : Q) :
  (∀ x, x ∈ lon_vals → 0 <= x) → (∃ x, x ∈ lon_vals ∧ 180 < x) →
  adapt_query_lon lon_vals qlon = Ok (lon_to_360 qlon).
Proof.
  intros Hpos (x & Hx & Hbig).
  assert (Hne : lon_vals ≠ []) by (intros ->; inversion Hx).
  unfold adapt_query_lon.
  destruct (nanmin_spec _ Hne) as (lo & -> & Hlo & _).
  destruct (nanmax_spec _ Hne) as (hi & -> & _ & Hhi).
  cbn [rbind].
  pose proof (Hpos _ Hlo) as H0. apply Qle_bool_iff in H0. rewrite H0.
  pose proof (Hhi _ Hx) as H1.
  assert (H2 : 180 < hi) by lra. apply Qltb_lt in H2. rewrite H2. reflexivity.
Qed.

Lemma adapt_query_lon_signed (lon_vals : list Q) (qlon : Q) :
  lon_vals ≠ [] →
  ¬ ((∀ x, x ∈ lon_vals → 0 <= x) ∧ (∃ x, x ∈ lon_vals ∧ 180 < x)) →
  adapt_query_lon lon_vals qlon = Ok (lon_to_180 qlon).
Proof.
  intros Hne Hnot. unfold adapt_query_lon.
  destruct (nanmin_spec _ Hne) as (lo & -> & Hlo & Hlo').
  destruct (nanmax_spec _ Hne) as (hi & -> & Hhi & Hhi').
  cbn [rbind].
  destruct (Qle_bool 0 lo) eqn:E0; [| reflexivity].
  destruct (Qltb 180 hi) eqn:E1; [| reflexivity].
  qbool. exfalso. apply Hnot. split.
  - intros x Hx. pose proof (Hlo' _ Hx). lra.
  - exists hi. split; [exact Hhi | exact E1].
Qed.

(** ** C5: longitude-domain adaptation *)

(** C5: on an axis with at least one value, a query longitude is mapped by
    [lon_to_360] (result in [0, 360), same longitude modulo 360) when no
    axis value is below 0 and some axis value exceeds 180, and by
    [lon_to_180] (result in [-180, 180)) otherwise; on an axis spanning
    [0, 359.75] the query -170 becomes 190.  In [process_row] the raw
    longitude of the sample is used only through the adapted query: two
    samples of equal latitude whose adapted queries coincide get the same
    indices, the same distances and the same result. *)
Theorem C5_longitude_domain_adaptation (lon_vals : list Q) (qlon : Q) :
  lon_vals ≠ [] →
  ((∀ x, x ∈ lon_vals → 0 <= x) ∧ (∃ x, x ∈ lon_vals ∧ 180 < x) →
     adapt_query_lon lon_vals qlon = Ok (lon_to_360 qlon))
  ∧ (¬ ((∀ x, x ∈ lon_vals → 0 <= x) ∧ (∃ x, x ∈ lon_vals ∧ 180 < x)) →
       adapt_query_lon lon_vals qlon = Ok (lon_to_180 qlon))
  ∧ (0 <= lon_to_360 qlon ∧ lon_to_360 qlon < 360
     ∧ ∃ k : Z, lon_to_360 qlon == qlon + 360 * inject_Z k)
  ∧ (-180 <= lon_to_180 qlon ∧ lon_to_180 qlon < 180
     ∧ ∃ k : Z, lon_to_180 qlon == qlon + 360 * inject_Z k)
  ∧ ((∀ x, x ∈ lon_vals → 0 <= x ∧ x <= 35975 # 100) →
     (35975 # 100) ∈ lon_vals →
     ∃ q, adapt_query_lon lon_vals (-170) = Ok q ∧ q == 190)
  ∧ (∀ ds lat_vals time_index var_names tol ridx s s',
       s_lat s = s_lat s' →
       adapt_query_lon lon_vals (s_lon s) = adapt_query_lon lon_vals (s_lon s') →
       process_row ds lat_vals lon_vals time_index var_names tol (ridx, s)
       = process_row ds lat_vals lon_vals time_index var_names tol (ridx, s')).
Proof.
  intros Hne.
  split; [intros [H1 H2]; apply adapt_query_lon_unsigned; assumption |].
  split; [intros H; apply adapt_query_lon_signed; assumption |].
  split; [pose proof (lon_to_360_range qlon) as [? ?];
          pose proof (lon_to_360_congr qlon); auto |].
  split; [pose proof (lon_to_180_range qlon) as [? ?];
          pose proof (lon_to_180_congr qlon); auto |].
  split.
  - intros Hspan Hmax. exists (lon_to_360 (-170)). split.
    + apply adapt_query_lon_unsigned.
      * intros x Hx. apply Hspan, Hx.
      * exists (35975 # 100). split; [exact Hmax | reflexivity].
    + reflexivity.
  - intros ds lat_vals time_index var_names tol ridx s s' Hlat Hlon.
    unfold process_row. cbn [fst snd]. rewrite Hlat, Hlon. reflexivity.
Qed.

Lemma C5_longitude_domain_adaptation_witness :
  ((∀ x, x ∈ [0; 190; 35975 # 100] → 0 <= x)
   ∧ (∃ x, x ∈ [0; 190; 35975 # 100] ∧ 180 < x) →
     adapt_query_lon [0; 190; 35975 # 100] (-170) = Ok (lon_to_360 (-170)))
  ∧ (¬ ((∀ x, x ∈ [0; 190; 35975 # 100] → 0 <= x)
        ∧ (∃ x, x ∈ [0; 190; 35975 # 100] ∧ 180 < x)) →
       adapt_query_lon [0; 190; 35975 # 100] (-170) = Ok (lon_to_180 (-170)))
  ∧ (0 <= lon_to_360 (-170) ∧ lon_to_360 (-170) < 360
     ∧ ∃ k : Z, lon_to_360 (-170) == -170 + 360 * inject_Z k)
  ∧ (-180 <= lon_to_180 (-170) ∧ lon_to_180 (-170) < 180
     ∧ ∃ k : Z, lon_to_180 (-170) == -170 + 360 * inject_Z k)
  ∧ ((∀ x, x ∈ [0; 190; 35975 # 100] → 0 <= x ∧ x <= 35975 # 100) →
     (35975 # 100) ∈ [0; 190; 35975 # 100] →
     ∃ q, adapt_query_lon [0; 190; 35975 # 100] (-170) = Ok q ∧ q == 190)
  ∧ (∀ ds lat_vals time_index var_names tol ridx s s',
       s_lat s = s_lat s' →
       adapt_query_lon [0; 190; 35975 # 100] (s_lon s)
       = adapt_query_lon [0; 190; 35975 # 100] (s_lon s') →
       process_row ds lat_vals [0; 190; 35975 # 100] time_index var_names tol (ridx, s)
       = process_row ds lat_vals [0; 190; 35975 # 100] time_index var_names tol (ridx, s')).
Proof.
  apply (C5_longitude_domain_adaptation [0; 190; 35975 # 100] (-170)).
  discriminate.
Defined.

(** The adapted query decides the cell: on the unsigned axis
    [0; 190; 359.75] the sample longitude -170 lands on index 1 at distance
    0, where the raw longitude would be nearest to index 0. *)
Example adapted_query_picks_the_cell :
  (qlon ←r adapt_query_lon [0; 190; 35975 # 100] (-170);
   nearest_index [0; 190; 35975 # 100] qlon) = Ok 1%nat
  ∧ nearest_index [0; 190; 35975 # 100] (-170) = Ok 0%nat.
Proof. split; reflexivity. Qed.

(** ** Result dictionaries *)

Lemma foldl_insert_lookup {V : Type} (f : string → V) (vars : list string)
    (acc : gmap string V) (k : string) :
  foldl (fun res v => <[v := f v]> res) acc vars !! k
  = if decide (k ∈ vars) then Some (f k) else acc !! k.
Proof.
  revert acc. induction vars as [|v vars IH]; intros acc; simpl.
  - destruct (decide (k ∈ [])) as [H|H]; [inversion H | reflexivity].
  - rewrite IH.
    destruct (decide (k ∈ vars)) as [Hin|Hnin].
    + rewrite decide_True by (right; exact Hin). reflexivity.
    + destruct (decide (k = v)) as [->|Hne].
      * rewrite decide_True by left. rewrite lookup_insert_eq. reflexivity.
      * rewrite lookup_insert_ne by congruence.
        rewrite decide_False; [reflexivity |].
        intros H. apply elem_of_cons in H as [H|H]; congruence.
Qed.

Lemma fill_nan_lookup (var_names : list string) (v : string) :
  fill_nan var_names !! v = if decide (v ∈ var_names) then Some NaN else None.
Proof.
  unfold fill_nan. rewrite (foldl_insert_lookup (fun _ => NaN)).
  rewrite lookup_empty. reflexivity.
Qed.

Lemma extract_vars_lookup (ds : Dataset) (ilat ilon : nat) (ti : option nat)
    (var_names : list string) (v : string) :
  extract_vars ds ilat ilon ti var_names !! v
  = if decide (v ∈ var_names) then Some (extract_var ds ilat ilon ti v) else None.
Proof.
  unfold extract_vars. rewrite (foldl_insert_lookup (extract_var ds ilat ilon ti)).
  rewrite lookup_empty. reflexivity.
Qed.

(** ** The tolerance gate *)

Lemma out_of_tolerance_false (dlat dlon tol : Q) :
  out_of_tolerance dlat dlon tol = false ↔ dlat <= tol ∧ dlon <= tol.
Proof.
  unfold out_of_tolerance. rewrite orb_false_iff, !Qltb_ge. reflexivity.
Qed.

Lemma out_of_tolerance_true (dlat dlon tol : Q) :
  out_of_tolerance dlat dlon tol = true ↔ tol < dlat ∨ tol < dlon.
Proof.
  unfold out_of_tolerance. rewrite orb_true_iff, !Qltb_lt. reflexivity.
Qed.

(** The circular difference is the absolute value of the representative of
    the raw difference in [-180, 180). *)
Lemma lon_difference_wrap (nearest_lon qlon : Q) :
  ∃ k : Z,
    let w := nearest_lon - qlon + 360 * inject_Z k in
    -180 <= w ∧ w < 180 ∧ lon_difference nearest_lon qlon == Qabs w.
Proof.
  destruct (pymod_360_congr (nearest_lon - qlon + 180)) as [k Hk].
  pose proof (pymod_360_range (nearest_lon - qlon + 180)) as [Hlo Hhi].
  exists k. cbv zeta. unfold lon_difference.
  split; [lra |]. split; [lra |].
  apply Qabs_wd. lra.
Qed.

(** The axes being non-empty, a row always resolves to a cell. *)
Lemma process_row_resolves (lat_vals lon_vals : list Q) (lat lon : Q) :
  lat_vals ≠ [] → lon_vals ≠ [] →
  ∃ qlon ilat ilon nearest_lat nearest_lon,
    adapt_query_lon lon_vals lon = Ok qlon
    ∧ nearest_index lat_vals lat = Ok ilat
    ∧ nearest_index lon_vals qlon = Ok ilon
    ∧ lat_vals !! ilat = Some nearest_lat
    ∧ lon_vals !! ilon = Some nearest_lon.
Proof.
  intros Hlat Hlon.
  assert (∃ qlon, adapt_query_lon lon_vals lon = Ok qlon) as [qlon Hq].
  { unfold adapt_query_lon.
    destruct (nanmin_spec _ Hlon) as (lo & -> & _).
    destruct (nanmax_spec _ Hlon) as (hi & -> & _).
    cbn [rbind]. destruct (Qle_bool 0 lo), (Qltb 180 hi); eauto. }
  destruct (nearest_index_spec lat_vals lat Hlat) as (ilat & nlat & Hi & Hv & _).
  destruct (nearest_index_spec lon_vals qlon Hlon) as (ilon & nlon & Hj & Hw & _).
  exists qlon, ilat, ilon, nlat, nlon. auto.
Qed.

Lemma process_row_eq (ds : Dataset) (lat_vals lon_vals : list Q)
    (ti : option nat) (var_names : list string) (tol : Q) (ridx : nat)
    (s : Sample) (qlon : Q) (ilat ilon : nat) (nearest_lat nearest_lon : Q) :
  adapt_query_lon lon_vals (s_lon s) = Ok qlon →
  nearest_index lat_vals (s_lat s) = Ok ilat →
  nearest_index lon_vals qlon = Ok ilon →
  lat_vals !! ilat = Some nearest_lat →
  lon_vals !! ilon = Some nearest_lon →
  process_row ds lat_vals lon_vals ti var_names tol (ridx, s)
  = Ok (ridx,
        if out_of_tolerance (lat_difference nearest_lat (s_lat s))
                            (lon_difference nearest_lon qlon) tol
        then fill_nan var_names
        else extract_vars ds ilat ilon ti var_names).
Proof.
  intros Hq Hi Hj Hv Hw. unfold process_row, index. cbn [fst snd].
  rewrite Hq. cbn [rbind]. rewrite Hi. cbn [rbind]. rewrite Hj. cbn [rbind].
  rewrite Hv, Hw. cbn [rbind].
  destruct (out_of_tolerance _ _ _); reflexivity.
Qed.

(** ** The order of doubles *)

Lemma SFcompare_antisym (x y : F64.float) :
  SpecFloat.SFcompare y x = option_map CompOpp (SpecFloat.SFcompare x y).
Proof.
  destruct x as [sx|sx| |sx mx ex], y as [sy|sy| |sy my ey]; cbn;
    try reflexivity;
    try (destruct sx; reflexivity); try (destruct sy; reflexivity);
    try (destruct sx, sy; reflexivity).
  rewrite (Z.compare_antisym ey ex).
  change (Pos.compare_cont Eq mx my) with (Pos.compare mx my).
  change (Pos.compare_cont Eq my mx) with (Pos.compare my mx).
  rewrite (Pos.compare_antisym my mx).
  destruct sx, sy; cbn; try reflexivity;
    destruct (ey ?= ex)%Z; cbn; try reflexivity;
    destruct (my ?= mx)%positive; reflexivity.
Qed.

Lemma SFcompare_nan (x y : F64.float) :
  SpecFloat.SFcompare x y = None ↔ F64.is_nan x = true ∨ F64.is_nan y = true.
Proof.
  destruct x as [sx|sx| |sx mx ex], y as [sy|sy| |sy my ey]; cbn;
    intuition discriminate.
Qed.

Lemma SFcompare_refl (x : F64.float) :
  F64.is_nan x = false → SpecFloat.SFcompare x x = Some Eq.
Proof.
  destruct x as [sx|sx| |sx mx ex]; cbn; intros H; try discriminate;
    try reflexivity; try (destruct sx; reflexivity).
  rewrite Z.compare_refl.
  change (Pos.compare_cont Eq mx mx) with (Pos.compare mx mx).
  rewrite Pos.compare_refl. destruct sx; reflexivity.
Qed.

(** Among numbers, "not above" is "at most". *)
Lemma F64_not_ltb_leb (x y : F64.float) :
  F64.is_nan x = false → F64.is_nan y = false →
  F64.ltb y x = false ↔ F64.leb x y = true.
Proof.
  intros Hx Hy. unfold F64.ltb, F64.leb, SpecFloat.SFltb, SpecFloat.SFleb.
  rewrite (SFcompare_antisym x y).
  destruct (SpecFloat.SFcompare x y) as [[| |]|] eqn:E; cbn;
    try (split; (reflexivity || discriminate)).
  apply SFcompare_nan in E. destruct E; congruence.
Qed.

(** A comparison with NaN is false. *)
Lemma F64_ltb_nan (x y : F64.float) :
  F64.is_nan x = true ∨ F64.is_nan y = true →
  F64.ltb x y = false ∧ F64.leb x y = false.
Proof.
  intros H. apply SFcompare_nan in H.
  unfold F64.ltb, F64.leb, SpecFloat.SFltb, SpecFloat.SFleb. rewrite H. auto.
Qed.

Lemma F64_out_of_tolerance_false (dlat dlon t : F64.float) :
  F64.is_nan dlat = false → F64.is_nan dlon = false → F64.is_nan t = false →
  F64.out_of_tolerance dlat dlon t = false
  ↔ F64.leb dlat t = true ∧ F64.leb dlon t = true.
Proof.
  intros Ha Ho Ht. unfold F64.out_of_tolerance.
  rewrite orb_false_iff, !F64_not_ltb_leb by assumption. reflexivity.
Qed.

(** ** The locator in double precision resolves every row *)

Lemma F64_argmin_from_bound (l : list F64.float) :
  ∀ best bv i, (best < i)%nat →
    (F64.argmin_from best bv i l < i + length l)%nat.
Proof.
  induction l as [|x l IH]; intros best bv i Hb; cbn [F64.argmin_from length].
  - lia.
  - destruct (F64.leb bv x).
    + specialize (IH best bv (S i) ltac:(lia)). lia.
    + destruct (F64.is_nan x); [lia |].
      specialize (IH i x (S i) ltac:(lia)). lia.
Qed.

Lemma F64_nearest_linear_total (arr : list F64.float) (v : F64.float) :
  arr ≠ [] →
  ∃ i, F64.nearest_linear arr v = Ok i ∧ (i < length arr)%nat.
Proof.
  destruct arr as [|x arr]; [congruence | intros _].
  unfold F64.nearest_linear. cbn [map F64.argmin].
  eexists. split; [reflexivity |].
  destruct (F64.is_nan _); cbn [length]; [lia |].
  pose proof (F64_argmin_from_bound (map (fun x => F64.abs (F64.sub x v)) arr)
                0 (F64.abs (F64.sub x v)) 1 ltac:(lia)) as H.
  rewrite length_map in H. lia.
Qed.

Lemma F64_nearest_index_total (arr : list F64.float) (v : F64.float) :
  arr ≠ [] →
  ∃ i x, F64.nearest_index arr v = Ok i ∧ arr !! i = Some x.
Proof.
  intros Hne.
  assert (Hlen : (0 < length arr)%nat) by (destruct arr; [congruence | cbn; lia]).
  assert (Hin : ∀ i, (i < length arr)%nat → ∃ x, arr !! i = Some x).
  { intros i Hi. apply lookup_lt_is_Some_2 in Hi as [x Hx]. eauto. }
  destruct (F64_nearest_linear_total arr v Hne) as (k & Hk & Hkl).
  assert (Hfast : ∃ i, F64.nearest_fast arr v = Ok i ∧ (i < length arr)%nat).
  { unfold F64.nearest_fast. cbv zeta.
    destruct (Nat.eqb_spec (F64.searchsorted arr v) 0) as [E0|E0]; [eauto |].
    destruct (Nat.leb_spec (length arr) (F64.searchsorted arr v)) as [E1|E1].
    - eexists. split; [reflexivity | lia].
    - unfold index.
      destruct (Hin (F64.searchsorted arr v) E1) as [a ->].
      destruct (Hin (F64.searchsorted arr v - 1)%nat ltac:(lia)) as [b ->].
      cbn [rbind]. destruct (F64.ltb _ _); eexists; (split; [reflexivity | lia]). }
  unfold F64.nearest_index.
  destruct (F64.nondecreasing arr).
  - destruct Hfast as (i & -> & Hi). destruct (Hin i Hi) as [x Hx]. eauto.
  - rewrite Hk. destruct (Hin k Hkl) as [x Hx]. eauto.
Qed.

Lemma F64_adapt_query_lon_total (lon_vals : list F64.float) (lon : F64.float) :
  lon_vals ≠ [] → ∃ qlon, F64.adapt_query_lon lon_vals lon = Ok qlon.
Proof.
  destruct lon_vals as [|x r]; [congruence | intros _].
  unfold F64.adapt_query_lon. cbn [F64.nanmin F64.nanmax rbind].
  destruct (F64.leb _ _); [destruct (F64.ltb _ _) |]; eauto.
Qed.

Lemma F64_process_row_resolves (lat_vals lon_vals : list F64.float)
    (lat lon : F64.float) :
  lat_vals ≠ [] → lon_vals ≠ [] →
  ∃ qlon ilat ilon nearest_lat nearest_lon,
    F64.adapt_query_lon lon_vals lon = Ok qlon
    ∧ F64.nearest_index lat_vals lat = Ok ilat
    ∧ F64.nearest_index lon_vals qlon = Ok ilon
    ∧ lat_vals !! ilat = Some nearest_lat
    ∧ lon_vals !! ilon = Some nearest_lon.
Proof.
  intros Hlat Hlon.
  destruct (F64_adapt_query_lon_total lon_vals lon Hlon) as [qlon Hq].
  destruct (F64_nearest_index_total lat_vals lat Hlat) as (ilat & nlat & Hi & Hv).
  destruct (F64_nearest_index_total lon_vals qlon Hlon) as (ilon & nlon & Hj & Hw).
  exists qlon, ilat, ilon, nlat, nlon. auto.
Qed.

Lemma F64_process_row_eq (ds : Dataset) (lat_vals lon_vals : list F64.float)
    (ti : option nat) (var_names : list string) (tol : F64.float) (ridx : nat)
    (lat lon qlon : F64.float) (ilat ilon : nat)
    (nearest_lat nearest_lon : F64.float) :
  F64.adapt_query_lon lon_vals lon = Ok qlon →
  F64.nearest_index lat_vals lat = Ok ilat →
  F64.nearest_index lon_vals qlon = Ok ilon →
  lat_vals !! ilat = Some nearest_lat →
  lon_vals !! ilon = Some nearest_lon →
  F64.process_row ds lat_vals lon_vals ti var_names tol ridx lat lon
  = Ok (ridx,
        if F64.out_of_tolerance (F64.lat_difference nearest_lat lat)
                                (F64.lon_difference nearest_lon qlon) tol
        then fill_nan var_names
        else extract_vars ds ilat ilon ti var_names).
Proof.
  intros Hq Hi Hj Hv Hw. unfold F64.process_row, index.
  rewrite Hq. cbn [rbind]. rewrite Hi. cbn [rbind]. rewrite Hj. cbn [rbind].
  rewrite Hv, Hw. cbn [rbind].
  destruct (F64.out_of_tolerance _ _ _); reflexivity.
Qed.

(** ** C3: the tolerance gate *)

(** C3, as stated, fails, in both directions.  (1) The circular difference
    the code compares is computed in double precision, and the addition of
    180.0 rounds: for the grid longitude -0.05 and the query 0.0 the exact
    circular difference is the tolerance 0.05 itself and the latitude
    difference is 0, yet the computed difference is 0.0500000000000114 and
    the match is rejected.  (2) A sample with a blank latitude has the
    latitude NaN: the latitude difference is NaN, which is not at most the
    tolerance, yet the test [dlat > tol_deg or dlon > tol_deg] is false, the
    match is accepted, and the sample receives the CHL value 0.3 of the
    last latitude row. *)
Lemma C3_gate_is_not_the_exact_rule :
  let tol := F64.dec 5 100 in
  (∃ qlon nearest_lat nearest_lon,
     F64.adapt_query_lon [F64.dec (-5) 100; F64.dec 5 100] F64.zero = Ok qlon
     ∧ F64.nearest_index lat_axis_f64 (F64.of_Z 41) = Ok 1%nat
     ∧ F64.nearest_index [F64.dec (-5) 100; F64.dec 5 100] qlon = Ok O
     ∧ lat_axis_f64 !! 1%nat = Some nearest_lat
     ∧ [F64.dec (-5) 100; F64.dec 5 100] !! O = Some nearest_lon
     ∧ lat_difference (F64.to_Q nearest_lat) (F64.to_Q (F64.of_Z 41)) <= F64.to_Q tol
     ∧ lon_difference (F64.to_Q nearest_lon) (F64.to_Q qlon) == F64.to_Q tol
     ∧ F64.ltb tol (F64.lon_difference nearest_lon qlon) = true
     ∧ F64.process_row ds_chl_by_row lat_axis_f64
         [F64.dec (-5) 100; F64.dec 5 100] (Some O) ["CHL"%string] tol
         O (F64.of_Z 41) F64.zero
       = Ok (O, fill_nan ["CHL"%string]))
  ∧ (∃ nearest_lat,
       F64.nearest_index lat_axis_f64 F64.nan = Ok 2%nat
       ∧ lat_axis_f64 !! 2%nat = Some nearest_lat
       ∧ F64.leb (F64.lat_difference nearest_lat F64.nan) tol = false
       ∧ F64.process_row ds_chl_by_row lat_axis_f64 lon_axis_f64 (Some O)
           ["CHL"%string] tol O F64.nan (F64.dec (-87) 10)
         = Ok (O, extract_vars ds_chl_by_row 2 1 (Some O) ["CHL"%string])
       ∧ extract_vars ds_chl_by_row 2 1 (Some O) ["CHL"%string] !! "CHL"%string
         = Some (Num (3 / 10))).
Proof.
  cbv zeta. split.
  - eexists _, _, _.
    split; [vm_compute; reflexivity |].
    split; [vm_compute; reflexivity |].
    split; [vm_compute; reflexivity |].
    split; [reflexivity |]. split; [reflexivity |].
    split; [vm_compute; discriminate |].
    split; [vm_compute; reflexivity |].
    split; [vm_compute; reflexivity |].
    vm_compute; reflexivity.
  - eexists.
    split; [vm_compute; reflexivity |].
    split; [reflexivity |].
    split; [vm_compute; reflexivity |].
    split; [vm_compute; reflexivity |].
    vm_compute; reflexivity.
Qed.

(** C3 (amended): as line 157 computes it, in double precision and for
    differences and a tolerance that are numbers (a NaN difference, which a
    blank coordinate gives, is left out), the gate of [process_one_day] lets
    a row through exactly when the computed absolute latitude difference and
    the computed circular longitude difference are both at most the
    tolerance: a computed difference equal to the tolerance passes, any
    computed excess rejects.  The circular difference is
    [abs(((nearest_lon - qlon) + 180.0) % 360.0 - 180.0)]: for -179.98
    against 179.97 it is 0.0500000000000114, between 0.05 and 0.05 + 1e-13,
    not 359.95.  On non-empty axes every row resolves to a cell; when the
    gate lets it through, the result is the extraction at that cell, and
    otherwise every requested variable is [np.nan]. *)
Theorem C3_tolerance_gate (ds : Dataset) (lat_vals lon_vals : list F64.float)
    (time_index : option nat) (var_names : list string) (tol : F64.float)
    (ridx : nat) (lat lon : F64.float) :
  lat_vals ≠ [] → lon_vals ≠ [] →
  (∀ dlat dlon t,
     F64.is_nan dlat = false → F64.is_nan dlon = false → F64.is_nan t = false →
     (F64.out_of_tolerance dlat dlon t = false
      ↔ F64.leb dlat t = true ∧ F64.leb dlon t = true))
  ∧ (∀ t, F64.is_nan t = false → F64.out_of_tolerance t t t = false)
  ∧ (∀ d d' t, F64.ltb t d = true →
       F64.out_of_tolerance d d' t = true ∧ F64.out_of_tolerance d' d t = true)
  ∧ (let w := F64.lon_difference (F64.dec (-17998) 100) (F64.dec 17997 100) in
     F64.ltb (F64.dec 5 100) w = true
     ∧ F64.ltb w (F64.dec 500000000001 10000000000000) = true)
  ∧ ∃ qlon ilat ilon nearest_lat nearest_lon,
      F64.adapt_query_lon lon_vals lon = Ok qlon
      ∧ F64.nearest_index lat_vals lat = Ok ilat
      ∧ F64.nearest_index lon_vals qlon = Ok ilon
      ∧ lat_vals !! ilat = Some nearest_lat
      ∧ lon_vals !! ilon = Some nearest_lon
      ∧ let dlat := F64.lat_difference nearest_lat lat in
        let dlon := F64.lon_difference nearest_lon qlon in
        F64.is_nan dlat = false → F64.is_nan dlon = false →
        F64.is_nan tol = false →
        (F64.leb dlat tol = true ∧ F64.leb dlon tol = true →
           F64.process_row ds lat_vals lon_vals time_index var_names tol
             ridx lat lon
           = Ok (ridx, extract_vars ds ilat ilon time_index var_names))
        ∧ (¬ (F64.leb dlat tol = true ∧ F64.leb dlon tol = true) →
           ∃ res,
             F64.process_row ds lat_vals lon_vals time_index var_names tol
               ridx lat lon
             = Ok (ridx, res)
             ∧ (∀ v, v ∈ var_names → res !! v = Some NaN)
             ∧ (∀ v, default NaN (res !! v) = NaN)).
Proof.
  intros Hlat Hlon.
  split; [apply F64_out_of_tolerance_false |].
  split.
  { intros t Ht. apply F64_out_of_tolerance_false; try assumption.
    unfold F64.leb, SpecFloat.SFleb. rewrite (SFcompare_refl t Ht). auto. }
  split.
  { intros d d' t H. unfold F64.out_of_tolerance. rewrite H.
    split; [reflexivity | apply orb_true_r]. }
  split; [cbv zeta; split; vm_compute; reflexivity |].
  destruct (F64_process_row_resolves lat_vals lon_vals lat lon Hlat Hlon)
    as (qlon & ilat & ilon & nlat & nlon & Hq & Hi & Hj & Hv & Hw).
  exists qlon, ilat, ilon, nlat, nlon.
  do 5 (split; [assumption |]). cbv zeta. intros Ha Ho Ht.
  rewrite (F64_process_row_eq ds _ _ time_index var_names tol ridx _ _ _ _ _ _ _
             Hq Hi Hj Hv Hw).
  split.
  - intros H. apply F64_out_of_tolerance_false in H; try assumption.
    rewrite H. reflexivity.
  - intros H. destruct (F64.out_of_tolerance _ _ _) eqn:E.
    + exists (fill_nan var_names). split; [reflexivity |]. split.
      * intros v Hv'. rewrite fill_nan_lookup, decide_True by exact Hv'. reflexivity.
      * intros v. rewrite fill_nan_lookup. destruct (decide _); reflexivity.
    + apply F64_out_of_tolerance_false in E; try assumption. contradiction.
Qed.

Lemma C3_tolerance_gate_witness :
  let tol := F64.dec 5 100 in
  let lat := F64.dec 4105 100 in
  let lon := F64.dec (-87) 10 in
  lat_axis_f64 ≠ [] ∧ lon_axis_f64 ≠ []
  ∧ ∃ qlon ilat ilon nearest_lat nearest_lon,
      F64.adapt_query_lon lon_axis_f64 lon = Ok qlon
      ∧ F64.nearest_index lat_axis_f64 lat = Ok ilat
      ∧ F64.nearest_index lon_axis_f64 qlon = Ok ilon
      ∧ lat_axis_f64 !! ilat = Some nearest_lat
      ∧ lon_axis_f64 !! ilon = Some nearest_lon
      ∧ F64.is_nan (F64.lat_difference nearest_lat lat) = false
      ∧ F64.is_nan (F64.lon_difference nearest_lon qlon) = false
      ∧ F64.is_nan tol = false
      ∧ F64.leb (F64.lat_difference nearest_lat lat) tol = true
      ∧ F64.leb (F64.lon_difference nearest_lon qlon) tol = true
      ∧ F64.process_row ds_chl_by_row lat_axis_f64 lon_axis_f64 (Some O)
          ["CHL"%string] tol O lat lon
        = Ok (O, extract_vars ds_chl_by_row ilat ilon (Some O) ["CHL"%string])
      ∧ extract_vars ds_chl_by_row ilat ilon (Some O) ["CHL"%string]
          !! "CHL"%string = Some (Num (2 / 10)).
Proof.
  cbv zeta.
  split; [discriminate |]. split; [discriminate |].
  destruct (C3_tolerance_gate ds_chl_by_row lat_axis_f64 lon_axis_f64 (Some O)
              ["CHL"%string] (F64.dec 5 100) O (F64.dec 4105 100)
              (F64.dec (-87) 10) ltac:(discriminate) ltac:(discriminate))
    as (_ & _ & _ & _ & qlon & ilat & ilon & nlat & nlon
        & Hq & Hi & Hj & Hv & Hw & H).
  vm_compute in Hq. injection Hq as <-.
  vm_compute in Hi. injection Hi as <-.
  vm_compute in Hj. injection Hj as <-.
  vm_compute in Hv. injection Hv as <-.
  vm_compute in Hw. injection Hw as <-.
  destruct (H ltac:(vm_compute; reflexivity) ltac:(vm_compute; reflexivity)
              ltac:(vm_compute; reflexivity)) as [Hacc _].
  eexists _, _, _, _, _.
  do 5 (split; [vm_compute; reflexivity |]).
  do 5 (split; [vm_compute; reflexivity |]).
  split; [| vm_compute; reflexivity].
  apply Hacc. split; vm_compute; reflexivity.
Defined.

(** The end-to-end scenario in exact arithmetic: the latitude difference
    is the tolerance, the row is accepted and CHL = 0.42 is extracted. *)
Example scenario_20200315 :
  ∃ res,
    process_one_day ds_20200315 [(O, sample_20200315)] ["CHL"%string] DEFAULT_TOL_DEG
    = Ok [(O, res)]
    ∧ res !! "CHL"%string = Some (Num (42 # 100)).
Proof. eexists. split; [vm_compute; reflexivity | reflexivity]. Qed.

(** ** The time selector *)

Lemma argminZ_from_spec (l : list Z) :
  ∀ best bv i,
    (argminZ_from best bv i l = best ∧ ∀ j x, l !! j = Some x → (bv <= x)%Z)
    ∨ (∃ j xk, argminZ_from best bv i l = (i + j)%nat
         ∧ l !! j = Some xk ∧ (xk < bv)%Z
         ∧ (∀ j' x, l !! j' = Some x → (xk <= x)%Z)
         ∧ (∀ j' x, (j' < j)%nat → l !! j' = Some x → (xk < x)%Z)).
Proof.
  induction l as [|a l IH]; intros best bv i; simpl.
  - left. split; [reflexivity |]. intros j x H. discriminate.
  - destruct (Z.ltb_spec a bv) as [E|E].
    + destruct (IH i a (S i)) as [[Hk Hmin]|(j & xk & Hk & Hj & Hlt & Hmin & Hfirst)].
      * right. exists O, a. rewrite Hk.
        split; [lia |]. split; [reflexivity |]. split; [exact E |].
        split; [| intros; lia].
        intros [|j'] x Hx; simpl in Hx; [injection Hx as <-; lia | eauto].
      * right. exists (S j), xk. rewrite Hk.
        split; [lia |]. split; [exact Hj |]. split; [lia |].
        split.
        -- intros [|j'] x Hx; simpl in Hx; [injection Hx as <-; lia | eauto].
        -- intros [|j'] x Hlt' Hx; simpl in Hx;
             [injection Hx as <-; lia | apply (Hfirst j'); [lia | exact Hx]].
    + destruct (IH best bv (S i)) as [[Hk Hmin]|(j & xk & Hk & Hj & Hlt & Hmin & Hfirst)].
      * left. split; [exact Hk |].
        intros [|j'] x Hx; simpl in Hx; [injection Hx as <-; lia | eauto].
      * right. exists (S j), xk. rewrite Hk.
        split; [lia |]. split; [exact Hj |]. split; [exact Hlt |].
        split.
        -- intros [|j'] x Hx; simpl in Hx; [injection Hx as <-; lia | eauto].
        -- intros [|j'] x Hlt' Hx; simpl in Hx;
             [injection Hx as <-; lia | apply (Hfirst j'); [lia | exact Hx]].
Qed.

Lemma argminZ_first_min (l : list Z) : l ≠ [] → first_minZ l (argminZ l).
Proof.
  destruct l as [|a l]; [congruence | intros _]. simpl.
  destruct (argminZ_from_spec l 0 a 1) as [[Hk Hmin]|(j & xk & Hk & Hj & Hlt & Hmin & Hfirst)];
    rewrite Hk.
  - exists a. split; [reflexivity |]. split.
    + intros [|j] x Hx; simpl in Hx; [injection Hx as <-; lia | eauto].
    + intros; lia.
  - exists xk. split; [exact Hj |]. split.
    + intros [|j'] x Hx; simpl in Hx; [injection Hx as <-; lia | eauto].
    + intros [|j'] x Hlt' Hx; simpl in Hx;
        [injection Hx as <-; lia | apply (Hfirst j'); [lia | exact Hx]].
Qed.

Lemma compute_time_index_nearest (ds : Dataset) (when : Z) :
  (2 <= length (ds_time ds))%nat →
  ∃ k tk,
    compute_time_index ds when = Some k ∧ ds_time ds !! k = Some tk
    ∧ (∀ j t, ds_time ds !! j = Some t → (Z.abs (tk - when) <= Z.abs (t - when))%Z)
    ∧ (∀ j t, (j < k)%nat → ds_time ds !! j = Some t →
         (Z.abs (tk - when) < Z.abs (t - when))%Z).
Proof.
  intros Hlen. unfold compute_time_index.
  destruct (Nat.leb_spec (length (ds_time ds)) 0) as [H|_]; [lia |].
  destruct (Nat.eqb_spec (length (ds_time ds)) 1) as [H|_]; [lia |].
  assert (Hne : map (fun t => Z.abs (t - when)) (ds_time ds) ≠ []).
  { destruct (ds_time ds); [simpl in Hlen; lia | discriminate]. }
  destruct (argminZ_first_min _ Hne) as (d & Hd & Hmin & Hfirst).
  rewrite list_lookup_fmap in Hd.
  destruct (ds_time ds !! argminZ _) as [tk|] eqn:Htk; simpl in Hd; [| discriminate].
  injection Hd as <-.
  eexists _, tk. split; [reflexivity |]. split; [exact Htk |]. split.
  - intros j t Ht. apply (Hmin j).
    rewrite list_lookup_fmap, Ht. reflexivity.
  - intros j t Hj Ht. apply (Hfirst j); [exact Hj |].
    rewrite list_lookup_fmap, Ht. reflexivity.
Qed.

(** ** Sorted sets of keys *)

Lemma elem_of_insert_uniq_inv {A : Type} (cmp : A → A → comparison)
    (x y : A) (l : list A) :
  y ∈ insert_uniq cmp x l → y = x ∨ y ∈ l.
Proof.
  induction l as [|a l IH]; simpl.
  - intros H. apply list_elem_of_singleton in H. auto.
  - destruct (cmp x a).
    + auto.
    + intros H. apply elem_of_cons in H as [H|H]; auto.
    + intros H. apply elem_of_cons in H as [->|H]; [right; left |].
      destruct (IH H) as [?|?]; [auto | right; right; assumption].
Qed.

Lemma elem_of_sorted_set_inv {A : Type} (cmp : A → A → comparison)
    (y : A) (l : list A) :
  y ∈ sorted_set cmp l → y ∈ l.
Proof.
  induction l as [|a l IH]; simpl; [auto |].
  intros H. apply elem_of_insert_uniq_inv in H as [->|H]; [left | right; auto].
Qed.

Lemma groupby_date_group (all : list (nat * Sample)) (day : Timestamp)
    (rows : list (nat * Sample)) :
  (day, rows) ∈ groupby_date all →
  rows = filter (fun r => s_date r.2 = day) all
  ∧ rows ≠ []
  ∧ ∀ r, r ∈ rows → r ∈ all ∧ s_date r.2 = day.
Proof.
  unfold groupby_date. intros H.
  apply list_elem_of_fmap in H as (day' & [= <- ->] & Hin).
  apply elem_of_sorted_set_inv in Hin.
  apply list_elem_of_fmap in Hin as (r0 & Hr0 & Hin).
  split; [reflexivity |]. split.
  - intros Hnil.
    assert (Hr : r0 ∈ filter (fun r => s_date r.2 = day) all)
      by (apply list_elem_of_filter; split; [symmetry; exact Hr0 | exact Hin]).
    rewrite Hnil in Hr. inversion Hr.
  - intros r Hr. apply list_elem_of_filter in Hr as [? ?]. auto.
Qed.

Lemma rmapM_ext {A B : Type} (f g : A → result B) (l : list A) :
  (∀ a, a ∈ l → f a = g a) → rmapM f l = rmapM g l.
Proof.
  induction l as [|a l IH]; intros H; simpl; [reflexivity |].
  rewrite (H a) by left. rewrite IH; [reflexivity |].
  intros b Hb. apply H. right. exact Hb.
Qed.

(** ** C6: time-slice selection *)

(** C6: [compute_time_index] gives no index on an empty time axis (and the
    extraction then indexes every variable without a time index), index 0 on
    an axis of one value whatever that value and the date, and otherwise the
    first index that minimises the absolute difference to the sample's date
    at midnight (a whole number of days, in nanoseconds).  [process_one_day] computes it once, from the first row;
    as the rows of a day-group share their date, that is the index each row
    would get from its own date. *)
Theorem C6_time_slice_selection (ds : Dataset) (when : Z) :
  (ds_time ds = [] →
     compute_time_index ds when = None
     ∧ ∀ ilat ilon v da, data_vars ds !! v = Some da →
         extract_var ds ilat ilon (compute_time_index ds when) v
         = match da_item da ilat ilon None with
           | ReadFinite val => Num val
           | _ => NaN
           end)
  ∧ (∀ t, ds_time ds = [t] → compute_time_index ds when = Some O)
  ∧ ((2 <= length (ds_time ds))%nat →
     ∃ k tk,
       compute_time_index ds when = Some k ∧ ds_time ds !! k = Some tk
       ∧ (∀ j t, ds_time ds !! j = Some t →
            (Z.abs (tk - when) <= Z.abs (t - when))%Z)
       ∧ (∀ j t, (j < k)%nat → ds_time ds !! j = Some t →
            (Z.abs (tk - when) < Z.abs (t - when))%Z))
  ∧ (∀ day, (np_datetime day mod 86400000000000 = 0)%Z)
  ∧ (∀ all day rows var_names tol,
       (day, rows) ∈ groupby_date all →
       (∀ r, r ∈ rows → s_date r.2 = day)
       ∧ process_one_day ds rows var_names tol
         = (lat_vals ←r coord_values (ds_lat ds);
            lon_vals ←r coord_values (ds_lon ds);
            rmapM (fun r =>
                     process_row ds lat_vals lon_vals
                       (compute_time_index ds (np_datetime (s_date r.2)))
                       var_names tol r) rows)).
Proof.
  split; [| split; [| split; [| split]]].
  - intros H. unfold compute_time_index. rewrite H. simpl.
    split; [reflexivity |].
    intros ilat ilon v da Hda. unfold extract_var. rewrite Hda.
    destruct (da_has_time da); destruct (da_item da ilat ilon None); reflexivity.
  - intros t H. unfold compute_time_index. rewrite H. reflexivity.
  - apply compute_time_index_nearest.
  - intros day. unfold np_datetime. apply Z.mod_mul. lia.
  - intros all day rows var_names tol Hg.
    destruct (groupby_date_group _ _ _ Hg) as (_ & Hne & Hrows).
    split; [intros r Hr; apply Hrows, Hr |].
    unfold process_one_day.
    destruct (coord_values (ds_lat ds)) as [lat_vals|e]; [| reflexivity].
    destruct (coord_values (ds_lon ds)) as [lon_vals|e]; [| reflexivity].
    cbn [rbind].
    destruct rows as [|r0 rows']; [congruence |].
    unfold index at 1. cbn [lookup list_lookup rbind].
    apply rmapM_ext. intros r Hr.
    destruct (Hrows r0 ltac:(left)) as [_ ->].
    destruct (Hrows r Hr) as [_ ->]. reflexivity.
Qed.

(** Three daily time steps and a sample on the middle day. *)
Example time_index_three_steps :
  let ds := {| ds_lat := None; ds_lon := None;
               ds_time := [0; 86400000000000; 172800000000000]%Z;
               data_vars := ∅ |} in
  compute_time_index ds (np_datetime {| ts_year := 1970; ts_month := 1; ts_day := 2 |})
  = Some 1%nat.
Proof. reflexivity. Qed.

(** A tie between two time steps goes to the lower index. *)
Example time_index_tie :
  let ds := {| ds_lat := None; ds_lon := None;
               ds_time := [43200000000000; 129600000000000]%Z;
               data_vars := ∅ |} in
  compute_time_index ds (np_datetime {| ts_year := 1970; ts_month := 1; ts_day := 2 |})
  = Some 0%nat.
Proof. reflexivity. Qed.

(** ** Orders on keys *)

Lemma ascii_compare_trans (a b c : ascii) :
  Ascii.compare a b = Lt → Ascii.compare b c = Lt → Ascii.compare a c = Lt.
Proof.
  unfold Ascii.compare. rewrite !N.compare_lt_iff. lia.
Qed.

Lemma ascii_compare_refl (a : ascii) : Ascii.compare a a = Eq.
Proof. unfold Ascii.compare. apply N.compare_refl. Qed.

Lemma string_compare_refl (s : string) : String.compare s s = Eq.
Proof.
  induction s as [|a s IH]; simpl; [reflexivity |].
  rewrite ascii_compare_refl. exact IH.
Qed.

Lemma string_compare_trans (s1 s2 s3 : string) :
  String.compare s1 s2 = Lt → String.compare s2 s3 = Lt →
  String.compare s1 s3 = Lt.
Proof.
  revert s2 s3. induction s1 as [|a s1 IH]; intros [|b s2] [|c s3]; simpl;
    try congruence.
  destruct (Ascii.compare a b) eqn:Eab; try discriminate.
  - apply Ascii.compare_eq_iff in Eab as ->.
    destruct (Ascii.compare b c) eqn:Ebc; try discriminate; [| reflexivity].
    apply IH.
  - intros _. destruct (Ascii.compare b c) eqn:Ebc; try discriminate.
    + apply Ascii.compare_eq_iff in Ebc as <-. rewrite Eab. reflexivity.
    + rewrite (ascii_compare_trans _ _ _ Eab Ebc). reflexivity.
Qed.

Global Instance string_cmp_order : CmpOrder String.compare.
Proof.
  split.
  - apply String.compare_eq_iff.
  - apply string_compare_refl.
  - apply String.compare_antisym.
  - apply string_compare_trans.
Qed.

Global Instance ts_cmp_order : CmpOrder ts_compare.
Proof.
  split.
  - intros [y1 m1 d1] [y2 m2 d2]. unfold ts_compare. simpl.
    destruct (Z.compare_spec y1 y2); try discriminate.
    destruct (Z.compare_spec m1 m2); try discriminate.
    destruct (Z.compare_spec d1 d2); try discriminate.
    intros _. congruence.
  - intros [y m d]. unfold ts_compare. simpl. rewrite !Z.compare_refl. reflexivity.
  - intros [y1 m1 d1] [y2 m2 d2]. unfold ts_compare. simpl.
    rewrite (Z.compare_antisym y1 y2), (Z.compare_antisym m1 m2),
      (Z.compare_antisym d1 d2).
    destruct (y1 ?= y2)%Z, (m1 ?= m2)%Z, (d1 ?= d2)%Z; reflexivity.
  - intros [y1 m1 d1] [y2 m2 d2] [y3 m3 d3]. unfold ts_compare. simpl.
    destruct (Z.compare_spec y1 y2), (Z.compare_spec y2 y3),
      (Z.compare_spec y1 y3); try lia; try discriminate;
    destruct (Z.compare_spec m1 m2), (Z.compare_spec m2 m3),
      (Z.compare_spec m1 m3); try lia; try discriminate;
    destruct (Z.compare_spec d1 d2), (Z.compare_spec d2 d3),
      (Z.compare_spec d1 d3); try lia; try discriminate; reflexivity.
Qed.

Section SortedSet.
Context {A : Type} (cmp : A → A → comparison) `{!CmpOrder cmp}.

Lemma cmp_gt_lt (x y : A) : cmp x y = Gt → cmp y x = Lt.
Proof. intros H. rewrite cmp_antisym, H. reflexivity. Qed.

Lemma cmp_lt_irrefl (x : A) : ¬ cmp_lt cmp x x.
Proof. unfold cmp_lt. rewrite cmp_refl. discriminate. Qed.

Lemma elem_of_insert_uniq (x y : A) (l : list A) :
  y ∈ insert_uniq cmp x l ↔ y = x ∨ y ∈ l.
Proof.
  split; [apply elem_of_insert_uniq_inv |].
  induction l as [|a l IH]; simpl.
  - intros [->|H]; [left | inversion H].
  - destruct (cmp x a) eqn:E.
    + apply cmp_eq in E as ->. intros [->|H]; [left | exact H].
    + intros [->|H]; [left | right; exact H].
    + intros [->|H].
      * right. apply IH. left. reflexivity.
      * apply elem_of_cons in H as [->|H]; [left | right; apply IH; right; exact H].
Qed.

Lemma elem_of_sorted_set (y : A) (l : list A) :
  y ∈ sorted_set cmp l ↔ y ∈ l.
Proof.
  induction l as [|a l IH]; simpl; [reflexivity |].
  rewrite elem_of_insert_uniq, IH, elem_of_cons. reflexivity.
Qed.

Lemma insert_uniq_sorted (x : A) (l : list A) :
  StronglySorted (cmp_lt cmp) l → StronglySorted (cmp_lt cmp) (insert_uniq cmp x l).
Proof.
  induction l as [|a l IH]; intros Hs; simpl.
  - constructor; [constructor | constructor].
  - apply StronglySorted_inv in Hs as [Hs Ha].
    destruct (cmp x a) eqn:E.
    + constructor; assumption.
    + constructor; [constructor; assumption |].
      constructor; [exact E |].
      eapply Forall_impl; [exact Ha |].
      intros z Hz. exact (cmp_trans _ _ _ E Hz).
    + constructor; [apply IH, Hs |].
      apply Forall_forall. intros z Hz.
      apply elem_of_insert_uniq in Hz as [->|Hz].
      * apply cmp_gt_lt, E.
      * rewrite Forall_forall in Ha. apply Ha, Hz.
Qed.

Lemma sorted_set_sorted (l : list A) : StronglySorted (cmp_lt cmp) (sorted_set cmp l).
Proof.
  induction l as [|a l IH]; simpl; [constructor |].
  apply insert_uniq_sorted, IH.
Qed.

Lemma sorted_NoDup (l : list A) : StronglySorted (cmp_lt cmp) l → NoDup l.
Proof.
  induction 1 as [|a l Hs IH Ha]; constructor; [| exact IH].
  intros Hin. rewrite Forall_forall in Ha.
  exact (cmp_lt_irrefl a (Ha a Hin)).
Qed.

Lemma sorted_set_NoDup (l : list A) : NoDup (sorted_set cmp l).
Proof. apply sorted_NoDup, sorted_set_sorted. Qed.
End SortedSet.

(** ** Strings, patterns and formatted dates *)

Lemma string_app_cons (c : ascii) (a b : string) :
  String c a +:+ b = String c (a +:+ b).
Proof. reflexivity. Qed.

Lemma string_app_nil_l (b : string) : EmptyString +:+ b = b.
Proof. reflexivity. Qed.

Lemma string_app_assoc (a b c : string) : (a +:+ b) +:+ c = a +:+ (b +:+ c).
Proof.
  induction a as [|x a IH]; [reflexivity |].
  rewrite !string_app_cons, IH. reflexivity.
Qed.

Lemma fnmatch_nil (name : string) :
  fnmatch EmptyString name = true ↔ name = EmptyString.
Proof. destruct name; simpl; split; congruence. Qed.

Lemma fnmatch_star_unfold (p name : string) :
  fnmatch (String "*"%char p) name
  = fnmatch p name
    || match name with
       | EmptyString => false
       | String _ name' => fnmatch (String "*"%char p) name'
       end.
Proof. destruct name; reflexivity. Qed.

Lemma fnmatch_star (p name : string) :
  fnmatch (String "*"%char p) name = true
  ↔ ∃ a rest, name = a +:+ rest ∧ fnmatch p rest = true.
Proof.
  induction name as [|c name IH]; rewrite fnmatch_star_unfold, orb_true_iff.
  - split.
    + intros [H|H]; [| discriminate]. exists EmptyString, EmptyString. auto.
    + intros (a & rest & Hn & Hm). left.
      destruct a; [rewrite string_app_nil_l in Hn; subst rest; exact Hm
                  | rewrite string_app_cons in Hn; discriminate].
  - rewrite IH. split.
    + intros [H|(a & rest & -> & Hm)].
      * exists EmptyString, (String c name). auto.
      * exists (String c a), rest. auto.
    + intros (a & rest & Hn & Hm). destruct a as [|c' a].
      * rewrite string_app_nil_l in Hn. left. subst rest. exact Hm.
      * rewrite string_app_cons in Hn. injection Hn as -> ->.
        right. exists a, rest. auto.
Qed.

Lemma fnmatch_lit (lit p name : string) :
  no_star lit = true →
  fnmatch (lit +:+ p) name = true
  ↔ ∃ rest, name = lit +:+ rest ∧ fnmatch p rest = true.
Proof.
  revert name. induction lit as [|c lit IH]; intros name Hlit.
  - rewrite string_app_nil_l.
    split; [intros H; exists name; auto | intros (rest & -> & H); exact H].
  - simpl in Hlit. apply andb_true_iff in Hlit as [Hc Hlit].
    apply negb_true_iff in Hc. rewrite string_app_cons. simpl. rewrite Hc.
    destruct name as [|c' name].
    + split; [discriminate | intros (rest & H & _); discriminate].
    + rewrite andb_true_iff, (IH name Hlit). split.
      * intros [Hcc (rest & -> & Hm)]. apply Ascii.eqb_eq in Hcc as ->.
        exists rest. auto.
      * intros (rest & Hn & Hm). rewrite string_app_cons in Hn.
        injection Hn as -> ->.
        split; [apply Ascii.eqb_refl | exists rest; auto].
Qed.

Lemma date_chars_app (a b : string) :
  date_chars (a +:+ b) = date_chars a && date_chars b.
Proof.
  induction a as [|c a IH]; [reflexivity |].
  rewrite string_app_cons. simpl. rewrite IH, andb_assoc. reflexivity.
Qed.

Lemma date_chars_no_star (s : string) : date_chars s = true → no_star s = true.
Proof.
  induction s as [|c s IH]; simpl; [reflexivity |].
  intros H. apply andb_true_iff in H as [Hc Hs]. rewrite (IH Hs), andb_true_r.
  apply negb_true_iff. destruct (Ascii.eqb_spec c "*"%char) as [->|]; [| reflexivity].
  discriminate.
Qed.

Lemma date_chars_no_dot (s : string) :
  date_chars s = true → s ≠ EmptyString → starts_with_dot s = false.
Proof.
  destruct s as [|c s]; [congruence |]. simpl. intros H _.
  apply andb_true_iff in H as [Hc _].
  destruct (Ascii.eqb_spec c "."%char) as [->|]; [discriminate | reflexivity].
Qed.

Lemma date_chars_zeros (k : nat) : date_chars (zeros k) = true.
Proof. induction k as [|k IH]; simpl; [reflexivity | exact IH]. Qed.

Lemma date_chars_uint (u : Decimal.uint) :
  date_chars (NilEmpty.string_of_uint u) = true.
Proof. induction u; simpl; try reflexivity; assumption. Qed.

Lemma date_chars_digits (u : Decimal.uint) :
  date_chars (NilZero.string_of_uint u) = true
  ∧ NilZero.string_of_uint u ≠ EmptyString.
Proof.
  unfold NilZero.string_of_uint. destruct u; simpl;
    (split; [try reflexivity; apply date_chars_uint | discriminate]).
Qed.

Lemma format_d_chars (width : nat) (n : Z) :
  date_chars (format_d width n) = true ∧ format_d width n ≠ EmptyString.
Proof.
  unfold format_d.
  destruct (date_chars_digits (N.to_uint (Z.abs_N n))) as [Hd Hne].
  destruct (n <? 0)%Z.
  - split; [| discriminate]. simpl.
    rewrite date_chars_app, date_chars_zeros, Hd. reflexivity.
  - split.
    + rewrite date_chars_app, date_chars_zeros, Hd. reflexivity.
    + destruct (zeros _); simpl; [exact Hne | discriminate].
Qed.

Lemma starts_with_dot_app (a b : string) :
  a ≠ EmptyString → starts_with_dot (a +:+ b) = starts_with_dot a.
Proof. destruct a; [congruence | reflexivity]. Qed.

(** The names the three patterns of [file_candidates_for_date] admit. *)
Lemma patterns_admit (ymd name : string) :
  date_chars ymd = true → ymd ≠ EmptyString →
  (∃ pat, pat ∈ [ymd +:+ "_*.nc"; "*" +:+ ymd +:+ "*.nc"; ymd +:+ ".nc"]
          ∧ fnmatch pat name = true
          ∧ (starts_with_dot name = true → starts_with_dot pat = true))
  ↔ starts_with_dot name = false
    ∧ ∃ a b, name = a +:+ ymd +:+ b +:+ ".nc".
Proof.
  intros Hchars Hne.
  pose proof (date_chars_no_star _ Hchars) as Hstar.
  pose proof (date_chars_no_dot _ Hchars Hne) as Hdot.
  assert (Hsub : fnmatch ("*" +:+ ymd +:+ "*.nc") name = true
                 ↔ ∃ a b, name = a +:+ ymd +:+ b +:+ ".nc").
  { change ("*" +:+ ymd +:+ "*.nc") with (String "*"%char (ymd +:+ "*.nc")).
    rewrite fnmatch_star. split.
    - intros (a & rest & -> & Hm).
      apply (fnmatch_lit ymd) in Hm as (rest' & -> & Hm); [| exact Hstar].
      apply fnmatch_star in Hm as (b & rest'' & -> & Hm).
      apply (fnmatch_lit ".nc" EmptyString) in Hm as (e & -> & He); [| reflexivity].
      apply fnmatch_nil in He as ->. exists a, b. reflexivity.
    - intros (a & b & ->). exists a, (ymd +:+ b +:+ ".nc"). split; [reflexivity |].
      apply (fnmatch_lit ymd); [exact Hstar |]. exists (b +:+ ".nc").
      split; [reflexivity |]. apply fnmatch_star. exists b, ".nc". split; reflexivity. }
  split.
  - intros (pat & Hpat & Hm & Hhid).
    apply elem_of_cons in Hpat as [->|Hpat]; [| apply elem_of_cons in Hpat as [->|Hpat]];
      [| | apply list_elem_of_singleton in Hpat as ->].
    + apply (fnmatch_lit ymd) in Hm as (rest & -> & Hm); [| exact Hstar].
      split; [rewrite starts_with_dot_app by exact Hne; exact Hdot |].
      change "_*.nc" with ("_" +:+ String "*"%char ".nc") in Hm.
      apply (fnmatch_lit "_") in Hm as (rest' & -> & Hm); [| reflexivity].
      apply fnmatch_star in Hm as (b & rest'' & -> & Hm).
      apply (fnmatch_lit ".nc" EmptyString) in Hm as (e & -> & He); [| reflexivity].
      apply fnmatch_nil in He as ->.
      exists EmptyString, ("_" +:+ b). reflexivity.
    + split; [| apply Hsub, Hm].
      destruct (starts_with_dot name); [| reflexivity].
      specialize (Hhid eq_refl). discriminate.
    + apply (fnmatch_lit ymd) in Hm as (rest & -> & Hm); [| exact Hstar].
      split; [rewrite starts_with_dot_app by exact Hne; exact Hdot |].
      apply (fnmatch_lit ".nc" EmptyString) in Hm as (e & -> & He); [| reflexivity].
      apply fnmatch_nil in He as ->.
      exists EmptyString, EmptyString. reflexivity.
  - intros (Hname & Hab). exists ("*" +:+ ymd +:+ "*.nc").
    split; [right; left |]. split; [apply Hsub, Hab |].
    rewrite Hname. discriminate.
Qed.

(** ** The file resolver *)

Lemma elem_of_glob (fs : FileSystem) (dir pat path : string) :
  path ∈ glob fs dir pat
  ↔ ∃ name, name ∈ listdir fs dir ∧ path = path_join dir name
            ∧ fnmatch pat name = true
            ∧ (starts_with_dot name = true → starts_with_dot pat = true).
Proof.
  unfold glob. rewrite list_elem_of_fmap. split.
  - intros (name & -> & Hin). apply list_elem_of_filter in Hin as [[Hm Hh] Hin].
    exists name. auto.
  - intros (name & Hin & -> & Hm & Hh). exists name. split; [reflexivity |].
    apply list_elem_of_filter. auto.
Qed.

Lemma ymd_chars (y m d : Z) :
  date_chars (format_d 4 y +:+ format_d 2 m +:+ format_d 2 d) = true
  ∧ format_d 4 y +:+ format_d 2 m +:+ format_d 2 d ≠ EmptyString.
Proof.
  destruct (format_d_chars 4 y) as [Hy Hne].
  destruct (format_d_chars 2 m) as [Hm _].
  destruct (format_d_chars 2 d) as [Hd _].
  split.
  - rewrite !date_chars_app, Hy, Hm, Hd. reflexivity.
  - destruct (format_d 4 y); [congruence | discriminate].
Qed.

Lemma file_candidates_spec (fs : FileSystem) (base_dir : string) (y m d : Z)
    (path : string) :
  path ∈ file_candidates_for_date fs base_dir y m d
  ↔ ∃ name,
      name ∈ listdir fs (path_join base_dir (format_d 4 y))
      ∧ path = path_join (path_join base_dir (format_d 4 y)) name
      ∧ starts_with_dot name = false
      ∧ ∃ a b, name = a +:+ (format_d 4 y +:+ format_d 2 m +:+ format_d 2 d)
                        +:+ b +:+ ".nc".
Proof.
  unfold file_candidates_for_date. cbv zeta.
  rewrite (elem_of_sorted_set String.compare).
  destruct (ymd_chars y m d) as [Hc Hne].
  set (ymd := format_d 4 y +:+ format_d 2 m +:+ format_d 2 d) in *.
  set (year_dir := path_join base_dir (format_d 4 y)).
  rewrite list_elem_of_In, in_concat. split.
  - intros (l & Hl & Hin). apply in_map_iff in Hl as (pat & <- & Hpat).
    apply list_elem_of_In in Hin, Hpat.
    apply elem_of_glob in Hin as (name & Hname & -> & Hm & Hh).
    exists name. split; [exact Hname |]. split; [reflexivity |].
    apply (patterns_admit ymd name Hc Hne). exists pat. auto.
  - intros (name & Hname & -> & Hdot & Hab).
    destruct (proj2 (patterns_admit ymd name Hc Hne) (conj Hdot Hab))
      as (pat & Hpat & Hm & Hh).
    exists (glob fs year_dir pat). split.
    + apply in_map. apply list_elem_of_In. exact Hpat.
    + apply list_elem_of_In, elem_of_glob. exists name. auto.
Qed.

Lemma open_first_Some (fs : FileSystem) (cands : list string) (path : string)
    (ds : Dataset) :
  open_first fs cands = Some (path, ds)
  ↔ ∃ pre post, cands = pre ++ path :: post
                ∧ (∀ p, p ∈ pre → open_dataset fs p = None)
                ∧ open_dataset fs path = Some ds.
Proof.
  induction cands as [|c cands IH]; simpl.
  - split; [discriminate | intros (pre & post & H & _); destruct pre; discriminate].
  - destruct (open_dataset fs c) as [ds'|] eqn:E.
    + split.
      * intros [= <- <-]. exists [], cands. split; [reflexivity |].
        split; [intros p Hp; inversion Hp | exact E].
      * intros (pre & post & Hc & Hpre & Hopen). destruct pre as [|p pre].
        -- injection Hc as -> ->. congruence.
        -- injection Hc as -> ->. rewrite (Hpre p) in E by left. discriminate.
    + rewrite IH. split.
      * intros (pre & post & -> & Hpre & Hopen). exists (c :: pre), post.
        split; [reflexivity |]. split; [| exact Hopen].
        intros p Hp. apply elem_of_cons in Hp as [->|Hp]; [exact E | auto].
      * intros (pre & post & Hc & Hpre & Hopen). destruct pre as [|p pre].
        -- injection Hc as -> ->. congruence.
        -- injection Hc as -> ->. exists pre, post. split; [reflexivity |].
           split; [| exact Hopen]. intros q Hq. apply Hpre. right. exact Hq.
Qed.

Lemma open_first_None (fs : FileSystem) (cands : list string) :
  open_first fs cands = None ↔ ∀ p, p ∈ cands → open_dataset fs p = None.
Proof.
  induction cands as [|c cands IH]; simpl.
  - split; [intros _ p Hp; inversion Hp | reflexivity].
  - destruct (open_dataset fs c) as [ds'|] eqn:E.
    + split; [discriminate |]. intros H. rewrite (H c) in E by left. discriminate.
    + rewrite IH. split.
      * intros H p Hp. apply elem_of_cons in Hp as [->|Hp]; [exact E | auto].
      * intros H p Hp. apply H. right. exact Hp.
Qed.

Lemma format_d_width_4 (y : Z) :
  (0 <= y <= 9999)%Z → String.length (format_d 4 y) = 4%nat.
Proof.
  intros Hy.
  assert (Hall : forallb (fun n => (String.length (format_d 4 (Z.of_nat n)) =? 4)%nat)
                         (seq 0 (Z.to_nat 10000)) = true) by (vm_compute; reflexivity).
  rewrite forallb_forall in Hall.
  specialize (Hall (Z.to_nat y)). rewrite Z2Nat.id in Hall by lia.
  apply Nat.eqb_eq, Hall, in_seq. lia.
Qed.

Lemma format_d_width_2 (m : Z) :
  (0 <= m <= 99)%Z → String.length (format_d 2 m) = 2%nat.
Proof.
  intros Hm.
  assert (Hall : forallb (fun n => (String.length (format_d 2 (Z.of_nat n)) =? 2)%nat)
                         (seq 0 100) = true) by (vm_compute; reflexivity).
  rewrite forallb_forall in Hall.
  specialize (Hall (Z.to_nat m)). rewrite Z2Nat.id in Hall by lia.
  apply Nat.eqb_eq, Hall, in_seq. lia.
Qed.

Lemma string_length_app (a b : string) :
  String.length (a +:+ b) = (String.length a + String.length b)%nat.
Proof.
  induction a as [|c a IH]; [reflexivity |].
  rewrite string_app_cons. simpl. rewrite IH. reflexivity.
Qed.

(** ** C7: the file resolver *)

Lemma has_magic_app (a b : string) :
  has_magic (a +:+ b) = has_magic a || has_magic b.
Proof.
  induction a as [|c a IH]; [reflexivity |].
  rewrite string_app_cons. cbn [has_magic]. rewrite IH, !orb_assoc. reflexivity.
Qed.

Lemma date_chars_no_magic (s : string) : date_chars s = true → has_magic s = false.
Proof.
  induction s as [|c s IH]; cbn [date_chars has_magic]; [reflexivity |].
  intros H. apply andb_true_iff in H as [Hc Hs]. rewrite (IH Hs), orb_false_r.
  destruct (Ascii.eqb_spec c "*"%char) as [->|]; [discriminate |].
  destruct (Ascii.eqb_spec c "?"%char) as [->|]; [discriminate |].
  destruct (Ascii.eqb_spec c "["%char) as [->|]; [discriminate |].
  reflexivity.
Qed.

(** The directory the three patterns are joined to holds no wildcard when
    the base directory holds none, so that [glob.glob] lists that one
    directory. *)
Lemma year_dir_no_magic (base_dir : string) (y : Z) :
  has_magic base_dir = false →
  has_magic (path_join base_dir (format_d 4 y)) = false.
Proof.
  intros H. destruct (format_d_chars 4 y) as [Hc _].
  pose proof (date_chars_no_magic _ Hc) as Hy.
  unfold path_join. destruct base_dir as [|c r]; [exact Hy |].
  destruct (ends_with_slash _); rewrite !has_magic_app, H, Hy; reflexivity.
Qed.

(** C7, as stated, fails.  With the names 20200315_x.nc, 07_20200315.nc and
    20200315.txt in the year directory, [file_candidates_for_date] lists
    07_20200315.nc (a substring match only) before 20200315_x.nc (the
    exact-prefix match), so the file that is opened is not the one the
    pattern priority would choose; and 20200315.txt, whose name contains
    the date, is not a candidate. *)
Lemma C7_candidates_not_in_pattern_priority :
  file_candidates_for_date fs_three_names "data" 2020 3 15
  = ["data/2020/07_20200315.nc"; "data/2020/20200315_x.nc"]%string
  ∧ candidates_by_priority fs_three_names "data" 2020 3 15
    = ["data/2020/20200315_x.nc"; "data/2020/07_20200315.nc"]%string
  ∧ fst <$> open_first fs_three_names
              (file_candidates_for_date fs_three_names "data" 2020 3 15)
    = Some "data/2020/07_20200315.nc"%string
  ∧ fst <$> open_first fs_three_names
              (candidates_by_priority fs_three_names "data" 2020 3 15)
    = Some "data/2020/20200315_x.nc"%string
  ∧ "20200315.txt"%string ∈ listdir fs_three_names "data/2020"
  ∧ name_contains "20200315" "20200315.txt" = true
  ∧ "data/2020/20200315.txt"%string
    ∉ file_candidates_for_date fs_three_names "data" 2020 3 15.
Proof.
  assert (E : file_candidates_for_date fs_three_names "data" 2020 3 15
              = ["data/2020/07_20200315.nc"; "data/2020/20200315_x.nc"]%string)
    by (vm_compute; reflexivity).
  rewrite !E.
  split; [reflexivity |].
  split; [vm_compute; reflexivity |].
  split; [vm_compute; reflexivity |].
  split; [vm_compute; reflexivity |].
  split; [vm_compute; right; right; left |].
  split; [vm_compute; reflexivity |].
  intros H. apply elem_of_cons in H as [H|H]; [discriminate |].
  apply list_elem_of_singleton in H. discriminate.
Qed.

(** C7 (amended): for a base directory whose path holds no wildcard
    character of [glob], the directory of the three patterns holds none
    either and the candidates for a date are exactly the paths, under the
    year subdirectory of the base directory, of the listed names that do not
    start with a dot and have the form a ++ YYYYMMDD ++ b ++ ".nc"; the
    year is written with 4 digits and the date with 8 for a calendar date.
    The list is in ascending order of the path strings, each path once
    (the order of the three patterns plays no part), and the dataset used is
    that of the first candidate in this order that opens; none is used when
    every candidate fails to open. *)
Theorem C7_file_resolver (fs : FileSystem) (base_dir : string) (y m d : Z) :
  has_magic base_dir = false →
  let ymd := format_d 4 y +:+ format_d 2 m +:+ format_d 2 d in
  let year_dir := path_join base_dir (format_d 4 y) in
  let candidates := file_candidates_for_date fs base_dir y m d in
  has_magic year_dir = false
  ∧ (∀ path,
       path ∈ candidates
       ↔ ∃ name, name ∈ listdir fs year_dir ∧ path = path_join year_dir name
                 ∧ starts_with_dot name = false
                 ∧ ∃ a b, name = a +:+ ymd +:+ b +:+ ".nc")
  ∧ ((1 <= y <= 9999)%Z → (1 <= m <= 12)%Z → (1 <= d <= 31)%Z →
       String.length (format_d 4 y) = 4%nat ∧ String.length ymd = 8%nat)
  ∧ StronglySorted (cmp_lt String.compare) candidates
  ∧ NoDup candidates
  ∧ (∀ path ds,
       open_first fs candidates = Some (path, ds)
       ↔ ∃ pre post, candidates = pre ++ path :: post
                     ∧ (∀ p, p ∈ pre → open_dataset fs p = None)
                     ∧ open_dataset fs path = Some ds)
  ∧ (open_first fs candidates = None
     ↔ ∀ p, p ∈ candidates → open_dataset fs p = None).
Proof.
  intros Hmagic. cbv zeta.
  split; [apply year_dir_no_magic, Hmagic |].
  split; [intros path; apply file_candidates_spec |].
  split.
  { intros Hy Hm Hd. split; [apply format_d_width_4; lia |].
    rewrite !string_length_app, format_d_width_4, !format_d_width_2 by lia.
    reflexivity. }
  split; [apply (sorted_set_sorted String.compare) |].
  split; [apply (sorted_set_NoDup String.compare) |].
  split; [intros path ds; apply open_first_Some | apply open_first_None].
Qed.

Lemma C7_file_resolver_witness :
  has_magic "data" = false
  ∧ has_magic (path_join "data" (format_d 4 2020)) = false
  ∧ (∀ path,
       path ∈ file_candidates_for_date fs_three_names "data" 2020 3 15
       ↔ ∃ name,
           name ∈ listdir fs_three_names (path_join "data" (format_d 4 2020))
           ∧ path = path_join (path_join "data" (format_d 4 2020)) name
           ∧ starts_with_dot name = false
           ∧ ∃ a b, name = a +:+ (format_d 4 2020 +:+ format_d 2 3 +:+ format_d 2 15)
                             +:+ b +:+ ".nc")
  ∧ StronglySorted (cmp_lt String.compare)
      (file_candidates_for_date fs_three_names "data" 2020 3 15).
Proof.
  split; [reflexivity |].
  pose proof (C7_file_resolver fs_three_names "data" 2020 3 15 eq_refl) as H.
  cbv zeta in H. destruct H as (H1 & H2 & _ & H4 & _).
  split; [exact H1 |]. split; [exact H2 | exact H4].
Defined.

(** ** Writes to the data frame *)

Lemma at_set_present (ridx : nat) (col : string) (x : cell) (d : DataFrame) :
  col ∈ columns d →
  at_set ridx col x d
  = {| df_rows := df_rows d; columns := columns d;
       cells := <[(col, ridx) := x]> (cells d) |}.
Proof. intros H. unfold at_set. rewrite decide_True by exact H. reflexivity. Qed.

Lemma foldr_insert_nan_lookup (v : string) (m : gmap (string * nat) cell)
    (idx : list nat) (c : string) (i : nat) :
  foldr (fun i m => <[(v, i) := NaN]> m) m idx !! (c, i)
  = if decide (c = v ∧ (i ∈ idx)) then Some NaN else m !! (c, i).
Proof.
  induction idx as [|j idx IH]; cbn [foldr].
  - case_decide as H; [destruct H as [_ H]; inversion H | reflexivity].
  - pose proof (elem_of_cons idx i j) as Hcons.
    destruct (decide ((v, j) = (c, i))) as [[= -> ->]|Hne].
    + rewrite lookup_insert_eq.
      clear IH. case_decide; [reflexivity | exfalso; tauto].
    + rewrite lookup_insert_ne by exact Hne. rewrite IH. clear IH.
      repeat case_decide; try reflexivity; exfalso;
        intuition (subst; congruence).
Qed.

Lemma set_column_nan_lookup (v : string) (d : DataFrame) (c : string) (i : nat) :
  cells (set_column_nan v d) !! (c, i)
  = if decide (c = v ∧ (i < length (df_rows d))%nat) then Some NaN
    else cells d !! (c, i).
Proof.
  unfold set_column_nan. cbn [cells]. rewrite foldr_insert_nan_lookup.
  pose proof (elem_of_seq 0 (length (df_rows d)) i) as Hseq.
  repeat case_decide; try reflexivity; exfalso;
    match goal with
    | H : ¬ _ |- _ => apply H; split; [tauto |]
    end.
  - destruct H as [_ H]. apply Hseq in H. lia.
  - apply Hseq. lia.
Qed.

Lemma ensure_column_rows (v : string) (d : DataFrame) :
  df_rows (ensure_column v d) = df_rows d.
Proof. unfold ensure_column. destruct (decide _); reflexivity. Qed.

Lemma ensure_column_columns (v : string) (d : DataFrame) (c : string) :
  c ∈ columns (ensure_column v d) ↔ c = v ∨ c ∈ columns d.
Proof.
  unfold ensure_column. destruct (decide (v ∈ columns d)) as [H|H].
  - split; [auto | intros [->|?]; assumption].
  - simpl. destruct (decide (v ∈ columns d)) as [?|_]; [contradiction |].
    rewrite elem_of_app, list_elem_of_singleton. tauto.
Qed.

Lemma ensure_column_lookup (v : string) (d : DataFrame) (c : string) (i : nat) :
  cells (ensure_column v d) !! (c, i)
  = if decide (c = v ∧ (v ∉ columns d) ∧ (i < length (df_rows d))%nat)
    then Some NaN else cells d !! (c, i).
Proof.
  unfold ensure_column. destruct (decide (v ∈ columns d)) as [H|H].
  - case_decide; [exfalso; tauto | reflexivity].
  - rewrite set_column_nan_lookup.
    repeat case_decide; try reflexivity; exfalso; tauto.
Qed.

Lemma ensure_column_wf (v : string) (d : DataFrame) :
  wf_table d → wf_table (ensure_column v d).
Proof.
  intros Hwf c i Hc Hi. rewrite ensure_column_rows in Hi.
  rewrite ensure_column_lookup.
  case_decide as Hn; [eexists; reflexivity |].
  apply ensure_column_columns in Hc as [->|Hc]; [| apply Hwf; assumption].
  destruct (decide (v ∈ columns d)) as [Hv|Hv]; [apply Hwf; assumption |].
  exfalso. apply Hn. auto.
Qed.

(** What the preparation of a list of columns does to the table. *)
Lemma ensure_columns_spec (f : string → string) (vars : list string)
    (d : DataFrame) :
  let d' := foldl (fun d v => ensure_column (f v) d) d vars in
  df_rows d' = df_rows d
  ∧ (∀ c, c ∈ columns d' ↔ c ∈ columns d ∨ c ∈ map f vars)
  ∧ (wf_table d → wf_table d')
  ∧ (∀ c i, cells d' !! (c, i)
            = if decide ((c ∈ map f vars) ∧ (c ∉ columns d)
                         ∧ (i < length (df_rows d))%nat)
              then Some NaN else cells d !! (c, i)).
Proof.
  revert d. induction vars as [|v vars IH]; intros d.
  - cbn [foldl map].
    split; [reflexivity |]. split; [intros c; rewrite elem_of_nil; tauto |].
    split; [auto |]. intros c i.
    case_decide as H; [destruct H as [H _]; inversion H | reflexivity].
  - cbn [foldl map].
    destruct (IH (ensure_column (f v) d)) as (Hrows & Hcols & Hwf & Hcells).
    split; [rewrite Hrows; apply ensure_column_rows |].
    split.
    { intros c. rewrite Hcols, ensure_column_columns, elem_of_cons. tauto. }
    split; [intros H; apply Hwf, ensure_column_wf, H |].
    intros c i. rewrite Hcells, ensure_column_rows, ensure_column_lookup.
    pose proof (ensure_column_columns (f v) d c) as Hcc.
    pose proof (elem_of_cons (map f vars) c (f v)) as Hcons.
    destruct (decide (c = f v)) as [->|Hne];
      repeat case_decide; try reflexivity; exfalso; intuition congruence.
Qed.

Lemma out_name_plankton_map (vars : list string) :
  map (out_name Plankton) vars = vars.
Proof. induction vars as [|v vars IH]; simpl; [reflexivity | f_equal; exact IH]. Qed.

Lemma prepare_columns_spec (a : Args) (d : DataFrame) :
  let d' := prepare_columns a d in
  df_rows d' = df_rows d
  ∧ (∀ c, c ∈ columns d'
          ↔ c ∈ columns d ∨ c ∈ plankton_vars a
            ∨ c ∈ out_columns Optics (optics_vars a))
  ∧ (wf_table d → wf_table d')
  ∧ (∀ c i, c ∈ columns d → cells d' !! (c, i) = cells d !! (c, i))
  ∧ (∀ c i, c ∉ columns d →
            (c ∈ plankton_vars a ∨ c ∈ out_columns Optics (optics_vars a)) →
            (i < length (df_rows d))%nat → cells d' !! (c, i) = Some NaN).
Proof.
  unfold prepare_columns. cbv zeta.
  destruct (ensure_columns_spec (fun v => v) (plankton_vars a) d)
    as (Hr1 & Hc1 & Hw1 & Hl1).
  destruct (ensure_columns_spec (out_name Optics) (optics_vars a)
              (foldl (fun d v => ensure_column v d) d (plankton_vars a)))
    as (Hr2 & Hc2 & Hw2 & Hl2).
  rewrite map_id in Hc1, Hl1.
  split; [rewrite Hr2; exact Hr1 |].
  split; [intros c; rewrite Hc2, Hc1; unfold out_columns; tauto |].
  split; [auto |].
  split.
  - intros c i Hc. rewrite Hl2, Hl1.
    pose proof (Hc1 c).
    repeat case_decide; try reflexivity; exfalso; tauto.
  - intros c i Hc Hreq Hi. rewrite Hl2, Hl1, Hr1. unfold out_columns in Hreq.
    pose proof (Hc1 c).
    repeat case_decide; try reflexivity; exfalso; tauto.
Qed.

(** ** The merge of one product's day results *)

Lemma merge_values_spec (p : product) (vars : list string) (ridx : nat)
    (values : gmap string cell) (d : DataFrame) :
  (∀ v, v ∈ vars → out_name p v ∈ columns d) →
  let d' := merge_values p vars ridx values d in
  df_rows d' = df_rows d
  ∧ columns d' = columns d
  ∧ (∀ c i, i ≠ ridx ∨ c ∉ out_columns p vars →
            cells d' !! (c, i) = cells d !! (c, i))
  ∧ (∀ v, v ∈ vars →
          (∀ w, w ∈ vars → out_name p w = out_name p v → w = v) →
          cells d' !! (out_name p v, ridx) = Some (default NaN (values !! v)))
  ∧ (∀ k, is_Some (cells d !! k) → is_Some (cells d' !! k)).
Proof.
  unfold merge_values, out_columns. revert d.
  induction vars as [|v0 vars IH]; intros d Hcols; cbn [foldl map].
  - split; [reflexivity |]. split; [reflexivity |]. split; [reflexivity |].
    split; [intros v Hv; inversion Hv | auto].
  - assert (Hv0 : out_name p v0 ∈ columns d) by (apply Hcols; left).
    rewrite (at_set_present _ _ _ _ Hv0).
    set (d1 := {| df_rows := df_rows d; columns := columns d;
                  cells := <[(out_name p v0, ridx) := default NaN (values !! v0)]>
                             (cells d) |}).
    destruct (IH d1) as (Hrows & Hc & Hframe & Hwritten & Hsome).
    { intros v Hv. apply Hcols. right. exact Hv. }
    split; [exact Hrows |]. split; [exact Hc |]. split; [| split].
    + intros c i Hci. rewrite Hframe.
      * unfold d1. cbn [cells]. apply lookup_insert_ne.
        intros [= <- <-]. destruct Hci as [Hi|Hc']; [congruence |].
        apply Hc'. left.
      * destruct Hci as [Hi|Hc']; [left; exact Hi | right].
        intros Hin. apply Hc'. right. exact Hin.
    + intros v Hv Hinj.
      destruct (decide (v ∈ vars)) as [Hin|Hnin].
      * apply Hwritten; [exact Hin |].
        intros w Hw. apply Hinj. right. exact Hw.
      * apply elem_of_cons in Hv as [->|Hv]; [| contradiction].
        rewrite Hframe.
        -- unfold d1. cbn [cells]. apply lookup_insert_eq.
        -- right. intros Hin. apply list_elem_of_fmap in Hin as (w & Hw & Hwin).
           apply Hnin. rewrite <- (Hinj w); [exact Hwin | right; exact Hwin | auto].
    + intros k Hk. apply Hsome. unfold d1. cbn [cells].
      destruct (decide ((out_name p v0, ridx) = k)) as [<-|Hne].
      * rewrite lookup_insert_eq. eexists; reflexivity.
      * rewrite lookup_insert_ne by exact Hne. exact Hk.
Qed.

Lemma merge_results_spec (p : product) (vars : list string)
    (day_results : list (nat * gmap string cell)) (d : DataFrame) :
  (∀ v, v ∈ vars → out_name p v ∈ columns d) →
  let d' := merge_results p vars day_results d in
  df_rows d' = df_rows d
  ∧ columns d' = columns d
  ∧ (∀ c i, i ∉ map fst day_results ∨ c ∉ out_columns p vars →
            cells d' !! (c, i) = cells d !! (c, i))
  ∧ (NoDup (map fst day_results) →
     ∀ ridx values v, (ridx, values) ∈ day_results → v ∈ vars →
       (∀ w, w ∈ vars → out_name p w = out_name p v → w = v) →
       cells d' !! (out_name p v, ridx) = Some (default NaN (values !! v)))
  ∧ (∀ k, is_Some (cells d !! k) → is_Some (cells d' !! k)).
Proof.
  unfold merge_results. revert d.
  induction day_results as [|[r0 vals0] rest IH]; intros d Hcols; cbn [foldl map fst snd].
  - split; [reflexivity |]. split; [reflexivity |]. split; [reflexivity |].
    split; [intros _ ridx values v H; inversion H | auto].
  - destruct (merge_values_spec p vars r0 vals0 d Hcols)
      as (Hr1 & Hc1 & Hf1 & Hw1 & Hs1).
    destruct (IH (merge_values p vars r0 vals0 d)) as (Hr & Hc & Hf & Hw & Hs).
    { intros v Hv. rewrite Hc1. apply Hcols, Hv. }
    split; [rewrite Hr; exact Hr1 |]. split; [rewrite Hc; exact Hc1 |].
    split; [| split].
    + intros c i Hci. rewrite Hf, Hf1; [reflexivity | |].
      * destruct Hci as [Hi|Hc']; [left | right; exact Hc'].
        intros ->. apply Hi. left.
      * destruct Hci as [Hi|Hc']; [left | right; exact Hc'].
        intros Hin. apply Hi. right. exact Hin.
    + intros Hnd ridx values v Hin Hv Hinj.
      apply NoDup_cons in Hnd as [Hr0 Hnd].
      apply elem_of_cons in Hin as [[= -> ->]|Hin].
      * rewrite Hf; [apply Hw1; assumption | left; exact Hr0].
      * apply Hw; assumption.
    + intros k Hk. apply Hs, Hs1, Hk.
Qed.

(** ** The results of one day *)

Lemma rmapM_Ok {A B : Type} (f : A → result B) (l : list A) (l' : list B) :
  rmapM f l = Ok l' ↔ Forall2 (fun a b => f a = Ok b) l l'.
Proof.
  revert l'. induction l as [|a l IH]; intros l'; simpl.
  - split; [intros [= <-]; constructor | intros H; inversion H; reflexivity].
  - destruct (f a) as [b|e] eqn:Ea; simpl.
    + destruct (rmapM f l) as [bs|e] eqn:El; simpl.
      * split.
        -- intros [= <-]. constructor; [exact Ea | apply IH; reflexivity].
        -- intros H. inversion H as [|? b' ? bs' Hb Hbs]; subst.
           apply IH in Hbs. congruence.
      * split; [discriminate |].
        intros H. inversion H as [|? b' ? bs' Hb Hbs]; subst.
        apply IH in Hbs. discriminate.
    + split; [discriminate |].
      intros H. inversion H as [|? b' ? bs' Hb Hbs]; subst. congruence.
Qed.

Lemma process_row_label (ds : Dataset) (lat_vals lon_vals : list Q)
    (ti : option nat) (vars : list string) (tol : Q) (row : nat * Sample)
    (item : nat * gmap string cell) :
  process_row ds lat_vals lon_vals ti vars tol row = Ok item →
  item.1 = row.1 ∧ ∀ v, v ∈ vars → is_Some (item.2 !! v).
Proof.
  unfold process_row.
  destruct (adapt_query_lon _ _) as [qlon|]; [| discriminate]. cbn [rbind].
  destruct (nearest_index lat_vals _) as [ilat|]; [| discriminate]. cbn [rbind].
  destruct (nearest_index lon_vals _) as [ilon|]; [| discriminate]. cbn [rbind].
  destruct (index lat_vals ilat) as [nlat|]; [| discriminate]. cbn [rbind].
  destruct (index lon_vals ilon) as [nlon|]; [| discriminate]. cbn [rbind].
  destruct (out_of_tolerance _ _ _); intros [= <-]; (split; [reflexivity |]);
    intros v Hv; cbn [snd].
  - rewrite fill_nan_lookup, decide_True by exact Hv. eexists; reflexivity.
  - rewrite extract_vars_lookup, decide_True by exact Hv. eexists; reflexivity.
Qed.

Lemma process_one_day_Ok (ds : Dataset) (rows : list (nat * Sample))
    (vars : list string) (tol : Q) (results : list (nat * gmap string cell)) :
  process_one_day ds rows vars tol = Ok results →
  ∃ lat_vals lon_vals row0,
    ds_lat ds = Some lat_vals ∧ ds_lon ds = Some lon_vals
    ∧ rows !! O = Some row0
    ∧ Forall2 (fun row item =>
                 process_row ds lat_vals lon_vals
                   (compute_time_index ds (np_datetime (s_date row0.2)))
                   vars tol row = Ok item) rows results
    ∧ map fst results = map fst rows.
Proof.
  unfold process_one_day, coord_values, index.
  destruct (ds_lat ds) as [lat_vals|]; [| discriminate].
  destruct (ds_lon ds) as [lon_vals|]; [| discriminate]. cbn [rbind].
  destruct (rows !! O) as [row0|] eqn:E0; [| discriminate]. cbn [rbind].
  intros H. apply rmapM_Ok in H.
  exists lat_vals, lon_vals, row0. do 3 (split; [reflexivity |]).
  split; [exact H |].
  clear E0. induction H as [|row item rows' results' Hrow _ IH]; [reflexivity |].
  cbn [map]. rewrite IH. f_equal.
  apply process_row_label in Hrow as [-> _]. reflexivity.
Qed.

(** With both axes present and non-empty, the day never raises. *)
Lemma process_one_day_total (ds : Dataset) (rows : list (nat * Sample))
    (vars : list string) (tol : Q) (lat_vals lon_vals : list Q) :
  ds_lat ds = Some lat_vals → lat_vals ≠ [] →
  ds_lon ds = Some lon_vals → lon_vals ≠ [] →
  rows ≠ [] →
  ∃ results, process_one_day ds rows vars tol = Ok results.
Proof.
  intros Hlat Hlat' Hlon Hlon' Hrows.
  unfold process_one_day, coord_values, index. rewrite Hlat, Hlon. cbn [rbind].
  destruct rows as [|row0 rows']; [congruence |].
  cbn [lookup list_lookup rbind].
  set (f := process_row ds lat_vals lon_vals _ vars tol).
  assert (Hf : ∀ row, ∃ item, f row = Ok item).
  { intros [ridx s]. unfold f.
    destruct (process_row_resolves lat_vals lon_vals (s_lat s) (s_lon s) Hlat' Hlon')
      as (qlon & ilat & ilon & nlat & nlon & Hq & Hi & Hj & Hv & Hw).
    rewrite (process_row_eq ds _ _ _ vars tol ridx s _ _ _ _ _ Hq Hi Hj Hv Hw).
    eexists; reflexivity. }
  generalize (row0 :: rows'). intros l.
  induction l as [|row l IH]; [eexists; reflexivity |].
  simpl. destruct (Hf row) as [item ->]. destruct IH as [items ->].
  eexists; reflexivity.
Qed.

(** ** One product on one day-group *)

Lemma open_first_nil_candidates (fs : FileSystem) : open_first fs [] = None.
Proof. reflexivity. Qed.

(** The data frame after [process_product]. *)
Lemma process_product_df (fs : FileSystem) (a : Args) (p : product)
    (base_dir : string) (vars : list string) (gi total : nat)
    (day : Timestamp) (rows : list (nat * Sample)) (st : State) :
  (∀ v, v ∈ vars → out_name p v ∈ columns (df st)) →
  let candidates :=
    file_candidates_for_date fs base_dir (ts_year day) (ts_month day) (ts_day day) in
  match process_product fs a p base_dir vars gi total day rows st with
  | Done st' =>
      df_rows (df st') = df_rows (df st)
      ∧ columns (df st') = columns (df st)
      ∧ (∀ k, is_Some (cells (df st) !! k) → is_Some (cells (df st') !! k))
      ∧ (∀ c i, i ∉ map fst rows ∨ c ∉ out_columns p vars →
                cells (df st') !! (c, i) = cells (df st) !! (c, i))
      ∧ (open_first fs candidates = None → df st' = df st)
      ∧ (∀ path ds, open_first fs candidates = Some (path, ds) →
           NoDup (map fst rows) →
           ∃ lat_vals lon_vals row0,
             ds_lat ds = Some lat_vals ∧ ds_lon ds = Some lon_vals
             ∧ rows !! O = Some row0
             ∧ ∀ row, row ∈ rows →
                 ∃ res,
                   process_row ds lat_vals lon_vals
                     (compute_time_index ds (np_datetime (s_date row0.2)))
                     (filter (fun v => is_Some (data_vars ds !! v)) vars)
                     (tol_deg a) row = Ok (row.1, res)
                   ∧ ∀ v, v ∈ vars →
                       (∀ w, w ∈ vars → out_name p w = out_name p v → w = v) →
                       cells (df st') !! (out_name p v, row.1)
                       = Some (default NaN (res !! v)))
  | Aborted e st' =>
      df st' = df st
      ∧ ∃ path ds, open_first fs candidates = Some (path, ds)
                   ∧ process_one_day ds rows
                       (filter (fun v => is_Some (data_vars ds !! v)) vars)
                       (tol_deg a) = Raise e
  end.
Proof.
  intros Hcols. cbv zeta. unfold process_product.
  set (candidates := file_candidates_for_date fs base_dir _ _ _).
  assert (Hsame : ∀ st0 : State, df st0 = df st →
            df_rows (df st0) = df_rows (df st)
            ∧ columns (df st0) = columns (df st)
            ∧ (∀ k, is_Some (cells (df st) !! k) → is_Some (cells (df st0) !! k))
            ∧ (∀ c i, i ∉ map fst rows ∨ c ∉ out_columns p vars →
                      cells (df st0) !! (c, i) = cells (df st) !! (c, i))).
  { intros st0 ->. auto. }
  destruct candidates as [|c0 cands] eqn:Ec.
  - destruct (Hsame (emit (EvPrint (MsgNoFile gi total day p)) st) eq_refl)
      as (? & ? & ? & ?).
    do 4 (split; [assumption |]). split; [reflexivity |].
    intros path ds Hopen. discriminate.
  - destruct (open_first fs (c0 :: cands)) as [[path ds]|] eqn:Eo.
    + set (present := filter (fun v => is_Some (data_vars ds !! v)) vars).
      set (st1 := match filter (fun v => ¬ is_Some (data_vars ds !! v)) vars with
                  | [] => emit (EvOpen path) st
                  | _ :: _ => emit (EvPrint _) (emit (EvOpen path) st)
                  end).
      assert (Hdf1 : df st1 = df st).
      { unfold st1.
        destruct (filter (fun v => ¬ is_Some (data_vars ds !! v)) vars); reflexivity. }
      destruct (process_one_day ds rows present (tol_deg a)) as [results|e] eqn:Ep.
      * cbn [df emit set_df]. rewrite Hdf1.
        destruct (merge_results_spec p vars results (df st) Hcols)
          as (Hr & Hc & Hf & Hw & Hs).
        destruct (process_one_day_Ok _ _ _ _ _ Ep)
          as (lat_vals & lon_vals & row0 & Hlat & Hlon & H0 & Hall & Hfst).
        split; [exact Hr |]. split; [exact Hc |]. split; [exact Hs |].
        split; [intros c i Hci; apply Hf; rewrite Hfst; exact Hci |].
        split; [discriminate |].
        intros path' ds' [= <- <-] Hnd.
        exists lat_vals, lon_vals, row0. do 3 (split; [assumption |]).
        intros row Hrow.
        apply list_elem_of_lookup in Hrow as [j Hj].
        destruct (Forall2_lookup_l _ _ _ _ _ Hall Hj) as (item & Hitem & Hproc).
        destruct (process_row_label _ _ _ _ _ _ _ _ Hproc) as [Hlabel _].
        destruct item as [r res]. cbn [fst snd] in Hlabel. subst r.
        exists res. split; [exact Hproc |].
        intros v Hv Hinj. apply (Hw ltac:(rewrite Hfst; exact Hnd)); try assumption.
        apply list_elem_of_lookup. eauto.
      * split; [exact Hdf1 |]. exists path, ds. auto.
    + destruct (Hsame (emit (EvPrint (MsgCouldNotOpen gi total day p)) st) eq_refl)
        as (? & ? & ? & ?).
      do 4 (split; [assumption |]). split; [reflexivity |].
      intros path ds Hopen. discriminate.
Qed.

(** ** One day-group *)

Lemma out_columns_plankton (vars : list string) :
  out_columns Plankton vars = vars.
Proof. apply out_name_plankton_map. Qed.

(** Whatever the outcome of a group, the table keeps its rows and columns,
    no cell disappears, and the rows of other groups are untouched. *)
Lemma process_group_frame (fs : FileSystem) (a : Args) (total gi : nat)
    (group : Timestamp * list (nat * Sample)) (st : State) :
  (∀ v, v ∈ plankton_vars a → v ∈ columns (df st)) →
  (∀ w, w ∈ optics_vars a → out_name Optics w ∈ columns (df st)) →
  let st' := final_state (process_group fs a total gi group st) in
  df_rows (df st') = df_rows (df st)
  ∧ columns (df st') = columns (df st)
  ∧ (∀ k, is_Some (cells (df st) !! k) → is_Some (cells (df st') !! k))
  ∧ (∀ c i, i ∉ map fst group.2 → cells (df st') !! (c, i) = cells (df st) !! (c, i)).
Proof.
  intros Hp Ho. cbv zeta. unfold process_group.
  pose proof (process_product_df fs a Plankton (plankton_base_dir a)
                (plankton_vars a) gi total group.1 group.2
                (emit (EvGroup gi) st) Hp) as H1.
  cbv zeta in H1.
  destruct (process_product fs a Plankton _ _ _ _ _ _ _) as [st1|e st1];
    cbn [run_bind final_state].
  - destruct H1 as (Hr1 & Hc1 & Hs1 & Hf1 & _).
    cbn [df emit] in Hr1, Hc1, Hs1, Hf1.
    destruct (optics_configured a) as [optics_dir|].
    + assert (Ho1 : ∀ w, w ∈ optics_vars a → out_name Optics w ∈ columns (df st1))
        by (intros w Hw; rewrite Hc1; apply Ho, Hw).
      pose proof (process_product_df fs a Optics optics_dir (optics_vars a)
                    gi total group.1 group.2 st1 Ho1) as H2.
      cbv zeta in H2.
      destruct (process_product fs a Optics _ _ _ _ _ _ _) as [st2|e st2];
        cbn [run_bind final_state df emit].
      * destruct H2 as (Hr2 & Hc2 & Hs2 & Hf2 & _).
        split; [congruence |]. split; [congruence |]. split; [auto |].
        intros c i Hi. rewrite Hf2, Hf1; auto.
      * destruct H2 as [-> _]. split; [congruence |]. split; [congruence |].
        split; [auto |]. intros c i Hi. apply Hf1. auto.
    + cbn [run_bind final_state df emit].
      split; [congruence |]. split; [congruence |]. split; [auto |].
      intros c i Hi. apply Hf1. auto.
  - destruct H1 as [-> _]. cbn [df emit]. auto.
Qed.

(** The cells a completed group leaves for each product. *)
Lemma process_group_cells (fs : FileSystem) (a : Args) (total gi : nat)
    (day : Timestamp) (rows : list (nat * Sample)) (st st' : State) :
  (∀ v, v ∈ plankton_vars a → v ∈ columns (df st)) →
  (∀ w, w ∈ optics_vars a → out_name Optics w ∈ columns (df st)) →
  NoDup (map fst rows) → rows ≠ [] → (∀ row, row ∈ rows → s_date row.2 = day) →
  process_group fs a total gi (day, rows) st = Done st' →
  (∀ v, v ∈ plankton_vars a →
        (optics_configured a ≠ None → v ∉ out_columns Optics (optics_vars a)) →
        product_outcome fs a Plankton (plankton_base_dir a) (plankton_vars a)
          day rows (df st) (df st') v)
  ∧ (∀ optics_dir w, optics_configured a = Some optics_dir →
        w ∈ optics_vars a → out_name Optics w ∉ plankton_vars a →
        (∀ w', w' ∈ optics_vars a → out_name Optics w' = out_name Optics w → w' = w) →
        product_outcome fs a Optics optics_dir (optics_vars a)
          day rows (df st) (df st') w)
  ∧ (optics_configured a = None →
     ∀ c i, c ∉ plankton_vars a → cells (df st') !! (c, i) = cells (df st) !! (c, i)).
Proof.
  intros Hp Ho Hnd Hne Hday. unfold process_group. cbn [fst snd].
  pose proof (process_product_df fs a Plankton (plankton_base_dir a)
                (plankton_vars a) gi total day rows
                (emit (EvGroup gi) st) Hp) as H1.
  cbv zeta in H1.
  destruct (process_product fs a Plankton _ _ _ _ _ _ _) as [st1|e st1];
    cbn [run_bind]; [| discriminate].
  destruct H1 as (Hr1 & Hc1 & Hs1 & Hf1 & Hnone1 & Hsome1).
  cbn [df emit] in Hr1, Hc1, Hs1, Hf1, Hnone1, Hsome1.
  assert (Hrow0 : ∀ row0, rows !! O = Some row0 → s_date row0.2 = day).
  { intros row0 H0. apply Hday. apply list_elem_of_lookup. eauto. }
  (* what the plankton step leaves, before the optics step *)
  assert (Hplank : ∀ v, v ∈ plankton_vars a →
            product_outcome fs a Plankton (plankton_base_dir a) (plankton_vars a)
              day rows (df st) (df st1) v).
  { intros v Hv. split.
    - intros Hnone row _. rewrite (Hnone1 Hnone). reflexivity.
    - intros path ds Hopen.
      destruct (Hsome1 path ds Hopen Hnd)
        as (lat_vals & lon_vals & row0 & Hlat & Hlon & H0 & Hrows).
      exists lat_vals, lon_vals. do 2 (split; [assumption |]).
      intros row Hrow. destruct (Hrows row Hrow) as (res & Hres & Hcell).
      exists res. rewrite <- (Hrow0 row0 H0). split; [exact Hres |].
      apply Hcell; [exact Hv | auto]. }
  destruct (optics_configured a) as [optics_dir|] eqn:Eopt.
  - assert (Ho1 : ∀ w, w ∈ optics_vars a → out_name Optics w ∈ columns (df st1))
      by (intros w Hw; rewrite Hc1; apply Ho, Hw).
    pose proof (process_product_df fs a Optics optics_dir (optics_vars a)
                  gi total day rows st1 Ho1) as H2.
    cbv zeta in H2.
    destruct (process_product fs a Optics _ _ _ _ _ _ _) as [st2|e st2];
      cbn [run_bind]; [| discriminate].
    destruct H2 as (Hr2 & Hc2 & Hs2 & Hf2 & Hnone2 & Hsome2).
    intros [= <-]. cbn [df emit].
    split; [| split; [| discriminate]].
    + intros v Hv Hdisj. specialize (Hdisj ltac:(discriminate)).
      destruct (Hplank v Hv) as [Hn Hs]. split.
      * intros Hnone row Hrow. rewrite Hf2 by (right; exact Hdisj).
        apply Hn; assumption.
      * intros path ds Hopen.
        destruct (Hs path ds Hopen) as (lat_vals & lon_vals & Hlat & Hlon & Hrows).
        exists lat_vals, lon_vals. do 2 (split; [assumption |]).
        intros row Hrow. destruct (Hrows row Hrow) as (res & Hres & Hcell).
        exists res. split; [exact Hres |].
        rewrite Hf2 by (right; exact Hdisj). exact Hcell.
    + intros optics_dir' w [= <-] Hw Hdisj Hinj. split.
      * intros Hnone row Hrow. rewrite (Hnone2 Hnone).
        apply Hf1. right. rewrite out_columns_plankton. exact Hdisj.
      * intros path ds Hopen.
        destruct (Hsome2 path ds Hopen Hnd)
          as (lat_vals & lon_vals & row0 & Hlat & Hlon & H0 & Hrows).
        exists lat_vals, lon_vals. do 2 (split; [assumption |]).
        intros row Hrow. destruct (Hrows row Hrow) as (res & Hres & Hcell).
        exists res. rewrite <- (Hrow0 row0 H0). split; [exact Hres |].
        apply Hcell; assumption.
  - cbn [run_bind]. intros [= <-]. cbn [df emit].
    split; [| split; [discriminate |]].
    + intros v Hv _. apply Hplank, Hv.
    + intros _ c i Hc. apply Hf1. right. rewrite out_columns_plankton. exact Hc.
Qed.

(** ** The loop over the day-groups *)

Lemma process_groups_frame (fs : FileSystem) (a : Args) (total : nat)
    (groups : list (Timestamp * list (nat * Sample))) :
  ∀ gi st,
    (∀ v, v ∈ plankton_vars a → v ∈ columns (df st)) →
    (∀ w, w ∈ optics_vars a → out_name Optics w ∈ columns (df st)) →
    let st' := final_state (process_groups fs a total gi groups st) in
    df_rows (df st') = df_rows (df st)
    ∧ columns (df st') = columns (df st)
    ∧ (∀ k, is_Some (cells (df st) !! k) → is_Some (cells (df st') !! k))
    ∧ (∀ c i, (∀ g, g ∈ groups → i ∉ map fst g.2) →
              cells (df st') !! (c, i) = cells (df st) !! (c, i)).
Proof.
  induction groups as [|g rest IH]; intros gi st Hp Ho; cbn [process_groups].
  - cbn [final_state]. auto.
  - destruct (process_group_frame fs a total gi g st Hp Ho) as (Hr1 & Hc1 & Hs1 & Hf1).
    destruct (process_group fs a total gi g st) as [st1|e st1];
      cbn [run_bind final_state] in *.
    + destruct (IH (S gi) st1) as (Hr & Hc & Hs & Hf).
      { intros v Hv. rewrite Hc1. apply Hp, Hv. }
      { intros w Hw. rewrite Hc1. apply Ho, Hw. }
      cbv zeta in Hr, Hc, Hs, Hf.
      split; [congruence |]. split; [congruence |]. split; [auto |].
      intros c i Hi. rewrite Hf, Hf1; [reflexivity | |].
      * apply Hi. left.
      * intros g' Hg'. apply Hi. right. exact Hg'.
    + split; [exact Hr1 |]. split; [exact Hc1 |]. split; [exact Hs1 |].
      intros c i Hi. apply Hf1, Hi. left.
Qed.

Lemma product_outcome_frame (fs : FileSystem) (a : Args) (p : product)
    (base_dir : string) (vars : list string) (day : Timestamp)
    (rows : list (nat * Sample)) (before before' after after' : DataFrame)
    (v : string) :
  (∀ row, row ∈ rows →
     cells before' !! (out_name p v, row.1) = cells before !! (out_name p v, row.1)) →
  (∀ row, row ∈ rows →
     cells after' !! (out_name p v, row.1) = cells after !! (out_name p v, row.1)) →
  product_outcome fs a p base_dir vars day rows before after v →
  product_outcome fs a p base_dir vars day rows before' after' v.
Proof.
  intros Hb Ha [Hn Hs]. split.
  - intros Hnone row Hrow. rewrite Ha, Hb by exact Hrow. apply Hn; assumption.
  - intros path ds Hopen.
    destruct (Hs path ds Hopen) as (lat_vals & lon_vals & Hlat & Hlon & Hrows).
    exists lat_vals, lon_vals. do 2 (split; [assumption |]).
    intros row Hrow. destruct (Hrows row Hrow) as (res & Hres & Hcell).
    exists res. split; [exact Hres |]. rewrite Ha by exact Hrow. exact Hcell.
Qed.

Lemma process_groups_cells (fs : FileSystem) (a : Args) (total : nat)
    (groups : list (Timestamp * list (nat * Sample))) :
  ∀ gi st st',
    (∀ v, v ∈ plankton_vars a → v ∈ columns (df st)) →
    (∀ w, w ∈ optics_vars a → out_name Optics w ∈ columns (df st)) →
    groups_ok groups → disjoint_groups groups →
    process_groups fs a total gi groups st = Done st' →
    ∀ day rows, (day, rows) ∈ groups →
      (∀ v, v ∈ plankton_vars a →
            (optics_configured a ≠ None → v ∉ out_columns Optics (optics_vars a)) →
            product_outcome fs a Plankton (plankton_base_dir a) (plankton_vars a)
              day rows (df st) (df st') v)
      ∧ (∀ optics_dir w, optics_configured a = Some optics_dir →
            w ∈ optics_vars a → out_name Optics w ∉ plankton_vars a →
            (∀ w', w' ∈ optics_vars a → out_name Optics w' = out_name Optics w →
                   w' = w) →
            product_outcome fs a Optics optics_dir (optics_vars a)
              day rows (df st) (df st') w)
      ∧ (optics_configured a = None →
         ∀ c row, row ∈ rows → c ∉ plankton_vars a →
           cells (df st') !! (c, row.1) = cells (df st) !! (c, row.1)).
Proof.
  induction groups as [|g rest IH]; intros gi st st' Hp Ho Hok Hdis Hrun day rows Hin.
  - inversion Hin.
  - cbn [process_groups] in Hrun.
    destruct (process_group_frame fs a total gi g st Hp Ho) as (Hr1 & Hc1 & Hs1 & Hf1).
    destruct (process_group fs a total gi g st) as [st1|e st1] eqn:Eg;
      cbn [run_bind final_state] in *; [| discriminate].
    assert (Hp1 : ∀ v, v ∈ plankton_vars a → v ∈ columns (df st1))
      by (intros v Hv; rewrite Hc1; apply Hp, Hv).
    assert (Ho1 : ∀ w, w ∈ optics_vars a → out_name Optics w ∈ columns (df st1))
      by (intros w Hw; rewrite Hc1; apply Ho, Hw).
    destruct Hdis as [Hdis1 Hdis].
    assert (Hok' : groups_ok rest) by (intros g' Hg'; apply Hok; right; exact Hg').
    pose proof (process_groups_frame fs a total rest (S gi) st1 Hp1 Ho1)
      as (_ & _ & _ & Hfr).
    rewrite Hrun in Hfr. cbn [final_state] in Hfr.
    apply elem_of_cons in Hin as [<-|Hin].
    + (* the group itself: the later groups leave its rows alone *)
      destruct (Hok (day, rows) ltac:(left)) as (Hnd & Hne & Hday).
      cbn [fst snd] in Hnd, Hne, Hday.
      destruct (process_group_cells fs a total gi day rows st st1 Hp Ho Hnd Hne Hday Eg)
        as (Hpl & Hop & Hnone).
      assert (Hlater : ∀ c row, row ∈ rows →
                cells (df st') !! (c, row.1) = cells (df st1) !! (c, row.1)).
      { intros c row Hrow. apply Hfr. intros g' Hg'.
        apply (Hdis1 g' row.1 Hg'). cbn [snd].
        apply list_elem_of_fmap. exists row. auto. }
      split; [| split].
      * intros v Hv Hd. eapply product_outcome_frame; [| | apply Hpl; assumption].
        -- reflexivity.
        -- intros row Hrow. apply Hlater, Hrow.
      * intros optics_dir w Hc Hw Hd Hinj.
        eapply product_outcome_frame; [| | eapply Hop; eassumption].
        -- reflexivity.
        -- intros row Hrow. apply Hlater, Hrow.
      * intros Hnc c row Hrow Hc. rewrite Hlater by exact Hrow. apply Hnone; assumption.
    + (* a later group: the first group leaves its rows alone *)
      assert (Hearlier : ∀ c row, row ∈ rows →
                cells (df st1) !! (c, row.1) = cells (df st) !! (c, row.1)).
      { intros c row Hrow. apply Hf1. intros Hi.
        apply (Hdis1 (day, rows) row.1 Hin Hi). cbn [snd].
        apply list_elem_of_fmap. exists row. auto. }
      destruct (IH (S gi) st1 st' Hp1 Ho1 Hok' Hdis Hrun day rows Hin)
        as (Hpl & Hop & Hnone).
      split; [| split].
      * intros v Hv Hd. eapply product_outcome_frame; [| | apply Hpl; assumption].
        -- intros row Hrow. symmetry. apply Hearlier, Hrow.
        -- reflexivity.
      * intros optics_dir w Hc Hw Hd Hinj.
        eapply product_outcome_frame; [| | eapply Hop; eassumption].
        -- intros row Hrow. symmetry. apply Hearlier, Hrow.
        -- reflexivity.
      * intros Hnc c row Hrow Hc. rewrite Hnone by assumption.
        apply Hearlier, Hrow.
Qed.

(** ** The groups of a table *)

Lemma elem_of_iterrows (d : DataFrame) (i : nat) (s : Sample) :
  (i, s) ∈ iterrows d ↔ df_rows d !! i = Some s.
Proof.
  unfold iterrows. rewrite elem_of_lookup_imap. split.
  - intros (j & y & [= -> ->] & H). exact H.
  - intros H. exists i, s. auto.
Qed.

Lemma iterrows_labels (d : DataFrame) :
  map fst (iterrows d) = seq 0 (length (df_rows d)).
Proof.
  unfold iterrows. change (map fst) with (fmap (M := list) (@fst nat Sample)).
  rewrite fmap_imap. unfold compose. cbn [fst].
  apply list_eq. intros i. rewrite list_lookup_imap.
  destruct (df_rows d !! i) as [s|] eqn:E; simpl.
  - symmetry. apply lookup_seq. split; [reflexivity |].
    eapply lookup_lt_Some. exact E.
  - symmetry. apply lookup_ge_None. rewrite length_seq.
    apply lookup_ge_None in E. exact E.
Qed.

Lemma filter_labels_NoDup (P : nat * Sample → Prop) `{∀ r, Decision (P r)}
    (rows : list (nat * Sample)) :
  NoDup (map fst rows) → NoDup (map fst (filter P rows)).
Proof.
  induction rows as [|r rows IH]; [intros _; constructor |].
  cbn [map]. intros Hnd. apply NoDup_cons in Hnd as [Hr Hnd].
  rewrite filter_cons. destruct (decide (P r)); [| apply IH, Hnd].
  cbn [map]. apply NoDup_cons. split; [| apply IH, Hnd].
  intros Hin. apply Hr.
  apply list_elem_of_fmap in Hin as (r' & -> & Hr').
  apply list_elem_of_filter in Hr' as [_ Hr'].
  apply list_elem_of_fmap. exists r'. auto.
Qed.

Lemma groupby_date_ok (rows : list (nat * Sample)) :
  NoDup (map fst rows) →
  groups_ok (groupby_date rows) ∧ disjoint_groups (groupby_date rows).
Proof.
  intros Hnd. split.
  - intros [day grows] Hg. cbn [fst snd].
    destruct (groupby_date_group _ _ _ Hg) as (-> & Hne & Hrows).
    split; [apply filter_labels_NoDup, Hnd |]. split; [exact Hne |].
    intros row Hrow. apply Hrows, Hrow.
  - unfold groupby_date.
    pose proof (sorted_set_NoDup ts_compare (map (fun r => s_date r.2) rows)) as Hkeys.
    induction Hkeys as [|day keys Hday _ IH]; cbn [map disjoint_groups]; [exact I |].
    split; [| exact IH].
    intros g' i Hg' Hi Hi'. cbn [snd] in Hi.
    apply list_elem_of_fmap in Hg' as (day' & -> & Hday'). cbn [snd] in Hi'.
    apply list_elem_of_fmap in Hi as ([i1 s1] & -> & H1).
    apply list_elem_of_fmap in Hi' as ([i2 s2] & Heq & H2). cbn [fst] in Heq. subst i2.
    apply list_elem_of_filter in H1 as [Hd1 H1].
    apply list_elem_of_filter in H2 as [Hd2 H2]. cbn [snd] in Hd1, Hd2.
    assert (s1 = s2).
    { apply list_elem_of_lookup in H1 as [j1 H1], H2 as [j2 H2].
      assert (j1 = j2).
      { eapply NoDup_lookup; [exact Hnd | |].
        - rewrite list_lookup_fmap, H1. reflexivity.
        - rewrite list_lookup_fmap, H2. reflexivity. }
      subst j2. congruence. }
    subst s2. apply Hday. rewrite <- Hd1, Hd2. exact Hday'.
Qed.

(** ** The whole run *)

Lemma iterrows_prepare (a : Args) (table : DataFrame) :
  iterrows (prepare_columns a table) = iterrows table.
Proof.
  unfold iterrows.
  destruct (prepare_columns_spec a table) as (-> & _). reflexivity.
Qed.

Lemma iterrows_NoDup (d : DataFrame) : NoDup (map fst (iterrows d)).
Proof. rewrite iterrows_labels. apply NoDup_seq. Qed.

Lemma prepared_columns (a : Args) (table : DataFrame) :
  (∀ v, v ∈ plankton_vars a → v ∈ columns (prepare_columns a table))
  ∧ (∀ w, w ∈ optics_vars a →
          out_name Optics w ∈ columns (prepare_columns a table)).
Proof.
  destruct (prepare_columns_spec a table) as (_ & Hc & _).
  split.
  - intros v Hv. apply Hc. auto.
  - intros w Hw. apply Hc. right; right. unfold out_columns.
    apply list_elem_of_fmap. exists w. auto.
Qed.

Lemma out_name_optics_flags :
  out_name Optics "flags" = "flags_optics"%string
  ∧ out_name Plankton "flags" = "flags"%string
  ∧ ∀ v, v ≠ "flags"%string → out_name Optics v = v.
Proof.
  split; [reflexivity |]. split; [reflexivity |].
  intros v Hv. unfold out_name, RENAME_OUT.
  rewrite lookup_singleton_ne; [reflexivity |]. congruence.
Qed.

(** ** C2: an entry for every requested variable *)

(** C2: whatever the files, the datasets and the matches, and whether the
    run ends or is cut short, the data frame keeps every sample and holds,
    for every sample and every requested variable of the plankton and of the
    optics product, a column with a cell for that sample; the cell is a
    finite number or the [np.nan] marker.  The dictionary that
    [process_one_day] builds for a row likewise has an entry for every
    variable it was asked for. *)
Theorem C2_every_requested_entry_present (fs : FileSystem) (a : Args)
    (table : DataFrame) :
  wf_table table →
  let st := final_state (main fs a table) in
  df_rows (df st) = df_rows table
  ∧ (∀ i, (i < length (df_rows table))%nat →
       (∀ v, v ∈ plankton_vars a →
             v ∈ columns (df st)
             ∧ ∃ c, cells (df st) !! (v, i) = Some c ∧ (c = NaN ∨ ∃ q, c = Num q))
       ∧ (∀ w, w ∈ optics_vars a →
             out_name Optics w ∈ columns (df st)
             ∧ ∃ c, cells (df st) !! (out_name Optics w, i) = Some c
                    ∧ (c = NaN ∨ ∃ q, c = Num q)))
  ∧ (∀ ds lat_vals lon_vals time_index var_names tol row item,
       process_row ds lat_vals lon_vals time_index var_names tol row = Ok item →
       ∀ v, v ∈ var_names → ∃ c, item.2 !! v = Some c ∧ (c = NaN ∨ ∃ q, c = Num q)).
Proof.
  intros Hwf. cbv zeta. unfold main.
  destruct (prepare_columns_spec a table) as (Hrows & Hcols & Hwf' & _).
  destruct (prepared_columns a table) as [Hp Ho].
  set (d := prepare_columns a table) in *.
  pose proof (process_groups_frame fs a (length (groupby_date (iterrows d)))
                (groupby_date (iterrows d)) 1
                {| df := d; trace := [EvPrint (MsgProcessing
                                                 (length (groupby_date (iterrows d))))] |}
                Hp Ho) as (Hr & Hc & Hs & _).
  cbn [df] in Hr, Hc, Hs.
  set (st := final_state _) in *.
  assert (Hcell : ∀ c i, c ∈ columns d → (i < length (df_rows table))%nat →
            c ∈ columns (df st)
            ∧ ∃ x, cells (df st) !! (c, i) = Some x ∧ (x = NaN ∨ ∃ q, x = Num q)).
  { intros c i Hc' Hi. split; [rewrite Hc; exact Hc' |].
    destruct (Hs (c, i)) as [x Hx].
    - apply (Hwf' Hwf); [exact Hc' | rewrite Hrows; exact Hi].
    - exists x. split; [exact Hx |]. destruct x as [q|]; eauto. }
  split; [rewrite Hr; exact Hrows |]. split.
  - intros i Hi. split.
    + intros v Hv. apply Hcell; [apply Hp, Hv | exact Hi].
    + intros w Hw. apply Hcell; [apply Ho, Hw | exact Hi].
  - intros ds lat_vals lon_vals ti vars tol row item Hitem v Hv.
    destruct (process_row_label _ _ _ _ _ _ _ _ Hitem) as [_ Hall].
    destruct (Hall v Hv) as [x Hx]. exists x. split; [exact Hx |].
    destruct x as [q|]; eauto.
Qed.

Lemma C2_every_requested_entry_present_witness :
  wf_table table_one
  ∧ let st := final_state (main fs_optics_only args_default table_one) in
    df_rows (df st) = df_rows table_one
    ∧ (∀ i, (i < length (df_rows table_one))%nat →
         (∀ v, v ∈ plankton_vars args_default →
               v ∈ columns (df st)
               ∧ ∃ c, cells (df st) !! (v, i) = Some c ∧ (c = NaN ∨ ∃ q, c = Num q))
         ∧ (∀ w, w ∈ optics_vars args_default →
               out_name Optics w ∈ columns (df st)
               ∧ ∃ c, cells (df st) !! (out_name Optics w, i) = Some c
                      ∧ (c = NaN ∨ ∃ q, c = Num q)))
    ∧ (∀ ds lat_vals lon_vals time_index var_names tol row item,
         process_row ds lat_vals lon_vals time_index var_names tol row = Ok item →
         ∀ v, v ∈ var_names →
           ∃ c, item.2 !! v = Some c ∧ (c = NaN ∨ ∃ q, c = Num q)).
Proof.
  assert (Hwf : wf_table table_one).
  { intros c i Hc. simpl in Hc. inversion Hc. }
  split; [exact Hwf |].
  exact (C2_every_requested_entry_present fs_optics_only args_default table_one Hwf).
Defined.

(** ** C9: the two products *)

(** C9, as stated, fails.  When both products are asked for the raw name
    CHL, the plankton product has no file for the day and the optics product
    has one, the column CHL of the sample holds the optics value 0.42: the
    output column of the unavailable plankton product does not hold
    [np.nan]. *)
Lemma C9_shared_column_is_overwritten :
  let st := final_state (main fs_one_file args_both_chl table_one) in
  main fs_one_file args_both_chl table_one = Done st
  ∧ "CHL"%string ∈ plankton_vars args_both_chl
  ∧ out_name Plankton "CHL" = out_name Optics "CHL"
  ∧ open_first fs_one_file
      (file_candidates_for_date fs_one_file (plankton_base_dir args_both_chl)
         2020 3 15) = None
  ∧ cells (df st) !! ("CHL"%string, O) = Some (Num (42 # 100))
  ∧ cells (df st) !! ("CHL"%string, O) ≠ Some NaN.
Proof.
  cbv zeta.
  split; [vm_compute; reflexivity |].
  split; [left |].
  split; [reflexivity |].
  split; [vm_compute; reflexivity |].
  assert (E : cells (df (final_state (main fs_one_file args_both_chl table_one)))
              !! ("CHL"%string, O) = Some (Num (42 # 100)))
    by (vm_compute; reflexivity).
  rewrite E. split; [reflexivity | discriminate].
Qed.

Lemma defaults_collision_free :
  (∀ v w, v ∈ DEFAULT_PLANKTON_VARS → w ∈ DEFAULT_OPTICS_VARS →
          v ≠ out_name Optics w)
  ∧ (∀ w w', w ∈ DEFAULT_OPTICS_VARS → w' ∈ DEFAULT_OPTICS_VARS →
             out_name Optics w' = out_name Optics w → w' = w).
Proof.
  split.
  - assert (H : Forall (fun v => Forall (fun w => v ≠ out_name Optics w)
                                        DEFAULT_OPTICS_VARS)
                       DEFAULT_PLANKTON_VARS).
    { apply (bool_decide_unpack _). vm_compute. reflexivity. }
    intros v w Hv Hw. rewrite Forall_forall in H.
    specialize (H v Hv). rewrite Forall_forall in H. exact (H w Hw).
  - assert (H : Forall (fun w => Forall (fun w' =>
                          out_name Optics w' = out_name Optics w → w' = w)
                          DEFAULT_OPTICS_VARS)
                       DEFAULT_OPTICS_VARS).
    { apply (bool_decide_unpack _). vm_compute. reflexivity. }
    intros w w' Hw Hw'. rewrite Forall_forall in H.
    specialize (H w Hw). rewrite Forall_forall in H. exact (H w' Hw').
Qed.

(** C9 (amended): provided no output column is shared - no plankton
    variable has the output name of an optics variable, and no two optics
    variables have the same output name, as is the case for the default
    lists - each product's columns depend on that product's own resolution
    only, in every completed run and for every day-group and sample.  If no
    candidate of the product opens for the day, the sample's cell in the
    product's column is [np.nan] when the input table had no such column
    (and the input cell otherwise); if a candidate opens, the cell is the
    value [process_one_day] resolves for the sample in that dataset (the
    extracted value, or [np.nan] for an absent variable, a rejected match
    or an invalid read).  The optics "flags" goes to "flags_optics", the
    plankton "flags" and every other name keep the raw name. *)
Theorem C9_products_independent (fs : FileSystem) (a : Args)
    (table : DataFrame) (st : State) :
  main fs a table = Done st →
  (∀ v w, v ∈ plankton_vars a → w ∈ optics_vars a → v ≠ out_name Optics w) →
  (∀ w w', w ∈ optics_vars a → w' ∈ optics_vars a →
           out_name Optics w' = out_name Optics w → w' = w) →
  (out_name Optics "flags" = "flags_optics"%string
   ∧ out_name Plankton "flags" = "flags"%string
   ∧ ∀ v, v ≠ "flags"%string → out_name Optics v = v)
  ∧ ∀ p base_dir vars,
      (p = Plankton ∧ base_dir = plankton_base_dir a ∧ vars = plankton_vars a)
      ∨ (p = Optics ∧ optics_configured a = Some base_dir ∧ vars = optics_vars a) →
      ∀ day rows ridx s v,
        (day, rows) ∈ groupby_date (iterrows table) → (ridx, s) ∈ rows → v ∈ vars →
        let candidates :=
          file_candidates_for_date fs base_dir (ts_year day) (ts_month day)
            (ts_day day) in
        (open_first fs candidates = None →
           (out_name p v ∉ columns table →
              cells (df st) !! (out_name p v, ridx) = Some NaN)
           ∧ (out_name p v ∈ columns table →
              cells (df st) !! (out_name p v, ridx)
              = cells table !! (out_name p v, ridx)))
        ∧ (∀ path ds, open_first fs candidates = Some (path, ds) →
             ∃ lat_vals lon_vals res,
               ds_lat ds = Some lat_vals ∧ ds_lon ds = Some lon_vals
               ∧ process_row ds lat_vals lon_vals
                   (compute_time_index ds (np_datetime day))
                   (filter (fun v => is_Some (data_vars ds !! v)) vars)
                   (tol_deg a) (ridx, s) = Ok (ridx, res)
               ∧ cells (df st) !! (out_name p v, ridx)
                 = Some (default NaN (res !! v))).
Proof.
  intros Hrun Hdisj Hinj.
  split; [apply out_name_optics_flags |].
  unfold main in Hrun. rewrite iterrows_prepare in Hrun.
  destruct (prepared_columns a table) as [Hp Ho].
  destruct (prepare_columns_spec a table) as (Hrows & Hcols & _ & Hold & Hnew).
  destruct (groupby_date_ok (iterrows table) (iterrows_NoDup table)) as [Hok Hdis].
  pose proof (fun H1 H2 => process_groups_cells fs a _ _ _ _ _ H1 H2 Hok Hdis Hrun)
    as Hcells.
  cbn [df] in Hcells. specialize (Hcells Hp Ho).
  intros p base_dir vars Hprod day rows ridx s v Hg Hrow Hv. cbv zeta.
  destruct (Hcells day rows Hg) as (Hpl & Hop & _).
  assert (Hridx : (ridx < length (df_rows table))%nat).
  { destruct (groupby_date_group _ _ _ Hg) as (_ & _ & Hin).
    destruct (Hin _ Hrow) as [Hin' _]. apply elem_of_iterrows in Hin'.
    eapply lookup_lt_Some. exact Hin'. }
  assert (Hout : product_outcome fs a p base_dir vars day rows
                   (prepare_columns a table) (df st) v
                 ∧ (out_name p v ∈ plankton_vars a
                    ∨ out_name p v ∈ out_columns Optics (optics_vars a))).
  { destruct Hprod as [(-> & -> & ->)|(-> & Hconf & ->)].
    - split; [| left; exact Hv]. apply Hpl; [exact Hv |].
      intros _ Hin. apply list_elem_of_fmap in Hin as (w & Hw & Hwin).
      exact (Hdisj v w Hv Hwin Hw).
    - split.
      + eapply Hop; [exact Hconf | exact Hv | |].
        * intros Hin. exact (Hdisj _ v Hin Hv eq_refl).
        * intros w' Hw' He. exact (Hinj v w' Hv Hw' He).
      + right. apply list_elem_of_fmap. exists v. auto. }
  destruct Hout as [[Hnone Hsome] Hreq]. split.
  - intros Hn. pose proof (Hnone Hn (ridx, s) Hrow) as Hcell. cbn [fst] in Hcell.
    rewrite Hcell. split.
    + intros Hfresh. apply Hnew; assumption.
    + intros Hexists. apply Hold, Hexists.
  - intros path ds Hopen.
    destruct (Hsome path ds Hopen) as (lat_vals & lon_vals & Hlat & Hlon & Hrows').
    destruct (Hrows' (ridx, s) Hrow) as (res & Hres & Hcell).
    exists lat_vals, lon_vals, res. auto.
Qed.

Lemma C9_products_independent_witness :
  let st := final_state (main fs_optics_only args_default table_one) in
  main fs_optics_only args_default table_one = Done st
  ∧ (∀ v w, v ∈ plankton_vars args_default → w ∈ optics_vars args_default →
            v ≠ out_name Optics w)
  ∧ (∀ w w', w ∈ optics_vars args_default → w' ∈ optics_vars args_default →
             out_name Optics w' = out_name Optics w → w' = w)
  ∧ cells (df st) !! ("CHL"%string, O) = Some NaN
  ∧ ∃ lat_vals lon_vals res,
      ds_lat ds_optics_20200315 = Some lat_vals
      ∧ ds_lon ds_optics_20200315 = Some lon_vals
      ∧ process_row ds_optics_20200315 lat_vals lon_vals
          (compute_time_index ds_optics_20200315
             (np_datetime (s_date sample_20200315)))
          (filter (fun v => is_Some (data_vars ds_optics_20200315 !! v))
                  (optics_vars args_default))
          (tol_deg args_default) (O, sample_20200315) = Ok (O, res)
      ∧ cells (df st) !! ("flags_optics"%string, O)
        = Some (default NaN (res !! "flags"%string)).
Proof.
  cbv zeta.
  assert (Hrun : main fs_optics_only args_default table_one
                 = Done (final_state (main fs_optics_only args_default table_one)))
    by (vm_compute; reflexivity).
  destruct defaults_collision_free as [Hd Hi].
  split; [exact Hrun |]. split; [exact Hd |]. split; [exact Hi |].
  destruct (C9_products_independent fs_optics_only args_default table_one _
              Hrun Hd Hi) as [_ H].
  assert (Hg : (s_date sample_20200315, [(O, sample_20200315)])
               ∈ groupby_date (iterrows table_one)) by (vm_compute; left).
  split.
  - destruct (H Plankton "plankton"%string DEFAULT_PLANKTON_VARS
                (or_introl (conj eq_refl (conj eq_refl eq_refl)))
                _ _ O sample_20200315 "CHL"%string Hg
                ltac:(left) ltac:(left)) as [Hnone _].
    destruct (Hnone ltac:(vm_compute; reflexivity)) as [Hfresh _].
    apply Hfresh. intros Hc. inversion Hc.
  - destruct (H Optics "optics"%string DEFAULT_OPTICS_VARS
                (or_intror (conj eq_refl (conj eq_refl eq_refl)))
                _ _ O sample_20200315 "flags"%string Hg
                ltac:(left) ltac:(right; right; left)) as [_ Hsome].
    exact (Hsome "optics/2020/20200315_optics.nc"%string ds_optics_20200315
             ltac:(vm_compute; reflexivity)).
Defined.

(** ** C1 and C8: a dataset without a latitude axis *)

(** C1 fails on the code.  With two day-groups, when the file of the first
    day opens but the dataset has no "lat", [process_one_day] raises
    KeyError at [ds[LAT_NAME]]; nothing in [main] catches it: the run stops
    in the first group, the second group never begins and its sample, whose
    own file is in order, keeps [np.nan]. *)
Theorem C1_missing_axis_aborts_run :
  ∃ st,
    main fs_no_lat args_chl table_two_days = Aborted KeyError st
    ∧ open_first fs_no_lat (file_candidates_for_date fs_no_lat "data" 2020 3 14)
      = Some ("data/2020/20200314_cmems.nc"%string, ds_no_lat)
    ∧ ds_lat ds_no_lat = None
    ∧ process_one_day ds_no_lat [(1%nat, sample_20200314)] ["CHL"%string]
        DEFAULT_TOL_DEG = Raise KeyError
    ∧ trace st = [EvPrint (MsgProcessing 2); EvGroup 1;
                  EvOpen "data/2020/20200314_cmems.nc"]
    ∧ cells (df st) !! ("CHL"%string, O) = Some NaN.
Proof.
  eexists. split; [vm_compute; reflexivity |].
  split; [vm_compute; reflexivity |].
  split; [reflexivity |].
  split; [reflexivity |].
  split; reflexivity.
Qed.

(** C8 fails on the code, by the same defect: the dataset opened for the
    first day-group is still open when the exception leaves [main];
    [ds.close()] is reached on the paths that return only. *)
Theorem C8_dataset_left_open_on_error :
  ∃ st,
    main fs_no_lat args_chl table_two_days = Aborted KeyError st
    ∧ open_handles (trace st) = ["data/2020/20200314_cmems.nc"%string]
    ∧ EvClose "data/2020/20200314_cmems.nc" ∉ trace st.
Proof.
  eexists. split; [vm_compute; reflexivity |].
  split; [reflexivity |].
  intros H. repeat (apply elem_of_cons in H as [H|H]; [discriminate |]).
  inversion H.
Qed.

(** ** What holds on the paths that return *)

Lemma open_first_opens (fs : FileSystem) (cands : list string) (path : string)
    (ds : Dataset) :
  open_first fs cands = Some (path, ds) → open_dataset fs path = Some ds.
Proof.
  intros H. apply open_first_Some in H as (pre & post & _ & _ & H). exact H.
Qed.

Lemma process_product_completes (fs : FileSystem) (a : Args) (p : product)
    (base_dir : string) (vars : list string) (gi total : nat)
    (day : Timestamp) (rows : list (nat * Sample)) (st : State) :
  datasets_have_axes fs → rows ≠ [] →
  ∃ st', process_product fs a p base_dir vars gi total day rows st = Done st'.
Proof.
  intros Hfs Hrows. unfold process_product.
  destruct (file_candidates_for_date fs base_dir _ _ _) as [|c0 cands];
    [eexists; reflexivity |].
  destruct (open_first fs (c0 :: cands)) as [[path ds]|] eqn:Eo;
    [| eexists; reflexivity].
  destruct (Hfs path ds (open_first_opens _ _ _ _ Eo))
    as (lat_vals & lon_vals & Hlat & Hlat' & Hlon & Hlon').
  destruct (process_one_day_total ds rows
              (filter (fun v => is_Some (data_vars ds !! v)) vars) (tol_deg a)
              lat_vals lon_vals Hlat Hlat' Hlon Hlon' Hrows) as [results ->].
  eexists; reflexivity.
Qed.

Lemma process_groups_completes (fs : FileSystem) (a : Args) (total : nat)
    (groups : list (Timestamp * list (nat * Sample))) :
  datasets_have_axes fs → groups_ok groups →
  ∀ gi st, ∃ st', process_groups fs a total gi groups st = Done st'.
Proof.
  intros Hfs. induction groups as [|g rest IH]; intros Hok gi st;
    cbn [process_groups]; [eexists; reflexivity |].
  destruct (Hok g ltac:(left)) as (_ & Hne & _).
  unfold process_group.
  destruct (process_product_completes fs a Plankton (plankton_base_dir a)
              (plankton_vars a) gi total g.1 g.2 (emit (EvGroup gi) st) Hfs Hne)
    as [st1 ->].
  cbn [run_bind].
  destruct (optics_configured a) as [optics_dir|].
  - destruct (process_product_completes fs a Optics optics_dir (optics_vars a)
                gi total g.1 g.2 st1 Hfs Hne) as [st2 ->].
    cbn [run_bind]. apply IH. intros g' Hg'. apply Hok. right. exact Hg'.
  - cbn [run_bind]. apply IH. intros g' Hg'. apply Hok. right. exact Hg'.
Qed.

(** When every dataset that opens has its two axes, nothing is raised:
    absent or unopenable files, absent variables, rejected matches and
    invalid reads all leave the run going to its end. *)
Lemma main_completes (fs : FileSystem) (a : Args) (table : DataFrame) :
  datasets_have_axes fs → ∃ st, main fs a table = Done st.
Proof.
  intros Hfs. unfold main. apply process_groups_completes; [exact Hfs |].
  apply groupby_date_ok, iterrows_NoDup.
Qed.

(** ** Handles and group starts *)

Lemma open_handles_from_app (o : list string) (t1 t2 : list event) :
  open_handles_from o (t1 ++ t2) = open_handles_from (open_handles_from o t1) t2.
Proof.
  revert o. induction t1 as [|e t1 IH]; intros o; [reflexivity |].
  destruct e; simpl; apply IH.
Qed.

Lemma open_close_balanced (path : string) (msgs : list event) :
  (∀ e, e ∈ msgs → ∃ m, e = EvPrint m) →
  open_handles_from [] (EvOpen path :: msgs ++ [EvClose path]) = [].
Proof.
  intros Hm. cbn [open_handles_from app].
  assert (H : ∀ o, open_handles_from o (msgs ++ [EvClose path])
                   = filter (fun h => h ≠ path) o).
  { induction msgs as [|e msgs IH]; intros o; [reflexivity |].
    destruct (Hm e ltac:(left)) as [m ->]. cbn [app open_handles_from].
    apply IH. intros e' He'. apply Hm. right. exact He'. }
  rewrite H. rewrite filter_cons, decide_False by (intros Hne; apply Hne; reflexivity).
  reflexivity.
Qed.

(** The events one product adds: no group start among them, and no handle
    left open when the product returns. *)
Lemma process_product_trace (fs : FileSystem) (a : Args) (p : product)
    (base_dir : string) (vars : list string) (gi total : nat)
    (day : Timestamp) (rows : list (nat * Sample)) (st : State) :
  ∃ sfx,
    trace (final_state (process_product fs a p base_dir vars gi total day rows st))
    = trace st ++ sfx
    ∧ (∀ g, EvGroup g ∉ sfx)
    ∧ (∀ st', process_product fs a p base_dir vars gi total day rows st = Done st' →
              open_handles_from [] sfx = []).
Proof.
  unfold process_product.
  destruct (file_candidates_for_date fs base_dir _ _ _) as [|c0 cands].
  - exists [EvPrint (MsgNoFile gi total day p)]. split; [reflexivity |].
    split; [| reflexivity].
    intros g H. apply list_elem_of_singleton in H. discriminate.
  - destruct (open_first fs (c0 :: cands)) as [[path ds]|].
    + set (msgs := match filter (fun v => ¬ is_Some (data_vars ds !! v)) vars with
                   | [] => []
                   | missing => [EvPrint (MsgMissing gi total day p missing)]
                   end).
      assert (Hmsgs : ∀ e, e ∈ msgs → ∃ m, e = EvPrint m).
      { unfold msgs. destruct (filter _ vars); intros e He; [inversion He |].
        apply list_elem_of_singleton in He. eauto. }
      assert (Hst : trace (match filter (fun v => ¬ is_Some (data_vars ds !! v)) vars with
                           | [] => emit (EvOpen path) st
                           | _ :: _ =>
                               emit (EvPrint (MsgMissing gi total day p
                                 (filter (fun v => ¬ is_Some (data_vars ds !! v)) vars)))
                                 (emit (EvOpen path) st)
                           end) = trace st ++ EvOpen path :: msgs).
      { unfold msgs. destruct (filter _ vars); cbn [emit trace];
          rewrite <- ?app_assoc; reflexivity. }
      destruct (process_one_day ds rows _ (tol_deg a)) as [results|e].
      * exists (EvOpen path :: msgs ++ [EvClose path]).
        cbn [final_state emit set_df trace]. rewrite Hst.
        split; [rewrite <- app_assoc; reflexivity |]. split.
        -- intros g H. apply elem_of_cons in H as [H|H]; [discriminate |].
           apply elem_of_app in H as [H|H].
           ++ destruct (Hmsgs _ H) as [m Hm]. discriminate.
           ++ apply list_elem_of_singleton in H. discriminate.
        -- intros _ _. apply open_close_balanced, Hmsgs.
      * exists (EvOpen path :: msgs). cbn [final_state]. rewrite Hst.
        split; [reflexivity |]. split; [| discriminate].
        intros g H. apply elem_of_cons in H as [H|H]; [discriminate |].
        destruct (Hmsgs _ H) as [m Hm]. discriminate.
    + exists [EvPrint (MsgCouldNotOpen gi total day p)]. split; [reflexivity |].
      split; [| reflexivity].
      intros g H. apply list_elem_of_singleton in H. discriminate.
Qed.

Lemma process_group_trace (fs : FileSystem) (a : Args) (total gi : nat)
    (group : Timestamp * list (nat * Sample)) (st : State) :
  ∃ sfx,
    trace (final_state (process_group fs a total gi group st))
    = trace st ++ EvGroup gi :: sfx
    ∧ (∀ g, EvGroup g ∉ sfx)
    ∧ (∀ st', process_group fs a total gi group st = Done st' →
              open_handles_from [] sfx = []).
Proof.
  unfold process_group.
  destruct (process_product_trace fs a Plankton (plankton_base_dir a)
              (plankton_vars a) gi total group.1 group.2 (emit (EvGroup gi) st))
    as (sfx1 & Ht1 & Hg1 & Hc1).
  cbn [emit trace] in Ht1. rewrite <- app_assoc in Ht1. cbn [app] in Ht1.
  destruct (process_product fs a Plankton _ _ _ _ _ _ _) as [st1|e st1];
    cbn [run_bind final_state] in *.
  - specialize (Hc1 st1 eq_refl).
    assert (Hopt : ∃ sfx2,
              trace (final_state
                       (match optics_configured a with
                        | Some optics_dir =>
                            process_product fs a Optics optics_dir (optics_vars a)
                              gi total group.1 group.2 st1
                        | None => Done st1
                        end)) = trace st1 ++ sfx2
              ∧ (∀ g, EvGroup g ∉ sfx2)
              ∧ (∀ st', match optics_configured a with
                        | Some optics_dir =>
                            process_product fs a Optics optics_dir (optics_vars a)
                              gi total group.1 group.2 st1
                        | None => Done st1
                        end = Done st' → open_handles_from [] sfx2 = [])).
    { destruct (optics_configured a) as [optics_dir|].
      - apply process_product_trace.
      - exists []. cbn [final_state]. rewrite app_nil_r.
        split; [reflexivity |]. split; [intros g H; inversion H | reflexivity]. }
    destruct Hopt as (sfx2 & Ht2 & Hg2 & Hc2).
    destruct (match optics_configured a with Some _ => _ | None => _ end)
      as [st2|e st2]; cbn [run_bind final_state] in *.
    + exists (sfx1 ++ sfx2 ++ [EvPrint (MsgDone gi total group.1 (length group.2))]).
      cbn [emit trace]. rewrite Ht2, Ht1, <- !app_assoc. cbn [app].
      split; [reflexivity |]. split.
      * intros g H. apply elem_of_app in H as [H|H]; [exact (Hg1 g H) |].
        apply elem_of_app in H as [H|H]; [exact (Hg2 g H) |].
        apply list_elem_of_singleton in H. discriminate.
      * intros _ _. rewrite !open_handles_from_app, Hc1, (Hc2 st2 eq_refl).
        reflexivity.
    + exists (sfx1 ++ sfx2). rewrite Ht2, Ht1, <- app_assoc. cbn [app].
      split; [reflexivity |]. split; [| discriminate].
      intros g H. apply elem_of_app in H as [H|H]; [exact (Hg1 g H) | exact (Hg2 g H)].
  - exists sfx1. split; [exact Ht1 |]. split; [exact Hg1 | discriminate].
Qed.

Lemma closed_at_group_starts_extend (tr sfx : list event) (gi : nat) :
  closed_at_group_starts tr → open_handles tr = [] →
  (∀ g, EvGroup g ∉ sfx) →
  closed_at_group_starts (tr ++ EvGroup gi :: sfx).
Proof.
  intros Hinv Hclosed Hsfx pre g post Heq.
  apply app_eq_app in Heq as [l [[Htr Hl]|[Hpre Hl]]].
  - destruct l as [|e l]; cbn [app] in Hl.
    + rewrite app_nil_r in Htr. subst pre. exact Hclosed.
    + injection Hl as <- Hpost. apply (Hinv pre g l). exact Htr.
  - destruct l as [|e l]; cbn [app] in Hl.
    + rewrite app_nil_r in Hpre. subst pre. exact Hclosed.
    + injection Hl as <- Hsfx'. exfalso. apply (Hsfx g). rewrite Hsfx'.
      apply elem_of_app. right. left.
Qed.

(** In every run, complete or cut short, each day-group begins with no
    dataset handle open, and a run that returns ends with none open. *)
Lemma groups_begin_with_no_open_handle (fs : FileSystem) (a : Args)
    (table : DataFrame) :
  closed_at_group_starts (trace (final_state (main fs a table)))
  ∧ (∀ st, main fs a table = Done st → open_handles (trace st) = []).
Proof.
  unfold main.
  set (groups := groupby_date (iterrows (prepare_columns a table))).
  set (total := length groups).
  assert (H : ∀ gi st,
            closed_at_group_starts (trace st) → open_handles (trace st) = [] →
            closed_at_group_starts
              (trace (final_state (process_groups fs a total gi groups st)))
            ∧ (∀ st', process_groups fs a total gi groups st = Done st' →
                      open_handles (trace st') = [])).
  { generalize total. intros n. clear total.
    induction groups as [|g rest IH]; intros gi st Hinv Hclosed;
      cbn [process_groups].
    - cbn [final_state]. split; [exact Hinv |]. intros st' [= <-]. exact Hclosed.
    - destruct (process_group_trace fs a n gi g st) as (sfx & Ht & Hg & Hc).
      destruct (process_group fs a n gi g st) as [st1|e st1];
        cbn [run_bind final_state] in *.
      + apply IH.
        * rewrite Ht. apply closed_at_group_starts_extend; assumption.
        * rewrite Ht. unfold open_handles. rewrite open_handles_from_app.
          fold (open_handles (trace st)). rewrite Hclosed.
          cbn [open_handles_from]. apply (Hc st1 eq_refl).
      + split; [| discriminate].
        rewrite Ht. apply closed_at_group_starts_extend; assumption. }
  apply H.
  - intros pre gi post Heq. cbn [trace] in Heq.
    destruct pre as [|e pre]; [discriminate |].
    injection Heq as _ Heq. destruct pre; discriminate.
  - reflexivity.
Qed.

(** * Further properties of the code *)

(** ** Longitudes modulo whole turns *)

Lemma inject_Z_small (z : Z) : -1 < inject_Z z → inject_Z z < 1 → z = 0%Z.
Proof.
  intros Hlo Hhi.
  change (-1) with (inject_Z (-1)) in Hlo. change 1 with (inject_Z 1) in Hhi.
  rewrite <- Zlt_Qlt in Hlo, Hhi. lia.
Qed.

Lemma pymod_360_unique (x r : Q) (k : Z) :
  0 <= r → r < 360 → r == x + 360 * inject_Z k → pymod x 360 == r.
Proof.
  intros Hlo Hhi Hr.
  destruct (pymod_360_congr x) as [k' Hk'].
  pose proof (pymod_360_range x) as [Hlo' Hhi'].
  assert (Hz : (k' - k = 0)%Z).
  { apply inject_Z_small; unfold Zminus; rewrite inject_Z_plus, inject_Z_opp; lra. }
  assert (k' = k) by lia. subst k'. lra.
Qed.

Lemma pymod_360_shift (x : Q) (k : Z) :
  pymod (x + 360 * inject_Z k) 360 == pymod x 360.
Proof.
  destruct (pymod_360_congr x) as [k' Hk'].
  pose proof (pymod_360_range x) as [Hlo Hhi].
  apply (pymod_360_unique _ _ (k' - k)); [exact Hlo | exact Hhi |].
  unfold Zminus. rewrite inject_Z_plus, inject_Z_opp. lra.
Qed.

Lemma pymod_360_wd (x y : Q) : x == y → pymod x 360 == pymod y 360.
Proof.
  intros Hxy. destruct (pymod_360_congr y) as [k Hk].
  pose proof (pymod_360_range y) as [Hlo Hhi].
  apply (pymod_360_unique _ _ k); [exact Hlo | exact Hhi | lra].
Qed.

Lemma adapt_query_lon_cases (lon_vals : list Q) (qlon : Q) :
  lon_vals ≠ [] →
  (adapt_query_lon lon_vals qlon = Ok (lon_to_360 qlon)
   ∧ ∀ q', adapt_query_lon lon_vals q' = Ok (lon_to_360 q'))
  ∨ (adapt_query_lon lon_vals qlon = Ok (lon_to_180 qlon)
     ∧ ∀ q', adapt_query_lon lon_vals q' = Ok (lon_to_180 q')).
Proof.
  intros Hne. unfold adapt_query_lon.
  destruct (nanmin_spec _ Hne) as (lo & -> & _).
  destruct (nanmax_spec _ Hne) as (hi & -> & _).
  cbn [rbind]. destruct (Qle_bool 0 lo), (Qltb 180 hi); auto.
Qed.

(** X2: [adapt_query_lon] raises ValueError on an empty axis (from
    [np.nanmin]) and on no other; on any other axis two queries that differ
    by a whole number of turns are adapted to the same longitude. *)
Theorem adapt_query_lon_whole_turns (lon_vals : list Q) (qlon : Q) (k : Z) :
  (lon_vals = [] → adapt_query_lon lon_vals qlon = Raise ValueError)
  ∧ (lon_vals ≠ [] →
     ∃ q1 q2,
       adapt_query_lon lon_vals qlon = Ok q1
       ∧ adapt_query_lon lon_vals (qlon + 360 * inject_Z k) = Ok q2
       ∧ q1 == q2).
Proof.
  split; [intros ->; reflexivity |].
  intros Hne.
  destruct (adapt_query_lon_cases lon_vals qlon Hne) as [[-> H]|[-> H]];
    rewrite H; eexists _, _; (split; [reflexivity |]); (split; [reflexivity |]).
  - unfold lon_to_360. rewrite pymod_360_shift. reflexivity.
  - unfold lon_to_180.
    assert (E : qlon + 360 * inject_Z k + 180 == (qlon + 180) + 360 * inject_Z k)
      by lra.
    rewrite (pymod_360_wd _ _ E), pymod_360_shift. reflexivity.
Qed.

(** ** The circular longitude difference *)

Lemma lon_difference_wd (a a' b b' : Q) :
  a == a' → b == b' → lon_difference a b == lon_difference a' b'.
Proof.
  intros Ha Hb. unfold lon_difference. apply Qabs_wd.
  assert (E : a - b + 180 == a' - b' + 180) by lra.
  rewrite (pymod_360_wd _ _ E). reflexivity.
Qed.

(** ** Queries that are numerically equal *)

Lemma Qltb_wd (x x' y y' : Q) : x == x' → y == y' → Qltb x y = Qltb x' y'.
Proof.
  intros Hx Hy.
  destruct (Qltb x y) eqn:E, (Qltb x' y') eqn:E'; qbool; try reflexivity; lra.
Qed.

Lemma searchsorted_wd (arr : list Q) (v v' : Q) :
  v == v' → searchsorted arr v = searchsorted arr v'.
Proof.
  intros Hv. induction arr as [|x arr IH]; simpl; [reflexivity |].
  rewrite (Qltb_wd x x v v' ltac:(reflexivity) Hv), IH. reflexivity.
Qed.

Lemma argmin_from_wd (l l' : list Q) :
  Forall2 Qeq l l' →
  ∀ best bv bv' i, bv == bv' →
    argmin_from best bv i l = argmin_from best bv' i l'.
Proof.
  induction 1 as [|x x' l l' Hx _ IH]; intros best bv bv' i Hbv; simpl;
    [reflexivity |].
  rewrite (Qltb_wd x x' bv bv' Hx Hbv).
  destruct (Qltb x' bv'); apply IH; assumption.
Qed.

Lemma nearest_linear_wd (arr : list Q) (v v' : Q) :
  v == v' → nearest_linear arr v = nearest_linear arr v'.
Proof.
  intros Hv. unfold nearest_linear. destruct arr as [|x arr]; [reflexivity |].
  cbn [map argmin]. f_equal. apply argmin_from_wd.
  - induction arr as [|y arr IH]; cbn [map]; constructor; [| exact IH].
    apply Qabs_wd. lra.
  - apply Qabs_wd. lra.
Qed.

Lemma nearest_fast_wd (arr : list Q) (v v' : Q) :
  v == v' → nearest_fast arr v = nearest_fast arr v'.
Proof.
  intros Hv. unfold nearest_fast. rewrite (searchsorted_wd arr v v' Hv).
  destruct (_ =? 0)%nat; [reflexivity |].
  destruct (_ <=? _)%nat; [reflexivity |].
  destruct (index arr (searchsorted arr v')) as [a_i|]; [| reflexivity].
  destruct (index arr (searchsorted arr v' - 1)) as [a_p|]; [| reflexivity].
  cbn [rbind]. rewrite (Qltb_wd (Qabs (a_i - v)) (Qabs (a_i - v'))
                          (Qabs (a_p - v)) (Qabs (a_p - v')));
    [reflexivity | apply Qabs_wd; lra | apply Qabs_wd; lra].
Qed.

Lemma nearest_index_wd (arr : list Q) (v v' : Q) :
  v == v' → nearest_index arr v = nearest_index arr v'.
Proof.
  intros Hv. unfold nearest_index.
  rewrite (nearest_fast_wd arr v v' Hv), (nearest_linear_wd arr v v' Hv).
  reflexivity.
Qed.

Lemma out_of_tolerance_wd (dlat dlon dlon' tol : Q) :
  dlon == dlon' → out_of_tolerance dlat dlon tol = out_of_tolerance dlat dlon' tol.
Proof.
  intros H. unfold out_of_tolerance.
  rewrite (Qltb_wd tol tol dlon dlon' ltac:(reflexivity) H). reflexivity.
Qed.

(** The rest of the loop body once the query longitude is adapted. *)
Lemma process_row_after_adapt (ds : Dataset) (lat_vals lon_vals : list Q)
    (ti : option nat) (vars : list string) (tol : Q) (ridx : nat) (lat : Q)
    (q q' : Q) :
  q == q' →
  (ilat ←r nearest_index lat_vals lat;
   ilon ←r nearest_index lon_vals q;
   nearest_lat ←r index lat_vals ilat;
   nearest_lon ←r index lon_vals ilon;
   if out_of_tolerance (lat_difference nearest_lat lat)
                       (lon_difference nearest_lon q) tol
   then Ok (ridx, fill_nan vars)
   else Ok (ridx, extract_vars ds ilat ilon ti vars))
  = (ilat ←r nearest_index lat_vals lat;
     ilon ←r nearest_index lon_vals q';
     nearest_lat ←r index lat_vals ilat;
     nearest_lon ←r index lon_vals ilon;
     if out_of_tolerance (lat_difference nearest_lat lat)
                         (lon_difference nearest_lon q') tol
     then Ok (ridx, fill_nan vars)
     else Ok (ridx, extract_vars ds ilat ilon ti vars)).
Proof.
  intros Hq. rewrite (nearest_index_wd lon_vals q q' Hq).
  destruct (nearest_index lat_vals lat) as [ilat|]; [| reflexivity]. cbn [rbind].
  destruct (nearest_index lon_vals q') as [ilon|]; [| reflexivity]. cbn [rbind].
  destruct (index lat_vals ilat) as [nlat|]; [| reflexivity]. cbn [rbind].
  destruct (index lon_vals ilon) as [nlon|]; [| reflexivity]. cbn [rbind].
  rewrite (out_of_tolerance_wd _ (lon_difference nlon q) (lon_difference nlon q'));
    [reflexivity |].
  apply lon_difference_wd; [reflexivity | exact Hq].
Qed.

(** X4: the longitude convention of the sample does not matter.  Two
    samples of the same latitude whose longitudes differ by a whole number
    of turns (-8.7 and 351.3, say) get the same outcome from the loop body
    of [process_one_day] on every dataset: the same exception, or the same
    cell, the same verdict of the tolerance gate and the same values. *)
Theorem process_row_whole_turns (ds : Dataset) (lat_vals lon_vals : list Q)
    (time_index : option nat) (var_names : list string) (tol : Q)
    (ridx : nat) (s s' : Sample) (k : Z) :
  s_lat s' = s_lat s →
  s_lon s' == s_lon s + 360 * inject_Z k →
  process_row ds lat_vals lon_vals time_index var_names tol (ridx, s')
  = process_row ds lat_vals lon_vals time_index var_names tol (ridx, s).
Proof.
  intros Hlat Hlon. unfold process_row. cbn [fst snd]. rewrite Hlat.
  destruct lon_vals as [|x lon_rest] eqn:El; [reflexivity |].
  rewrite <- El. assert (Hne : lon_vals ≠ []) by (rewrite El; discriminate).
  clear El.
  assert (Hshift : ∀ m, pymod (s_lon s' + m) 360 == pymod (s_lon s + m) 360).
  { intros m.
    assert (E : s_lon s' + m == (s_lon s + m) + 360 * inject_Z k) by lra.
    rewrite (pymod_360_wd _ _ E), pymod_360_shift. reflexivity. }
  destruct (adapt_query_lon_cases lon_vals (s_lon s) Hne) as [[-> H]|[-> H]];
    rewrite H; cbn [rbind]; apply process_row_after_adapt.
  - unfold lon_to_360.
    assert (E : s_lon s' == s_lon s' + 0) by lra.
    assert (E' : s_lon s == s_lon s + 0) by lra.
    rewrite (pymod_360_wd _ _ E), (pymod_360_wd _ _ E'). apply Hshift.
  - unfold lon_to_180. rewrite Hshift. reflexivity.
Qed.

Lemma process_row_whole_turns_witness :
  let s' := {| s_date := s_date sample_20200315; s_lat := 4105 # 100;
               s_lon := 35130 # 100 |} in
  s_lat s' = s_lat sample_20200315
  ∧ s_lon s' == s_lon sample_20200315 + 360 * inject_Z 1
  ∧ process_row ds_20200315 [409 # 10; 410 # 10; 411 # 10]
      [-88 # 10; -87 # 10; -86 # 10] (Some O) ["CHL"%string] DEFAULT_TOL_DEG
      (O, s')
    = process_row ds_20200315 [409 # 10; 410 # 10; 411 # 10]
        [-88 # 10; -87 # 10; -86 # 10] (Some O) ["CHL"%string] DEFAULT_TOL_DEG
        (O, sample_20200315).
Proof.
  cbv zeta. split; [reflexivity |]. split; [reflexivity |].
  apply (process_row_whole_turns _ _ _ _ _ _ _ _ _ 1); reflexivity.
Defined.

(** ** Exact hits *)

(** X5: a query that is on the axis is matched exactly: [nearest_index]
    returns a position whose axis value equals the query, on sorted and
    unsorted axes alike, so the latitude difference of the gate is 0. *)
Theorem nearest_index_exact_hit (arr : list Q) (v : Q) :
  (∃ j y, arr !! j = Some y ∧ y == v) →
  ∃ i ai, nearest_index arr v = Ok i ∧ arr !! i = Some ai ∧ ai == v
          ∧ lat_difference ai v == 0.
Proof.
  intros (j & y & Hj & Hy).
  assert (Hne : arr ≠ []) by (intros ->; discriminate).
  destruct (nearest_index_spec arr v Hne) as (i & ai & Hi & Hai & Hmin).
  exists i, ai. split; [exact Hi |]. split; [exact Hai |].
  pose proof (Hmin j y Hj) as Hle.
  assert (E : ai == v) by (qabs (ai - v); qabs (y - v); lra).
  split; [exact E |]. unfold lat_difference. qabs (ai - v); lra.
Qed.

Lemma nearest_index_exact_hit_witness :
  (∃ j y, [411 # 10; 410 # 10; 409 # 10] !! j = Some y ∧ y == 41)
  ∧ ∃ i ai, nearest_index [411 # 10; 410 # 10; 409 # 10] 41 = Ok i
            ∧ [411 # 10; 410 # 10; 409 # 10] !! i = Some ai ∧ ai == 41
            ∧ lat_difference ai 41 == 0.
Proof.
  assert (H : ∃ j y, [411 # 10; 410 # 10; 409 # 10] !! j = Some y ∧ y == 41)
    by (exists 1%nat, (410 # 10); split; reflexivity).
  split; [exact H |].
  exact (nearest_index_exact_hit [411 # 10; 410 # 10; 409 # 10] 41 H).
Defined.

(** ** The tolerance in double precision *)

Lemma SFcompare_trans (a b c : F64.float) (r : comparison) :
  r ≠ Eq →
  (SpecFloat.SFcompare a b = Some r ∧ SpecFloat.SFcompare b c = Some r)
  ∨ (SpecFloat.SFcompare a b = Some r ∧ SpecFloat.SFcompare b c = Some Eq)
  ∨ (SpecFloat.SFcompare a b = Some Eq ∧ SpecFloat.SFcompare b c = Some r) →
  SpecFloat.SFcompare a c = Some r.
Proof.
  intros Hr H.
  destruct a as [sa|sa| |sa ma ea], b as [sb|sb| |sb mb eb],
           c as [sc|sc| |sc mc ec]; cbn in *;
    try (destruct H as [[? ?]|[[? ?]|[? ?]]]; discriminate);
    try (destruct sa); try (destruct sb); try (destruct sc); cbn in *;
    try (destruct r; destruct H as [[? ?]|[[? ?]|[? ?]]]; congruence).
  all: change (Pos.compare_cont Eq ma mb) with (Pos.compare ma mb) in H;
       change (Pos.compare_cont Eq mb mc) with (Pos.compare mb mc) in H;
       change (Pos.compare_cont Eq ma mc) with (Pos.compare ma mc).
  all: destruct (Z.compare_spec ea eb), (Z.compare_spec eb ec),
         (Z.compare_spec ea ec); try lia;
       destruct (Pos.compare_spec ma mb), (Pos.compare_spec mb mc),
         (Pos.compare_spec ma mc); try lia;
       cbn in *; subst;
       destruct r; destruct H as [[? ?]|[[? ?]|[? ?]]]; congruence.
Qed.

Lemma F64_leb_ltb_trans (a b c : F64.float) :
  F64.leb a b = true → F64.ltb b c = true → F64.ltb a c = true.
Proof.
  unfold F64.leb, F64.ltb, SpecFloat.SFleb, SpecFloat.SFltb.
  destruct (SpecFloat.SFcompare a b) as [[| |]|] eqn:Eab; try discriminate;
    destruct (SpecFloat.SFcompare b c) as [[| |]|] eqn:Ebc; try discriminate;
    intros _ _; rewrite (SFcompare_trans a b c Lt); auto; discriminate.
Qed.

Lemma F64_ltb_leb_trans (a b c : F64.float) :
  F64.ltb a b = true → F64.leb b c = true → F64.ltb a c = true.
Proof.
  unfold F64.leb, F64.ltb, SpecFloat.SFleb, SpecFloat.SFltb.
  destruct (SpecFloat.SFcompare a b) as [[| |]|] eqn:Eab; try discriminate;
    destruct (SpecFloat.SFcompare b c) as [[| |]|] eqn:Ebc; try discriminate;
    intros _ _; rewrite (SFcompare_trans a b c Lt); auto; discriminate.
Qed.

Lemma F64_abs_nonneg (x : F64.float) :
  F64.is_nan (F64.abs x) = false → F64.leb F64.zero (F64.abs x) = true.
Proof. destruct x as [s|s| |s m e]; cbn; intros H; (reflexivity || discriminate). Qed.

(** X6: in double precision, NaN and infinite coordinates included, the
    cell a row resolves to and its two computed differences do not depend
    on the tolerance.  Hence a row accepted at one tolerance has the same
    result at every larger one; with a negative tolerance every row one of
    whose differences is a number is rejected; and a row whose two
    differences are NaN is accepted at every tolerance. *)
Theorem tolerance_is_monotone (ds : Dataset) (lat_vals lon_vals : list F64.float)
    (time_index : option nat) (var_names : list string) (ridx : nat)
    (lat lon : F64.float) :
  lat_vals ≠ [] → lon_vals ≠ [] →
  ∃ dlat dlon ilat ilon,
    (∀ tol,
       F64.process_row ds lat_vals lon_vals time_index var_names tol ridx lat lon
       = Ok (ridx, if F64.out_of_tolerance dlat dlon tol
                   then fill_nan var_names
                   else extract_vars ds ilat ilon time_index var_names))
    ∧ (∀ tol tol', F64.leb tol tol' = true →
         F64.out_of_tolerance dlat dlon tol = false →
         F64.process_row ds lat_vals lon_vals time_index var_names tol' ridx lat lon
         = F64.process_row ds lat_vals lon_vals time_index var_names tol ridx lat lon)
    ∧ (∀ tol, F64.ltb tol F64.zero = true →
         F64.is_nan dlat = false ∨ F64.is_nan dlon = false →
         F64.process_row ds lat_vals lon_vals time_index var_names tol ridx lat lon
         = Ok (ridx, fill_nan var_names))
    ∧ (F64.is_nan dlat = true → F64.is_nan dlon = true →
       ∀ tol,
         F64.process_row ds lat_vals lon_vals time_index var_names tol ridx lat lon
         = Ok (ridx, extract_vars ds ilat ilon time_index var_names)).
Proof.
  intros Hlat Hlon.
  destruct (F64_process_row_resolves lat_vals lon_vals lat lon Hlat Hlon)
    as (qlon & ilat & ilon & nlat & nlon & Hq & Hi & Hj & Hv & Hw).
  exists (F64.lat_difference nlat lat), (F64.lon_difference nlon qlon), ilat, ilon.
  assert (Heq : ∀ tol,
            F64.process_row ds lat_vals lon_vals time_index var_names tol ridx lat lon
            = Ok (ridx, if F64.out_of_tolerance (F64.lat_difference nlat lat)
                             (F64.lon_difference nlon qlon) tol
                        then fill_nan var_names
                        else extract_vars ds ilat ilon time_index var_names)).
  { intros tol. apply (F64_process_row_eq ds _ _ _ _ _ _ _ _ qlon _ _ nlat nlon);
      assumption. }
  split; [exact Heq |]. split; [| split].
  - intros tol tol' Hle Hacc. rewrite !Heq, Hacc.
    unfold F64.out_of_tolerance in *. apply orb_false_iff in Hacc as [Ha Ho].
    destruct (F64.ltb tol' (F64.lat_difference nlat lat)) eqn:Ea.
    { rewrite (F64_leb_ltb_trans _ _ _ Hle Ea) in Ha. discriminate. }
    destruct (F64.ltb tol' (F64.lon_difference nlon qlon)) eqn:Eo.
    { rewrite (F64_leb_ltb_trans _ _ _ Hle Eo) in Ho. discriminate. }
    reflexivity.
  - intros tol Hneg Hnum. rewrite Heq. unfold F64.out_of_tolerance.
    destruct Hnum as [Hn|Hn].
    + assert (E : F64.ltb tol (F64.lat_difference nlat lat) = true)
        by exact (F64_ltb_leb_trans _ _ _ Hneg (F64_abs_nonneg _ Hn)).
      rewrite E. reflexivity.
    + assert (E : F64.ltb tol (F64.lon_difference nlon qlon) = true)
        by exact (F64_ltb_leb_trans _ _ _ Hneg (F64_abs_nonneg _ Hn)).
      rewrite E, orb_true_r. reflexivity.
  - intros Ha Ho tol. rewrite Heq. unfold F64.out_of_tolerance.
    destruct (F64_ltb_nan tol (F64.lat_difference nlat lat) (or_intror Ha)) as [-> _].
    destruct (F64_ltb_nan tol (F64.lon_difference nlon qlon) (or_intror Ho)) as [-> _].
    reflexivity.
Qed.

Lemma tolerance_is_monotone_witness :
  lat_axis_f64 ≠ [] ∧ lon_axis_f64 ≠ []
  ∧ ∃ dlat dlon ilat ilon,
      (∀ tol,
         F64.process_row ds_chl_by_row lat_axis_f64 lon_axis_f64 (Some O)
           ["CHL"%string] tol O F64.nan (F64.dec (-87) 10)
         = Ok (O, if F64.out_of_tolerance dlat dlon tol
                  then fill_nan ["CHL"%string]
                  else extract_vars ds_chl_by_row ilat ilon (Some O) ["CHL"%string]))
      ∧ (∀ tol tol', F64.leb tol tol' = true →
           F64.out_of_tolerance dlat dlon tol = false →
           F64.process_row ds_chl_by_row lat_axis_f64 lon_axis_f64 (Some O)
             ["CHL"%string] tol' O F64.nan (F64.dec (-87) 10)
           = F64.process_row ds_chl_by_row lat_axis_f64 lon_axis_f64 (Some O)
               ["CHL"%string] tol O F64.nan (F64.dec (-87) 10))
      ∧ (∀ tol, F64.ltb tol F64.zero = true →
           F64.is_nan dlat = false ∨ F64.is_nan dlon = false →
           F64.process_row ds_chl_by_row lat_axis_f64 lon_axis_f64 (Some O)
             ["CHL"%string] tol O F64.nan (F64.dec (-87) 10)
           = Ok (O, fill_nan ["CHL"%string]))
      ∧ (F64.is_nan dlat = true → F64.is_nan dlon = true →
         ∀ tol,
           F64.process_row ds_chl_by_row lat_axis_f64 lon_axis_f64 (Some O)
             ["CHL"%string] tol O F64.nan (F64.dec (-87) 10)
           = Ok (O, extract_vars ds_chl_by_row ilat ilon (Some O) ["CHL"%string])).
Proof.
  split; [discriminate |]. split; [discriminate |].
  exact (tolerance_is_monotone ds_chl_by_row lat_axis_f64 lon_axis_f64 (Some O)
           ["CHL"%string] O F64.nan (F64.dec (-87) 10)
           ltac:(discriminate) ltac:(discriminate)).
Defined.

(** ** Outcomes of process_one_day *)

Lemma rmapM_length {A B : Type} (f : A → result B) (l : list A) (l' : list B) :
  rmapM f l = Ok l' → length l' = length l.
Proof.
  intros H. apply rmapM_Ok in H. symmetry. eapply Forall2_length. exact H.
Qed.

(** X8: which exception [process_one_day] raises, and when, for rows
    whose position cells are numbers and a dataset whose "lat" and "lon",
    when it has them, are one-dimensional numeric arrays and whose time
    axis holds datetimes.  A dataset without "lat" or without "lon" gives
    KeyError; with both, an empty group of rows gives IndexError, an empty
    longitude axis ValueError (from [np.nanmin]), an empty latitude axis
    IndexError (from [lat_vals[ilat]]); in every other case of these inputs
    it returns, with one result per row.  (A position cell of text, a
    two-dimensional axis or a time axis without datetimes make it raise
    other exceptions; they are not inputs of this statement.) *)
Theorem process_one_day_outcomes (ds : Dataset) (rows : list (nat * Sample))
    (var_names : list string) (tol : Q) :
  (ds_lat ds = None → process_one_day ds rows var_names tol = Raise KeyError)
  ∧ (ds_lon ds = None → process_one_day ds rows var_names tol = Raise KeyError)
  ∧ (∀ lat_vals lon_vals,
       ds_lat ds = Some lat_vals → ds_lon ds = Some lon_vals →
       (rows = [] → process_one_day ds rows var_names tol = Raise IndexError)
       ∧ (rows ≠ [] → lon_vals = [] →
            process_one_day ds rows var_names tol = Raise ValueError)
       ∧ (rows ≠ [] → lon_vals ≠ [] → lat_vals = [] →
            process_one_day ds rows var_names tol = Raise IndexError)
       ∧ (rows ≠ [] → lon_vals ≠ [] → lat_vals ≠ [] →
            ∃ results, process_one_day ds rows var_names tol = Ok results
                       ∧ length results = length rows)).
Proof.
  split; [| split].
  - intros H. unfold process_one_day. rewrite H. reflexivity.
  - intros H. unfold process_one_day. rewrite H.
    destruct (ds_lat ds); reflexivity.
  - intros lat_vals lon_vals Hlat Hlon.
    split; [| split; [| split]].
    + intros ->. unfold process_one_day. rewrite Hlat, Hlon. reflexivity.
    + intros Hrows ->. unfold process_one_day. rewrite Hlat, Hlon.
      destruct rows as [|row rows']; [congruence |]. reflexivity.
    + intros Hrows Hne ->. unfold process_one_day. rewrite Hlat, Hlon.
      destruct rows as [|row rows']; [congruence |].
      cbn [coord_values rbind index lookup list_lookup rmapM].
      unfold process_row at 1.
      assert (∃ q, adapt_query_lon lon_vals (s_lon row.2) = Ok q) as [q ->].
      { destruct (adapt_query_lon_cases lon_vals (s_lon row.2) Hne) as [[-> _]|[-> _]];
          eauto. }
      cbn [rbind].
      destruct (nearest_index_spec lon_vals q Hne) as (ilon & nlon & -> & _).
      reflexivity.
    + intros Hrows Hne Hne'.
      destruct (process_one_day_total ds rows var_names tol lat_vals lon_vals
                  Hlat Hne' Hlon Hne Hrows) as [results Hres].
      exists results. split; [exact Hres |].
      unfold process_one_day in Hres. rewrite Hlat, Hlon in Hres.
      cbn [coord_values rbind] in Hres.
      destruct (index rows 0) as [row0|]; [| discriminate]. cbn [rbind] in Hres.
      eapply rmapM_length. exact Hres.
Qed.

Lemma process_row_keys (ds : Dataset) (lat_vals lon_vals : list Q)
    (ti : option nat) (vars : list string) (tol : Q) (row : nat * Sample)
    (item : nat * gmap string cell) :
  process_row ds lat_vals lon_vals ti vars tol row = Ok item →
  ∀ v, is_Some (item.2 !! v) ↔ v ∈ vars.
Proof.
  unfold process_row.
  destruct (adapt_query_lon _ _) as [qlon|]; [| discriminate]. cbn [rbind].
  destruct (nearest_index lat_vals _) as [ilat|]; [| discriminate]. cbn [rbind].
  destruct (nearest_index lon_vals _) as [ilon|]; [| discriminate]. cbn [rbind].
  destruct (index lat_vals ilat) as [nlat|]; [| discriminate]. cbn [rbind].
  destruct (index lon_vals ilon) as [nlon|]; [| discriminate]. cbn [rbind].
  destruct (out_of_tolerance _ _ _); intros [= <-] v; cbn [snd].
  - rewrite fill_nan_lookup. destruct (decide (v ∈ vars)) as [H|H].
    + split; [auto | intros _; eexists; reflexivity].
    + split; [intros [x Hx]; discriminate | contradiction].
  - rewrite extract_vars_lookup. destruct (decide (v ∈ vars)) as [H|H].
    + split; [auto | intros _; eexists; reflexivity].
    + split; [intros [x Hx]; discriminate | contradiction].
Qed.

(** X9: when [process_one_day] returns, its result has one entry per row,
    in the order of the rows and under the rows' labels, and the dictionary
    of each entry has exactly the requested variable names as keys. *)
Theorem process_one_day_result_shape (ds : Dataset)
    (rows : list (nat * Sample)) (var_names : list string) (tol : Q)
    (results : list (nat * gmap string cell)) :
  process_one_day ds rows var_names tol = Ok results →
  map fst results = map fst rows
  ∧ ∀ item, item ∈ results → ∀ v, is_Some (item.2 !! v) ↔ v ∈ var_names.
Proof.
  intros H.
  destruct (process_one_day_Ok _ _ _ _ _ H)
    as (lat_vals & lon_vals & row0 & _ & _ & _ & Hall & Hfst).
  split; [exact Hfst |].
  intros item Hitem v.
  apply list_elem_of_lookup in Hitem as [j Hj].
  destruct (Forall2_lookup_r _ _ _ _ _ Hall Hj) as (row & _ & Hrow).
  exact (process_row_keys _ _ _ _ _ _ _ _ Hrow v).
Qed.

Lemma process_one_day_result_shape_witness :
  ∃ results,
    process_one_day ds_20200315 [(O, sample_20200315)] ["CHL"%string]
      DEFAULT_TOL_DEG = Ok results
    ∧ map fst results = map fst [(O, sample_20200315)]
    ∧ ∀ item, item ∈ results →
        ∀ v, is_Some (item.2 !! v) ↔ v ∈ ["CHL"%string].
Proof.
  eexists. split; [vm_compute; reflexivity |].
  apply (process_one_day_result_shape ds_20200315 [(O, sample_20200315)]
           ["CHL"%string] DEFAULT_TOL_DEG).
  vm_compute. reflexivity.
Defined.

(** ** The time index *)

(** X10: the index [compute_time_index] returns is always a position of
    the time axis, it returns none only for an empty axis, and when the
    sample's day is itself a time step of the dataset the index selected
    holds exactly that time step (its first occurrence). *)
Theorem compute_time_index_in_bounds (ds : Dataset) (when : Z) :
  (∀ k, compute_time_index ds when = Some k → (k < length (ds_time ds))%nat)
  ∧ (compute_time_index ds when = None ↔ ds_time ds = [])
  ∧ (∀ j, ds_time ds !! j = Some when →
       ∃ k, compute_time_index ds when = Some k
            ∧ ds_time ds !! k = Some when ∧ (k <= j)%nat).
Proof.
  assert (Hcases : ds_time ds = [] ∨ (∃ t, ds_time ds = [t])
                   ∨ (2 <= length (ds_time ds))%nat).
  { destruct (ds_time ds) as [|t [|t' l]]; [auto | right; left; eauto |].
    right; right. simpl. lia. }
  split; [| split].
  - intros k Hk. destruct Hcases as [H|[[t H]|H]].
    + unfold compute_time_index in Hk. rewrite H in Hk. discriminate.
    + unfold compute_time_index in Hk. rewrite H in Hk. simpl in Hk.
      injection Hk as <-. rewrite H. simpl. lia.
    + destruct (compute_time_index_nearest ds when H) as (k' & tk & Hk' & Htk & _).
      rewrite Hk' in Hk. injection Hk as <-. eapply lookup_lt_Some. exact Htk.
  - destruct Hcases as [H|[[t H]|H]].
    + unfold compute_time_index. rewrite H. simpl. tauto.
    + unfold compute_time_index. rewrite H. simpl. split; discriminate.
    + destruct (compute_time_index_nearest ds when H) as (k' & tk & Hk' & _).
      rewrite Hk'. split; [discriminate |]. intros E. rewrite E in H. simpl in H. lia.
  - intros j Hj. destruct Hcases as [H|[[t H]|H]].
    + rewrite H in Hj. discriminate.
    + unfold compute_time_index. rewrite H in *. simpl.
      destruct j as [|j]; [| discriminate]. exists O. auto.
    + destruct (compute_time_index_nearest ds when H)
        as (k & tk & Hk & Htk & Hmin & Hfirst).
      exists k. split; [exact Hk |].
      pose proof (Hmin j when Hj) as Hle.
      assert (tk = when) by lia. subst tk. split; [exact Htk |].
      destruct (le_lt_dec k j) as [Hkj|Hkj]; [exact Hkj |].
      pose proof (Hfirst j when Hkj Hj). lia.
Qed.

(** ** The day-groups *)

Lemma sorted_set_fst_groupby (rows : list (nat * Sample)) :
  map fst (groupby_date rows)
  = sorted_set ts_compare (map (fun r => s_date r.2) rows).
Proof.
  unfold groupby_date. rewrite map_map. cbn [fst]. apply map_id.
Qed.

(** X11: [groupby] partitions the rows by date.  The groups come in
    strictly ascending date order, none is empty, each holds exactly the
    rows of its date in table order, and every row of the table is in the
    group of its date and in no other. *)
Theorem groupby_date_partition (rows : list (nat * Sample)) :
  StronglySorted (cmp_lt ts_compare) (map fst (groupby_date rows))
  ∧ (∀ day group, (day, group) ∈ groupby_date rows →
       group ≠ [] ∧ group = filter (fun r => s_date r.2 = day) rows)
  ∧ (∀ row, row ∈ rows →
       ∃ group, (s_date row.2, group) ∈ groupby_date rows ∧ row ∈ group)
  ∧ (∀ row day group day' group',
       (day, group) ∈ groupby_date rows → (day', group') ∈ groupby_date rows →
       row ∈ group → row ∈ group' → day = day' ∧ group = group').
Proof.
  split; [| split; [| split]].
  - rewrite sorted_set_fst_groupby. apply (sorted_set_sorted ts_compare).
  - intros day group Hg.
    destruct (groupby_date_group _ _ _ Hg) as (Hf & Hne & _). auto.
  - intros row Hrow.
    exists (filter (fun r => s_date r.2 = s_date row.2) rows). split.
    + unfold groupby_date. apply list_elem_of_fmap. exists (s_date row.2).
      split; [reflexivity |]. apply (elem_of_sorted_set ts_compare).
      apply list_elem_of_fmap. exists row. auto.
    + apply list_elem_of_filter. auto.
  - intros row day group day' group' Hg Hg' Hr Hr'.
    destruct (groupby_date_group _ _ _ Hg) as (Hf & _ & Hd).
    destruct (groupby_date_group _ _ _ Hg') as (Hf' & _ & Hd').
    destruct (Hd row Hr) as [_ E]. destruct (Hd' row Hr') as [_ E'].
    assert (Hdd : day = day') by congruence.
    split; [exact Hdd |]. rewrite Hf, Hf', Hdd. reflexivity.
Qed.

(** ** Handles along a run *)

Lemma open_handles_from_cons (o : list string) (e : event) (tr : list event) :
  open_handles_from o (e :: tr) = open_handles_from (open_handles_from o [e]) tr.
Proof. destruct e; reflexivity. Qed.

Lemma peak_open_start (o : list string) (tr : list event) :
  (length o <= peak_open o tr)%nat.
Proof. destruct tr; simpl; lia. Qed.

Lemma peak_open_app (o : list string) (t1 t2 : list event) :
  peak_open o (t1 ++ t2)
  = Nat.max (peak_open o t1) (peak_open (open_handles_from o t1) t2).
Proof.
  revert o. induction t1 as [|e t1 IH]; intros o.
  - cbn [app peak_open open_handles_from].
    pose proof (peak_open_start o t2). lia.
  - cbn [app peak_open]. rewrite IH, (open_handles_from_cons o e t1). lia.
Qed.

Lemma peak_open_prefix (o : list string) (pre post : list event) :
  (length (open_handles_from o pre) <= peak_open o (pre ++ post))%nat.
Proof.
  rewrite peak_open_app.
  pose proof (peak_open_start (open_handles_from o pre) post). lia.
Qed.

Lemma prints_keep_handles (msgs : list event) (o : list string) :
  (∀ e, e ∈ msgs → ∃ m, e = EvPrint m) →
  open_handles_from o msgs = o ∧ peak_open o msgs = length o.
Proof.
  induction msgs as [|e msgs IH]; intros Hm; [auto |].
  destruct (Hm e ltac:(left)) as [m ->].
  destruct IH as [IH1 IH2]; [intros e' He'; apply Hm; right; exact He' |].
  cbn [open_handles_from peak_open]. rewrite IH1, IH2. split; [reflexivity | lia].
Qed.

Lemma process_product_peak (fs : FileSystem) (a : Args) (p : product)
    (base_dir : string) (vars : list string) (gi total : nat)
    (day : Timestamp) (rows : list (nat * Sample)) (st : State) :
  ∃ sfx,
    trace (final_state (process_product fs a p base_dir vars gi total day rows st))
    = trace st ++ sfx
    ∧ (peak_open [] sfx <= 1)%nat
    ∧ (count_prints sfx <= 1)%nat
    ∧ (∀ st', process_product fs a p base_dir vars gi total day rows st = Done st' →
              open_handles_from [] sfx = []).
Proof.
  unfold process_product.
  destruct (file_candidates_for_date fs base_dir _ _ _) as [|c0 cands].
  - exists [EvPrint (MsgNoFile gi total day p)].
    split; [reflexivity |]. cbn. auto.
  - destruct (open_first fs (c0 :: cands)) as [[path ds]|].
    + set (msgs := match filter (fun v => ¬ is_Some (data_vars ds !! v)) vars with
                   | [] => []
                   | missing => [EvPrint (MsgMissing gi total day p missing)]
                   end).
      assert (Hmsgs : ∀ e, e ∈ msgs → ∃ m, e = EvPrint m).
      { unfold msgs. destruct (filter _ vars); intros e He; [inversion He |].
        apply list_elem_of_singleton in He. eauto. }
      assert (Hcount : (count_prints msgs <= 1)%nat).
      { unfold msgs. destruct (filter _ vars); cbn; lia. }
      assert (Hst : trace (match filter (fun v => ¬ is_Some (data_vars ds !! v)) vars with
                           | [] => emit (EvOpen path) st
                           | _ :: _ =>
                               emit (EvPrint (MsgMissing gi total day p
                                 (filter (fun v => ¬ is_Some (data_vars ds !! v)) vars)))
                                 (emit (EvOpen path) st)
                           end) = trace st ++ EvOpen path :: msgs).
      { unfold msgs. destruct (filter _ vars); cbn [emit trace];
          rewrite <- ?app_assoc; reflexivity. }
      destruct (prints_keep_handles msgs [path] Hmsgs) as [Hkeep Hpeak].
      assert (Hcnt : ∀ l, count_prints (msgs ++ l) = (count_prints msgs + count_prints l)%nat).
      { intros l. clear -Hmsgs. induction msgs as [|e msgs IH]; [reflexivity |].
        destruct (Hmsgs e ltac:(left)) as [m ->]. cbn [app count_prints].
        rewrite IH; [reflexivity |]. intros e' He'. apply Hmsgs. right. exact He'. }
      destruct (process_one_day ds rows _ (tol_deg a)) as [results|e].
      * exists (EvOpen path :: msgs ++ [EvClose path]).
        cbn [final_state emit set_df trace]. rewrite Hst.
        split; [rewrite <- app_assoc; reflexivity |].
        split; [| split].
        -- cbn [peak_open open_handles_from app length].
           rewrite peak_open_app, Hpeak, Hkeep. cbn [peak_open open_handles_from length].
           rewrite filter_cons, decide_False by (intros Hne; apply Hne; reflexivity).
           cbn. lia.
        -- cbn [count_prints]. rewrite Hcnt. cbn [count_prints]. lia.
        -- intros _ _. apply open_close_balanced, Hmsgs.
      * exists (EvOpen path :: msgs). cbn [final_state]. rewrite Hst.
        split; [reflexivity |]. split; [| split; [| discriminate]].
        -- cbn [peak_open open_handles_from app length]. rewrite Hpeak. cbn. lia.
        -- cbn [count_prints]. exact Hcount.
    + exists [EvPrint (MsgCouldNotOpen gi total day p)].
      split; [reflexivity |]. cbn. auto.
Qed.

Lemma count_prints_app (t1 t2 : list event) :
  count_prints (t1 ++ t2) = (count_prints t1 + count_prints t2)%nat.
Proof.
  induction t1 as [|e t1 IH]; [reflexivity |].
  destruct e; cbn [app count_prints]; rewrite IH; reflexivity.
Qed.

Lemma process_group_peak (fs : FileSystem) (a : Args) (total gi : nat)
    (group : Timestamp * list (nat * Sample)) (st : State) :
  ∃ sfx,
    trace (final_state (process_group fs a total gi group st)) = trace st ++ sfx
    ∧ (peak_open [] sfx <= 1)%nat
    ∧ (count_prints sfx <= 3)%nat
    ∧ (optics_configured a = None → (count_prints sfx <= 2)%nat)
    ∧ (∀ st', process_group fs a total gi group st = Done st' →
              open_handles_from [] sfx = []).
Proof.
  unfold process_group.
  destruct (process_product_peak fs a Plankton (plankton_base_dir a)
              (plankton_vars a) gi total group.1 group.2 (emit (EvGroup gi) st))
    as (sfx1 & Ht1 & Hp1 & Hn1 & Hc1).
  cbn [emit trace] in Ht1. rewrite <- app_assoc in Ht1. cbn [app] in Ht1.
  destruct (process_product fs a Plankton _ _ _ _ _ _ _) as [st1|e st1];
    cbn [run_bind final_state] in *.
  - specialize (Hc1 st1 eq_refl).
    assert (Hopt : ∃ sfx2,
              trace (final_state
                       (match optics_configured a with
                        | Some optics_dir =>
                            process_product fs a Optics optics_dir (optics_vars a)
                              gi total group.1 group.2 st1
                        | None => Done st1
                        end)) = trace st1 ++ sfx2
              ∧ (peak_open [] sfx2 <= 1)%nat
              ∧ (count_prints sfx2 <= 1)%nat
              ∧ (optics_configured a = None → sfx2 = [])
              ∧ (∀ st', match optics_configured a with
                        | Some optics_dir =>
                            process_product fs a Optics optics_dir (optics_vars a)
                              gi total group.1 group.2 st1
                        | None => Done st1
                        end = Done st' → open_handles_from [] sfx2 = [])).
    { destruct (optics_configured a) as [optics_dir|].
      - destruct (process_product_peak fs a Optics optics_dir (optics_vars a)
                    gi total group.1 group.2 st1) as (sfx2 & H1 & H2 & H3 & H4).
        exists sfx2. do 3 (split; [assumption |]). split; [discriminate | exact H4].
      - exists []. cbn [final_state]. rewrite app_nil_r. cbn. auto. }
    destruct Hopt as (sfx2 & Ht2 & Hp2 & Hn2 & Hnone & Hc2).
    destruct (match optics_configured a with Some _ => _ | None => _ end)
      as [st2|e st2]; cbn [run_bind final_state] in *.
    + exists (EvGroup gi :: sfx1 ++ sfx2
              ++ [EvPrint (MsgDone gi total group.1 (length group.2))]).
      cbn [emit trace]. rewrite Ht2, Ht1, <- !app_assoc. cbn [app].
      split; [reflexivity |]. specialize (Hc2 st2 eq_refl).
      split; [| split; [| split]].
      * cbn [peak_open open_handles_from length].
        rewrite !peak_open_app, Hc1, Hc2. cbn. lia.
      * cbn [count_prints]. rewrite !count_prints_app. cbn [count_prints]. lia.
      * intros Hn. rewrite (Hnone Hn). cbn [count_prints app]. 
        rewrite count_prints_app. cbn [count_prints]. lia.
      * intros _ _. cbn [open_handles_from].
        rewrite !open_handles_from_app, Hc1, Hc2. reflexivity.
    + exists (EvGroup gi :: sfx1 ++ sfx2). rewrite Ht2, Ht1, <- app_assoc. cbn [app].
      split; [reflexivity |]. split; [| split; [| split; [| discriminate]]].
      * cbn [peak_open open_handles_from length].
        rewrite peak_open_app, Hc1. lia.
      * cbn [count_prints]. rewrite count_prints_app. lia.
      * intros Hn. rewrite (Hnone Hn), app_nil_r. cbn [count_prints]. lia.
  - exists (EvGroup gi :: sfx1). split; [exact Ht1 |].
    split; [| split; [| split; [| discriminate]]].
    + cbn [peak_open open_handles_from length]. lia.
    + cbn [count_prints]. lia.
    + intros _. cbn [count_prints]. lia.
Qed.

Lemma process_groups_peak (fs : FileSystem) (a : Args) (total : nat)
    (groups : list (Timestamp * list (nat * Sample))) :
  ∀ gi st,
    open_handles (trace st) = [] →
    (peak_open [] (trace st) <= 1)%nat →
    let r := process_groups fs a total gi groups st in
    (peak_open [] (trace (final_state r)) <= 1)%nat
    ∧ (count_prints (trace (final_state r))
       <= count_prints (trace st) + 3 * length groups)%nat
    ∧ (optics_configured a = None →
       (count_prints (trace (final_state r))
        <= count_prints (trace st) + 2 * length groups)%nat).
Proof.
  induction groups as [|g rest IH]; intros gi st Hclosed Hpeak; cbv zeta;
    cbn [process_groups].
  - cbn [final_state length]. split; [exact Hpeak |]. split; [lia | intros _; lia].
  - destruct (process_group_peak fs a total gi g st)
      as (sfx & Ht & Hp & Hn3 & Hn2 & Hc).
    assert (Hpk : (peak_open [] (trace st ++ sfx) <= 1)%nat).
    { rewrite peak_open_app. fold (open_handles (trace st)). rewrite Hclosed. lia. }
    destruct (process_group fs a total gi g st) as [st1|e st1];
      cbn [run_bind final_state] in *.
    + destruct (IH (S gi) st1) as (H1 & H2 & H3).
      * rewrite Ht. unfold open_handles. rewrite open_handles_from_app.
        fold (open_handles (trace st)). rewrite Hclosed. apply (Hc st1 eq_refl).
      * rewrite Ht. exact Hpk.
      * cbv zeta in H1, H2, H3. rewrite Ht, count_prints_app in H2, H3.
        cbn [length]. split; [exact H1 |]. split; [lia |].
        intros Hnone. specialize (H3 Hnone). specialize (Hn2 Hnone). lia.
    + rewrite Ht, count_prints_app. cbn [length].
      split; [exact Hpk |]. split; [lia |].
      intros Hnone. specialize (Hn2 Hnone). lia.
Qed.

(** X12: along every run, complete or cut short, at most one dataset is
    open at any moment (the plankton dataset is closed before the optics
    files are looked at), no dataset is open when a day-group begins, and
    none is open when the run returns. *)
Theorem at_most_one_dataset_open (fs : FileSystem) (a : Args)
    (table : DataFrame) :
  let tr := trace (final_state (main fs a table)) in
  (∀ pre post, tr = pre ++ post → (length (open_handles pre) <= 1)%nat)
  ∧ (∀ pre gi post, tr = pre ++ EvGroup gi :: post → open_handles pre = [])
  ∧ (∀ st, main fs a table = Done st → open_handles (trace st) = []).
Proof.
  cbv zeta. split.
  - intros pre post Heq.
    pose proof (peak_open_prefix [] pre post) as Hle. rewrite <- Heq in Hle.
    unfold main in Hle.
    destruct (process_groups_peak fs a
                (length (groupby_date (iterrows (prepare_columns a table))))
                (groupby_date (iterrows (prepare_columns a table))) 1
                {| df := prepare_columns a table;
                   trace := [EvPrint (MsgProcessing
                     (length (groupby_date (iterrows (prepare_columns a table)))))] |}
                eq_refl ltac:(cbn; lia)) as (Hpk & _).
    cbv zeta in Hpk. unfold open_handles. lia.
  - apply groups_begin_with_no_open_handle.
Qed.

(** X13: the messages of a run are per day, not per sample: whatever the
    number of samples and of variables, a run prints, up to the end of the
    day loop, at most one message before the loop and three per day-group
    (one per product and the "done" line), two per day-group when no optics
    directory is configured. *)
Theorem messages_are_per_day (fs : FileSystem) (a : Args) (table : DataFrame) :
  let tr := trace (final_state (main fs a table)) in
  let ngroups := length (groupby_date (iterrows table)) in
  (count_prints tr <= 1 + 3 * ngroups)%nat
  ∧ (optics_configured a = None → (count_prints tr <= 1 + 2 * ngroups)%nat).
Proof.
  cbv zeta. unfold main. rewrite iterrows_prepare.
  destruct (process_groups_peak fs a
              (length (groupby_date (iterrows table)))
              (groupby_date (iterrows table)) 1
              {| df := prepare_columns a table;
                 trace := [EvPrint (MsgProcessing
                   (length (groupby_date (iterrows table))))] |}
              eq_refl ltac:(cbn; lia)) as (_ & H3 & H2).
  cbv zeta in H3, H2. cbn [trace count_prints] in H3, H2.
  split; [exact H3 | exact H2].
Qed.

(** ** The table along a run *)

Lemma fs_optics_only_has_axes : datasets_have_axes fs_optics_only.
Proof.
  intros path ds. unfold fs_optics_only. cbn [open_dataset].
  destruct (String.eqb path _); [| discriminate].
  intros [= <-]. do 2 eexists.
  split; [reflexivity |]. split; [discriminate |].
  split; [reflexivity | discriminate].
Qed.

(** X14: for a table whose position cells are numbers and data cells
    floats, and datasets whose axes are one-dimensional numeric arrays with
    datetimes on the time axis: when every dataset that opens has a
    latitude and a longitude axis with at least one value each, the day
    loop never raises, whatever the rows, the files present and the
    arguments; it reaches its end with the same number of rows and no
    dataset left open.  (A position cell of text, a two-dimensional axis or
    a time axis without datetimes make the run raise; they are not inputs
    of this statement.) *)
Theorem run_completes_when_axes_present (fs : FileSystem) (a : Args)
    (table : DataFrame) :
  datasets_have_axes fs →
  ∃ st, main fs a table = Done st
        ∧ length (df_rows (df st)) = length (df_rows table)
        ∧ open_handles (trace st) = [].
Proof.
  intros Hfs. destruct (main_completes fs a table Hfs) as [st Hst].
  exists st. split; [exact Hst |]. split.
  - destruct (prepared_columns a table) as [Hp Ho].
    destruct (prepare_columns_spec a table) as (Hrows & _).
    pose proof (process_groups_frame fs a
                  (length (groupby_date (iterrows (prepare_columns a table))))
                  (groupby_date (iterrows (prepare_columns a table))) 1
                  {| df := prepare_columns a table;
                     trace := [EvPrint (MsgProcessing
                       (length (groupby_date (iterrows (prepare_columns a table)))))] |}
                  Hp Ho) as (Hr & _).
    unfold main in Hst. rewrite Hst in Hr. cbn [final_state df] in Hr.
    rewrite Hr, Hrows. reflexivity.
  - destruct (groups_begin_with_no_open_handle fs a table) as [_ H].
    apply H, Hst.
Qed.

Lemma run_completes_when_axes_present_witness :
  datasets_have_axes fs_optics_only
  ∧ ∃ st, main fs_optics_only args_default table_one = Done st
          ∧ length (df_rows (df st)) = length (df_rows table_one)
          ∧ open_handles (trace st) = [].
Proof.
  split; [exact fs_optics_only_has_axes |].
  exact (run_completes_when_axes_present fs_optics_only args_default table_one
           fs_optics_only_has_axes).
Defined.

Lemma process_group_other_columns (fs : FileSystem) (a : Args) (total gi : nat)
    (group : Timestamp * list (nat * Sample)) (st : State) :
  (∀ v, v ∈ plankton_vars a → v ∈ columns (df st)) →
  (∀ w, w ∈ optics_vars a → out_name Optics w ∈ columns (df st)) →
  ∀ c i, c ∉ plankton_vars a → c ∉ out_columns Optics (optics_vars a) →
    cells (df (final_state (process_group fs a total gi group st))) !! (c, i)
    = cells (df st) !! (c, i).
Proof.
  intros Hp Ho c i Hcp Hco. unfold process_group.
  pose proof (process_product_df fs a Plankton (plankton_base_dir a)
                (plankton_vars a) gi total group.1 group.2
                (emit (EvGroup gi) st) Hp) as H1.
  cbv zeta in H1.
  destruct (process_product fs a Plankton _ _ _ _ _ _ _) as [st1|e st1];
    cbn [run_bind final_state].
  - destruct H1 as (_ & Hc1 & _ & Hf1 & _). cbn [df emit] in Hc1, Hf1.
    assert (E1 : cells (df st1) !! (c, i) = cells (df st) !! (c, i)).
    { apply Hf1. right. rewrite out_columns_plankton. exact Hcp. }
    destruct (optics_configured a) as [optics_dir|].
    + assert (Ho1 : ∀ w, w ∈ optics_vars a → out_name Optics w ∈ columns (df st1))
        by (intros w Hw; rewrite Hc1; apply Ho, Hw).
      pose proof (process_product_df fs a Optics optics_dir (optics_vars a)
                    gi total group.1 group.2 st1 Ho1) as H2.
      cbv zeta in H2.
      destruct (process_product fs a Optics _ _ _ _ _ _ _) as [st2|e st2];
        cbn [run_bind final_state df emit].
      * destruct H2 as (_ & _ & _ & Hf2 & _). rewrite Hf2 by (right; exact Hco).
        exact E1.
      * destruct H2 as [-> _]. exact E1.
    + cbn [run_bind final_state df emit]. exact E1.
  - destruct H1 as [-> _]. reflexivity.
Qed.

Lemma process_groups_other_columns (fs : FileSystem) (a : Args) (total : nat)
    (groups : list (Timestamp * list (nat * Sample))) :
  ∀ gi st,
    (∀ v, v ∈ plankton_vars a → v ∈ columns (df st)) →
    (∀ w, w ∈ optics_vars a → out_name Optics w ∈ columns (df st)) →
    ∀ c i, c ∉ plankton_vars a → c ∉ out_columns Optics (optics_vars a) →
      cells (df (final_state (process_groups fs a total gi groups st))) !! (c, i)
      = cells (df st) !! (c, i).
Proof.
  induction groups as [|g rest IH]; intros gi st Hp Ho c i Hcp Hco;
    cbn [process_groups]; [reflexivity |].
  pose proof (process_group_other_columns fs a total gi g st Hp Ho c i Hcp Hco) as E1.
  destruct (process_group_frame fs a total gi g st Hp Ho) as (_ & Hc1 & _).
  destruct (process_group fs a total gi g st) as [st1|e st1];
    cbn [run_bind final_state] in *; [| exact E1].
  rewrite IH; [exact E1 | | | exact Hcp | exact Hco].
  - intros v Hv. rewrite Hc1. apply Hp, Hv.
  - intros w Hw. rewrite Hc1. apply Ho, Hw.
Qed.

(** X15: a run, complete or cut short, changes nothing but the cells of the
    output columns at the rows of the table: the number of rows is kept,
    the columns are those of the prepared table, every cell of a column that
    is not an output column of one of the two products is the input's cell,
    and no cell appears at a row label outside the table. *)
Theorem run_changes_output_columns_only (fs : FileSystem) (a : Args)
    (table : DataFrame) :
  let st := final_state (main fs a table) in
  length (df_rows (df st)) = length (df_rows table)
  ∧ columns (df st) = columns (prepare_columns a table)
  ∧ (∀ c, c ∈ columns table → c ∈ columns (df st))
  ∧ (∀ c i, c ∉ plankton_vars a → c ∉ out_columns Optics (optics_vars a) →
            cells (df st) !! (c, i) = cells table !! (c, i))
  ∧ (∀ c i, (length (df_rows table) <= i)%nat →
            cells (df st) !! (c, i) = cells table !! (c, i)).
Proof.
  cbv zeta. unfold main.
  destruct (prepared_columns a table) as [Hp Ho].
  destruct (prepare_columns_spec a table) as (Hrows & Hcols & _ & Hold & Hnew).
  set (d := prepare_columns a table) in *.
  set (st0 := {| df := d; trace := _ |}).
  pose proof (process_groups_frame fs a (length (groupby_date (iterrows d)))
                (groupby_date (iterrows d)) 1 st0 Hp Ho) as (Hr & Hc & _ & Hf).
  pose proof (process_groups_other_columns fs a (length (groupby_date (iterrows d)))
                (groupby_date (iterrows d)) 1 st0 Hp Ho) as Hother.
  cbn [df st0] in Hr, Hc, Hf, Hother.
  split; [rewrite Hr, Hrows; reflexivity |].
  split; [exact Hc |].
  split; [intros c Hcin; rewrite Hc; apply Hcols; left; exact Hcin |].
  assert (Hprep : ∀ c i,
            ((c ∉ plankton_vars a) ∧ (c ∉ out_columns Optics (optics_vars a)))
            ∨ (length (df_rows table) <= i)%nat →
            cells d !! (c, i) = cells table !! (c, i)).
  { intros c i Hci. unfold d, prepare_columns.
    destruct (ensure_columns_spec (fun v => v) (plankton_vars a) table)
      as (Hr1 & _ & _ & Hl1).
    destruct (ensure_columns_spec (out_name Optics) (optics_vars a)
                (foldl (fun d v => ensure_column v d) table (plankton_vars a)))
      as (_ & _ & _ & Hl2).
    rewrite Hl2, Hl1, Hr1, map_id. unfold out_columns in Hci.
    repeat case_decide; try reflexivity; exfalso;
      destruct Hci as [[? ?]|?]; try tauto; lia. }
  split.
  - intros c i Hcp Hco. rewrite Hother by assumption. apply Hprep. left. auto.
  - intros c i Hi. rewrite Hf; [apply Hprep; right; exact Hi |].
    intros [day rows] Hg Hin. cbn [snd] in Hin.
    apply list_elem_of_fmap in Hin as ([i' s] & Heq & Hrow). cbn [fst] in Heq. subst i'.
    destruct (groupby_date_group _ _ _ Hg) as (_ & _ & Hsub).
    destruct (Hsub _ Hrow) as [Hrow' _]. apply elem_of_iterrows in Hrow'.
    apply lookup_lt_Some in Hrow'. rewrite Hrows in Hrow'. lia.
Qed.

(** ** The output columns *)

Lemma ensure_columns_id (f : string → string) (vars : list string) (d : DataFrame) :
  (∀ v, v ∈ vars → f v ∈ columns d) →
  foldl (fun d v => ensure_column (f v) d) d vars = d.
Proof.
  induction vars as [|v vars IH]; intros H; cbn [foldl]; [reflexivity |].
  unfold ensure_column at 2. rewrite decide_True by (apply H; left).
  apply IH. intros w Hw. apply H. right. exact Hw.
Qed.

Lemma ensure_columns_append (f : string → string) (vars : list string) :
  ∀ d, ∃ new,
    columns (foldl (fun d v => ensure_column (f v) d) d vars) = columns d ++ new
    ∧ NoDup new
    ∧ ∀ c, c ∈ new ↔ (c ∉ columns d) ∧ c ∈ map f vars.
Proof.
  induction vars as [|v vars IH]; intros d; cbn [foldl map].
  - exists []. rewrite app_nil_r. split; [reflexivity |]. split; [constructor |].
    intros c. rewrite !elem_of_nil. tauto.
  - assert (Hcol : columns (ensure_column (f v) d)
                  = columns d ++ (if decide (f v ∈ columns d) then [] else [f v])).
    { unfold ensure_column, set_column_nan.
      destruct (decide (f v ∈ columns d)) as [Hv|Hv]; cbn [columns].
      - rewrite app_nil_r. reflexivity.
      - reflexivity. }
    destruct (IH (ensure_column (f v) d)) as (new & Hc & Hnd & Hin).
    rewrite Hcol in Hc. setoid_rewrite Hcol in Hin.
    destruct (decide (f v ∈ columns d)) as [Hv|Hv].
    + rewrite app_nil_r in Hc. setoid_rewrite app_nil_r in Hin.
      exists new. split; [exact Hc |]. split; [exact Hnd |].
      intros c. rewrite Hin, elem_of_cons. split; [tauto |].
      intros [Hn [->|Hm]]; [contradiction | auto].
    + exists (f v :: new). split; [rewrite Hc, <- app_assoc; reflexivity |].
      split.
      * apply NoDup_cons. split; [| exact Hnd].
        intros Hn. apply Hin in Hn as [Hn _]. apply Hn.
        apply elem_of_app. right. left.
      * intros c. rewrite !elem_of_cons, Hin, elem_of_app, list_elem_of_singleton.
        destruct (decide (c = f v)) as [->|Hne]; tauto.
Qed.

(** X16: the preparation of the output columns appends the requested
    columns the table lacks after the table's own columns, each once, in
    the order plankton then optics; the appended columns hold [np.nan] at
    every row and the table's own cells are kept; nothing is done when every
    requested column exists, so that preparing twice is preparing once. *)
Theorem prepare_columns_appends_missing (a : Args) (d : DataFrame) :
  (∃ new,
     columns (prepare_columns a d) = columns d ++ new
     ∧ NoDup new
     ∧ (∀ c, c ∈ new ↔ (c ∉ columns d)
                        ∧ (c ∈ plankton_vars a
                           ∨ c ∈ out_columns Optics (optics_vars a)))
     ∧ (∀ c i, c ∈ new → (i < length (df_rows d))%nat →
               cells (prepare_columns a d) !! (c, i) = Some NaN)
     ∧ (∀ c i, c ∉ new → cells (prepare_columns a d) !! (c, i) = cells d !! (c, i)))
  ∧ ((∀ v, v ∈ plankton_vars a → v ∈ columns d) →
     (∀ w, w ∈ optics_vars a → out_name Optics w ∈ columns d) →
     prepare_columns a d = d)
  ∧ prepare_columns a (prepare_columns a d) = prepare_columns a d.
Proof.
  assert (Hid : ∀ d',
            (∀ v, v ∈ plankton_vars a → v ∈ columns d') →
            (∀ w, w ∈ optics_vars a → out_name Optics w ∈ columns d') →
            prepare_columns a d' = d').
  { intros d' Hp Ho. unfold prepare_columns.
    rewrite (ensure_columns_id (fun v => v)) by exact Hp.
    apply ensure_columns_id, Ho. }
  split; [| split; [apply Hid |]].
  - unfold prepare_columns.
    destruct (ensure_columns_append (fun v => v) (plankton_vars a) d)
      as (new1 & Hc1 & Hnd1 & Hin1).
    destruct (ensure_columns_spec (fun v => v) (plankton_vars a) d)
      as (Hr1 & _ & _ & Hl1).
    set (d1 := foldl (fun d v => ensure_column v d) d (plankton_vars a)) in *.
    destruct (ensure_columns_append (out_name Optics) (optics_vars a) d1)
      as (new2 & Hc2 & Hnd2 & Hin2).
    destruct (ensure_columns_spec (out_name Optics) (optics_vars a) d1)
      as (_ & _ & _ & Hl2).
    rewrite map_id in Hin1, Hl1.
    assert (Hmem : ∀ c, c ∈ new1 ++ new2
                        ↔ (c ∉ columns d)
                          ∧ (c ∈ plankton_vars a
                             ∨ c ∈ out_columns Optics (optics_vars a))).
    { intros c. rewrite elem_of_app, Hin1, Hin2, Hc1, elem_of_app, Hin1.
      unfold out_columns. destruct (decide (c ∈ plankton_vars a)); tauto. }
    exists (new1 ++ new2).
    split; [rewrite Hc2, Hc1, <- app_assoc; reflexivity |].
    split.
    { apply NoDup_app. split; [exact Hnd1 |]. split; [| exact Hnd2].
      intros c H1 H2. apply Hin2 in H2 as [H2 _]. apply H2.
      rewrite Hc1. apply elem_of_app. right. exact H1. }
    split; [exact Hmem |].
    assert (Hcc : ∀ c, c ∈ columns d1 ↔ c ∈ columns d ∨ c ∈ plankton_vars a).
    { intros c. rewrite Hc1, elem_of_app, Hin1.
      destruct (decide (c ∈ columns d)); tauto. }
    split.
    + intros c i Hc Hi. apply Hmem in Hc as [Hn Hreq].
      rewrite Hl2, Hl1, Hr1. unfold out_columns in Hreq. pose proof (Hcc c).
      repeat case_decide; try reflexivity; exfalso; tauto.
    + intros c i Hc. rewrite Hmem in Hc.
      rewrite Hl2, Hl1, Hr1. unfold out_columns in Hc. pose proof (Hcc c).
      repeat case_decide; try reflexivity; exfalso; tauto.
  - destruct (prepared_columns a d) as [Hp Ho]. apply Hid; assumption.
Qed.

(** ** The cells a completed run writes *)

Lemma main_product_outcome (fs : FileSystem) (a : Args) (table : DataFrame)
    (st : State) (p : product) (base_dir : string) (vars : list string)
    (day : Timestamp) (rows : list (nat * Sample)) (v : string) :
  main fs a table = Done st → collision_free a →
  product_of_run a p base_dir vars →
  (day, rows) ∈ groupby_date (iterrows table) → v ∈ vars →
  product_outcome fs a p base_dir vars day rows (prepare_columns a table) (df st) v.
Proof.
  intros Hrun [Hdisj Hinj] Hprod Hg Hv.
  unfold main in Hrun. rewrite iterrows_prepare in Hrun.
  destruct (prepared_columns a table) as [Hp Ho].
  destruct (groupby_date_ok (iterrows table) (iterrows_NoDup table)) as [Hok Hdis].
  pose proof (fun H1 H2 => process_groups_cells fs a _ _ _ _ _ H1 H2 Hok Hdis Hrun)
    as Hcells.
  cbn [df] in Hcells. specialize (Hcells Hp Ho).
  destruct (Hcells day rows Hg) as (Hpl & Hop & _).
  destruct Hprod as [(-> & -> & ->)|(-> & Hconf & ->)].
  - apply Hpl; [exact Hv |].
    intros _ Hin. apply list_elem_of_fmap in Hin as (w & Hw & Hwin).
    exact (Hdisj v w Hv Hwin Hw).
  - eapply Hop; [exact Hconf | exact Hv | |].
    + intros Hin. exact (Hdisj _ v Hin Hv eq_refl).
    + intros w' Hw' He. exact (Hinj v w' Hv Hw' He).
Qed.


(** X17: in a completed run without shared output columns, when the
    dataset opened for a product and a day lacks a requested variable, the
    variable's output column holds [np.nan] at every sample of that day,
    wherever the sample lies and whatever the table held there before. *)
Theorem absent_variable_gives_nan (fs : FileSystem) (a : Args)
    (table : DataFrame) (st : State) (p : product) (base_dir : string)
    (vars : list string) (day : Timestamp) (rows : list (nat * Sample))
    (ridx : nat) (s : Sample) (v path : string) (ds : Dataset) :
  main fs a table = Done st → collision_free a →
  product_of_run a p base_dir vars →
  (day, rows) ∈ groupby_date (iterrows table) → (ridx, s) ∈ rows → v ∈ vars →
  open_first fs (file_candidates_for_date fs base_dir (ts_year day)
                   (ts_month day) (ts_day day)) = Some (path, ds) →
  data_vars ds !! v = None →
  cells (df st) !! (out_name p v, ridx) = Some NaN.
Proof.
  intros Hrun Hfree Hprod Hg Hrow Hv Hopen Habs.
  destruct (main_product_outcome fs a table st p base_dir vars day rows v
              Hrun Hfree Hprod Hg Hv) as [_ Hsome].
  destruct (Hsome path ds Hopen) as (lat_vals & lon_vals & _ & _ & Hrows).
  destruct (Hrows (ridx, s) Hrow) as (res & Hres & Hcell). cbn [fst] in Hres, Hcell.
  rewrite Hcell.
  pose proof (process_row_keys _ _ _ _ _ _ _ _ Hres v) as Hk. cbn [snd] in Hk.
  destruct (res !! v) as [x|] eqn:E; [| reflexivity].
  exfalso. assert (Hin : v ∈ filter (fun v => is_Some (data_vars ds !! v)) vars)
    by (apply Hk; eexists; reflexivity).
  apply list_elem_of_filter in Hin as [[da Hda] _]. congruence.
Qed.

Lemma args_default_collision_free : collision_free args_default.
Proof. exact defaults_collision_free. Qed.

Lemma absent_variable_gives_nan_witness :
  let st := final_state (main fs_optics_only args_default table_one) in
  main fs_optics_only args_default table_one = Done st
  ∧ collision_free args_default
  ∧ data_vars ds_optics_20200315 !! "CDM"%string = None
  ∧ cells (df st) !! ("CDM"%string, O) = Some NaN.
Proof.
  cbv zeta.
  assert (Hrun : main fs_optics_only args_default table_one
                 = Done (final_state (main fs_optics_only args_default table_one)))
    by (vm_compute; reflexivity).
  assert (Hg : (s_date sample_20200315, [(O, sample_20200315)])
               ∈ groupby_date (iterrows table_one)) by (vm_compute; left).
  split; [exact Hrun |]. split; [exact args_default_collision_free |].
  split; [reflexivity |].
  exact (absent_variable_gives_nan fs_optics_only args_default table_one _
           Optics "optics"%string DEFAULT_OPTICS_VARS _ _ O sample_20200315
           "CDM"%string "optics/2020/20200315_optics.nc"%string ds_optics_20200315
           Hrun args_default_collision_free
           (or_intror (conj eq_refl (conj eq_refl eq_refl)))
           Hg ltac:(left) ltac:(do 3 right; left)
           ltac:(vm_compute; reflexivity) eq_refl).
Defined.


